(** * blue-collar-connect-frontend: communities page and streaming chat page

    A shallow embedding of the two stateful components of
    [src/app/community/view-all/page.tsx]:

    - [CommunitiesPage]: the joined / not-joined community lists and the
      handlers that talk to the REST backend;
    - [ChatPage]: the server-sent-event stream of the chat assistant, with
      its inactivity timer and its retry counter.

    JavaScript strings are modelled by [string], read as sequences of
    UTF-16 code units in the range 0..255 (Basic Latin and Latin-1
    Supplement); the string primitives below follow ECMAScript on that
    range.  Where a handler behaves differently on a string outside that
    range (a search term that [encodeURIComponent] rejects), the string is
    the list of its UTF-16 code units ([Js16]). *)

From Stdlib Require Import Bool List String Ascii NArith ZArith Lia.
Import ListNotations.

Local Open Scope string_scope.
Local Open Scope list_scope.

(* ================================================================== *)
(** * JavaScript string primitives used by the pages *)
(* ================================================================== *)

Module Js.

(** Code unit of a character. *)
Definition code (c : ascii) : N := N_of_ascii c.

(** ECMAScript [WhiteSpace] and [LineTerminator] code points below 256:
    TAB, LF, VT, FF, CR, SPACE and NO-BREAK SPACE. *)
Definition isWhiteSpace (c : ascii) : bool :=
  let n := code c in
  ((9 <=? n) && (n <=? 13) || (n =? 32) || (n =? 160))%N.

(** [String.prototype.trimStart]. *)
Fixpoint trimStart (s : string) : string :=
  match s with
  | EmptyString => EmptyString
  | String c r => if isWhiteSpace c then trimStart r else s
  end.

(** [String.prototype.trimEnd]. *)
Fixpoint trimEnd (s : string) : string :=
  match s with
  | EmptyString => EmptyString
  | String c r =>
      match trimEnd r with
      | EmptyString => if isWhiteSpace c then EmptyString else String c EmptyString
      | r' => String c r'
      end
  end.

(** [String.prototype.trim]. *)
Definition trim (s : string) : string := trimEnd (trimStart s).

(** Truthiness of a string: only the empty string is falsy. *)
Definition truthy (s : string) : bool :=
  match s with EmptyString => false | _ => true end.

(** A string made of white space only (the empty string included). *)
Fixpoint allWhiteSpace (s : string) : bool :=
  match s with
  | EmptyString => true
  | String c r => isWhiteSpace c && allWhiteSpace r
  end.

(** Lower-case mapping of one code unit: A-Z and the Latin-1 capitals
    U+00C0..U+00DE (the multiplication sign U+00D7 excepted). *)
Definition toLowerChar (c : ascii) : ascii :=
  let n := code c in
  if ((65 <=? n) && (n <=? 90)
      || (192 <=? n) && (n <=? 222) && negb (n =? 215))%N
  then ascii_of_N (n + 32)
  else c.

(** [String.prototype.toLowerCase]. *)
Fixpoint toLowerCase (s : string) : string :=
  match s with
  | EmptyString => EmptyString
  | String c r => String (toLowerChar c) (toLowerCase r)
  end.

(** [s.startsWith(t)]. *)
Definition startsWith (s t : string) : bool := String.prefix t s.

(** [s.includes(t)]. *)
Fixpoint includes (s t : string) : bool :=
  startsWith s t ||
  match s with
  | EmptyString => false
  | String _ r => includes r t
  end.

(** Two strings that differ by letter case only. *)
Definition sameIgnoringCase (a b : string) : Prop := toLowerCase a = toLowerCase b.

(** [name] contains [term] case-insensitively: some substring of [name]
    differs from [term] by letter case only. *)
Definition containsIgnoringCase (name term : string) : Prop :=
  exists pre mid post,
    name = (pre ++ mid ++ post)%string /\ sameIgnoringCase mid term.

(** Upper-case hexadecimal digit. *)
Definition hexDigit (n : N) : ascii :=
  if (n <? 10)%N then ascii_of_N (48 + n) else ascii_of_N (55 + n).

(** Percent-escape of one octet. *)
Definition percent (b : N) : string :=
  String "%" (String (hexDigit (b / 16)) (String (hexDigit (b mod 16)) EmptyString)).

(** Characters that [encodeURIComponent] leaves alone. *)
Definition isUnreserved (c : ascii) : bool :=
  let n := code c in
  ((65 <=? n) && (n <=? 90) || (97 <=? n) && (n <=? 122)
   || (48 <=? n) && (n <=? 57))%N
  || includes "-_.!~*'()" (String c EmptyString).

(** [encodeURIComponent]: the UTF-8 octets of every other character are
    percent-escaped (one octet below U+0080, two from U+0080 to U+00FF). *)
Fixpoint encodeURIComponent (s : string) : string :=
  match s with
  | EmptyString => EmptyString
  | String c r =>
      let n := code c in
      ((if isUnreserved c then String c EmptyString
       else if (n <? 128)%N then percent n
       else percent (192 + n / 64) ++ percent (128 + n mod 64))%string
      ++ encodeURIComponent r)%string
  end.

(** Concatenation of strings, first to last. *)
Fixpoint concatAll (l : list string) : string :=
  match l with
  | [] => EmptyString
  | x :: r => (x ++ concatAll r)%string
  end.

(** The line feed used by the error texts (written [\n] in the source). *)
Definition LF : string := String (ascii_of_N 10) EmptyString.

End Js.

(* ================================================================== *)
(** * JavaScript strings as sequences of UTF-16 code units *)
(* ================================================================== *)

Module Js16.

(** A string as the list of its UTF-16 code units, each below 65536. *)
Definition str : Type := list N.

(** The strings of [Js], whose code units are below 256. *)
Definition ofLatin1 (s : string) : str := map Js.code (list_ascii_of_string s).

(** ECMAScript [WhiteSpace] and [LineTerminator] code points. *)
Definition isWhiteSpace (c : N) : bool :=
  ((9 <=? c) && (c <=? 13) || (c =? 32) || (c =? 160) || (c =? 5760)
   || (8192 <=? c) && (c <=? 8202) || (c =? 8232) || (c =? 8233)
   || (c =? 8239) || (c =? 8287) || (c =? 12288) || (c =? 65279))%N.

(** [s.trim() === ""]: the string is made of white space only. *)
Definition blank (s : str) : bool := forallb isWhiteSpace s.

(** Leading surrogates U+D800..U+DBFF and trailing surrogates
    U+DC00..U+DFFF. *)
Definition isLeadSurrogate (c : N) : bool := ((55296 <=? c) && (c <=? 56319))%N.
Definition isTrailSurrogate (c : N) : bool := ((56320 <=? c) && (c <=? 57343))%N.

(** Code units that [encodeURIComponent] leaves alone. *)
Definition isUnreserved (c : N) : bool :=
  (c <? 128)%N && Js.isUnreserved (ascii_of_N c).

(** The UTF-8 octets of a code point, each percent-escaped. *)
Definition escape (cp : N) : string :=
  (if cp <? 128 then Js.percent cp
   else if cp <? 2048 then
     Js.percent (192 + cp / 64) ++ Js.percent (128 + cp mod 64)
   else if cp <? 65536 then
     Js.percent (224 + cp / 4096) ++ Js.percent (128 + (cp / 64) mod 64)
     ++ Js.percent (128 + cp mod 64)
   else
     Js.percent (240 + cp / 262144) ++ Js.percent (128 + (cp / 4096) mod 64)
     ++ Js.percent (128 + (cp / 64) mod 64) ++ Js.percent (128 + cp mod 64))%N%string.

(** The code point of a surrogate pair. *)
Definition pairToCodePoint (lead trail : N) : N :=
  ((lead - 55296) * 1024 + (trail - 56320) + 65536)%N.

(** [encodeURIComponent]; [None] is the URIError thrown at a surrogate
    that is not half of a pair. *)
Fixpoint encodeURIComponent (s : str) : option string :=
  match s with
  | [] => Some EmptyString
  | c :: r =>
      if isUnreserved c then
        option_map (String (ascii_of_N c)) (encodeURIComponent r)
      else if isTrailSurrogate c then None
      else if isLeadSurrogate c then
        match r with
        | d :: r' =>
            if isTrailSurrogate d then
              option_map (append (escape (pairToCodePoint c d))) (encodeURIComponent r')
            else None
        | [] => None
        end
      else option_map (append (escape c)) (encodeURIComponent r)
  end.

End Js16.

(* ================================================================== *)
(** * The communities page ([CommunitiesPage]) *)
(* ================================================================== *)

Module Communities.

Record Timestamp := { _seconds : Z; _nanoseconds : Z }.

(** [interface Community]; the optional [posts?: any[]] keeps its
    elements as opaque text. *)
Record Community := {
  communityId : string;
  communityName : string;
  communityDescription : string;
  communityType : string;
  communityTopics : list string;
  communityRules : list string;
  communityProfilePhoto : string;
  communityBackgroundPhoto : string;
  createdAt : Timestamp;
  updatedAt : Timestamp;
  memberCount : Z;
  posts : option (list string)
}.

(** The component's [useState] cells. *)
Record Page := {
  allCommunities : list Community;
  joinedCommunities : list Community;
  notJoinedCommunities : list Community;
  searchTerm : string;
  loading : bool
}.

Definition initialPage : Page :=
  {| allCommunities := []; joinedCommunities := []; notJoinedCommunities := [];
     searchTerm := ""; loading := false |}.

(** ** The collaborators: authentication helpers and the REST backend *)

Inductive Method := GET | POST.

Inductive Body :=
| NoBody
| FormData (fields : list (string * string)).

Record Request := {
  url : string;
  method : Method;
  headers : list (string * string);
  body : Body
}.

(** A parsed response body, as far as the page reads it: an array of
    communities, or an object with its fields [results] and [communities]
    ([None] is an absent field). *)
Inductive Json :=
| JArray (items : list Community)
| JObject (results communities : option (list Community)).

(** [json = None]: [res.json()] rejects. *)
Record Response := { ok : bool; json : option Json }.

Record User := { uid : string }.

(** Outcome of every awaited external call ([getIdTokenNoParam] and
    [getCurrentUser] of [@/utils], and [fetch]); [None] is a rejected
    promise. *)
Record Env := {
  NEXT_PUBLIC_BACKEND_URL : string;
  idTokenResult : option string;
  currentUserResult : option (option User);
  backend : Request -> option Response
}.

(** ** A small monad for the [async] handlers

    A handler reads the environment, updates the page state, records the
    requests it issues, and either completes or throws.

    [joinedUndefined]: the cell [joinedCommunities] was given [undefined]
    instead of an array (the one call that can do so is line 98, in
    [fetchJoinedCommunities]).  The list-typed field of [page] cannot show
    that value and keeps the last array; the next render reads
    [joinedCommunities.length] or [joinedCommunities.filter] and throws. *)

Record World := { page : Page; sent : list Request; joinedUndefined : bool }.

Inductive Result (A : Type) :=
| Done (a : A)
| Thrown (error : string).
Arguments Done {A} a.
Arguments Thrown {A} error.

Definition Async (A : Type) : Type := Env -> World -> Result A * World.

Definition ret {A} (a : A) : Async A := fun _ w => (Done a, w).

Definition bind {A B} (m : Async A) (k : A -> Async B) : Async B :=
  fun env w =>
    match m env w with
    | (Done a, w') => k a env w'
    | (Thrown e, w') => (Thrown e, w')
    end.

Definition throw {A} (e : string) : Async A := fun _ w => (Thrown e, w).

(** [try { m } catch (error) { h error }]. *)
Definition try_catch {A} (m : Async A) (h : string -> Async A) : Async A :=
  fun env w =>
    match m env w with
    | (Done a, w') => (Done a, w')
    | (Thrown e, w') => h e env w'
    end.

(** [try { m } finally { f }]. *)
Definition try_finally {A} (m : Async A) (f : Async unit) : Async A :=
  fun env w =>
    match m env w with
    | (r, w') =>
        match f env w' with
        | (Done _, w'') => (r, w'')
        | (Thrown e, w'') => (Thrown e, w'')
        end
    end.

Declare Scope async_scope.
Delimit Scope async_scope with async.
Notation "x <- m ;; k" := (bind m (fun x => k))
  (at level 61, m at next level, right associativity) : async_scope.
Notation "m ;; k" := (bind m (fun _ => k))
  (at level 61, right associativity) : async_scope.
Local Open Scope async_scope.

Definition await {A} (error : string) (r : Env -> option A) : Async A :=
  fun env w =>
    match r env with
    | Some a => (Done a, w)
    | None => (Thrown error, w)
    end.

Definition getIdTokenNoParam : Async string :=
  await "getIdTokenNoParam rejected" idTokenResult.

Definition getCurrentUser : Async (option User) :=
  await "getCurrentUser rejected" currentUserResult.

Definition backendUrl : Async string :=
  fun env w => (Done (NEXT_PUBLIC_BACKEND_URL env), w).

Definition fetch (req : Request) : Async Response :=
  fun env w =>
    let w' := {| page := page w; sent := sent w ++ [req];
                 joinedUndefined := joinedUndefined w |} in
    match backend env req with
    | Some res => (Done res, w')
    | None => (Thrown "fetch rejected", w')
    end.

Definition res_json (res : Response) : Async Json :=
  await "res.json() rejected" (fun _ => json res).

Definition modify (f : Page -> Page) : Async unit :=
  fun _ w => (Done tt, {| page := f (page w); sent := sent w;
                          joinedUndefined := joinedUndefined w |}).

Definition setLoading (b : bool) : Async unit :=
  modify (fun p =>
    {| allCommunities := allCommunities p;
       joinedCommunities := joinedCommunities p;
       notJoinedCommunities := notJoinedCommunities p;
       searchTerm := searchTerm p; loading := b |}).

(** [setJoinedCommunities((prev) => f(prev))]. *)
Definition setJoinedCommunities (f : list Community -> list Community) : Async unit :=
  modify (fun p =>
    {| allCommunities := allCommunities p;
       joinedCommunities := f (joinedCommunities p);
       notJoinedCommunities := notJoinedCommunities p;
       searchTerm := searchTerm p; loading := loading p |}).

(** [setJoinedCommunities(v)] for a value [v] that is an array or
    [undefined] ([None]). *)
Definition setJoinedCommunitiesTo (v : option (list Community)) : Async unit :=
  match v with
  | Some l => setJoinedCommunities (fun _ => l)
  | None =>
      fun _ w => (Done tt, {| page := page w; sent := sent w;
                              joinedUndefined := true |})
  end.

(** [setNotJoinedCommunities((prev) => f(prev))]. *)
Definition setNotJoinedCommunities (f : list Community -> list Community) : Async unit :=
  modify (fun p =>
    {| allCommunities := allCommunities p;
       joinedCommunities := joinedCommunities p;
       notJoinedCommunities := f (notJoinedCommunities p);
       searchTerm := searchTerm p; loading := loading p |}).

Definition setAllCommunities (v : list Community) : Async unit :=
  modify (fun p =>
    {| allCommunities := v;
       joinedCommunities := joinedCommunities p;
       notJoinedCommunities := notJoinedCommunities p;
       searchTerm := searchTerm p; loading := loading p |}).

(** [setSearchTerm(e.target.value)], the search box's [onChange]. *)
Definition setSearchTerm (v : string) (p : Page) : Page :=
  {| allCommunities := allCommunities p;
     joinedCommunities := joinedCommunities p;
     notJoinedCommunities := notJoinedCommunities p;
     searchTerm := v; loading := loading p |}.

(** [new Set(ids)] and [Set.prototype.has]. *)
Definition JsSet := list string.
Definition Set_has (s : JsSet) (x : string) : bool := existsb (String.eqb x) s.

(** ** The component's effects and handlers

    Every handler is a closure over the render [r] it was created in:
    [searchTerm] and [joinedCommunities] are read from [r], while the
    functional updaters [(prev) => ...] see the current state. *)

(** "Fetch all communities on mount". *)
Definition fetchAllCommunities (r : Page) : Async unit :=
  setLoading true ;;
  try_finally
    (try_catch
       (idToken <- getIdTokenNoParam ;;
        base <- backendUrl ;;
        res <- fetch
          {| url := (base ++ "/api/community/all")%string;
             method := GET;
             headers := [("Authorization", ("Bearer " ++ idToken)%string);
                         ("Content-Type", "application/json")];
             body := NoBody |} ;;
        if negb (ok res) then throw "Failed to fetch communities" else
        data <- res_json res ;;
        let communities : list Community :=
          match data with JObject _ (Some l) => l | _ => [] end in
        setAllCommunities communities)
       (fun _ => ret tt))
    (setLoading false).

(** "Fetch joined communities for the current user".  The body is an
    array, or an object whose [communities] is stored as it is: for an
    object without that field the cell is given [undefined], and nothing
    throws in the handler. *)
Definition fetchJoinedCommunities (r : Page) : Async unit :=
  try_catch
    (currentUser <- getCurrentUser ;;
     match currentUser with
     | None => ret tt
     | Some currentUser =>
         idToken <- getIdTokenNoParam ;;
         base <- backendUrl ;;
         res <- fetch
           {| url := (base ++ "/api/community/joined/" ++ uid currentUser)%string;
              method := GET;
              headers := [("Authorization", ("Bearer " ++ idToken)%string);
                          ("Content-Type", "application/json")];
              body := NoBody |} ;;
         if negb (ok res) then throw "Failed to fetch joined communities" else
         data <- res_json res ;;
         let joined : option (list Community) :=
           match data with
           | JArray items => Some (map (fun comm => comm) items)
           | JObject _ communities => communities
           end in
         setJoinedCommunitiesTo joined
     end)
    (fun _ => ret tt).

(** "When search term is empty, update not joined communities from local
    data" (the effect on [searchTerm, allCommunities, joinedCommunities]). *)
Definition emptySearchEffect (p : Page) : Page :=
  if (Js.trim (searchTerm p) =? "")%string then
    let joinedIds : JsSet := map communityId (joinedCommunities p) in
    {| allCommunities := allCommunities p;
       joinedCommunities := joinedCommunities p;
       notJoinedCommunities :=
         filter (fun c => negb (Set_has joinedIds (communityId c))) (allCommunities p);
       searchTerm := searchTerm p; loading := loading p |}
  else p.

(** [data.results || data.communities || []] (an array, even an empty
    one, is truthy). *)
Definition resultsOf (data : Json) : list Community :=
  match data with
  | JObject (Some l) _ => l
  | JObject None (Some l) => l
  | _ => []
  end.

(** [searchNotJoinedCommunities], for terms of any representation [T]:
    [encodeURIComponent term] is the encoded term, or [None] when the
    builtin throws URIError; the template literal that calls it is
    evaluated inside the [try], after the token is awaited. *)
Definition searchNotJoinedCommunitiesWith {T : Type}
    (encodeURIComponent : T -> option string) (r : Page) (term : T) : Async unit :=
  setLoading true ;;
  try_finally
    (try_catch
       (idToken <- getIdTokenNoParam ;;
        base <- backendUrl ;;
        name <- await "URIError: URI malformed" (fun _ => encodeURIComponent term) ;;
        res <- fetch
          {| url := (base ++ "/api/community/search?name="
                          ++ name ++ "&limit=5")%string;
             method := GET;
             headers := [("Content-Type", "application/json");
                         ("Authorization", ("Bearer " ++ idToken)%string)];
             body := NoBody |} ;;
        if negb (ok res) then throw "Failed to search communities" else
        data <- res_json res ;;
        let searchResults : list Community := resultsOf data in
        let joinedIds : JsSet := map communityId (joinedCommunities r) in
        let notJoinedResults :=
          filter (fun c => negb (Set_has joinedIds (communityId c))) searchResults in
        setNotJoinedCommunities (fun _ => notJoinedResults))
       (fun _ => setNotJoinedCommunities (fun _ => [])))
    (setLoading false).

(** The handler on a term of the range 0..255, which the builtin always
    encodes. *)
Definition searchNotJoinedCommunities (r : Page) (term : string) : Async unit :=
  searchNotJoinedCommunitiesWith (fun t => Some (Js.encodeURIComponent t)) r term.

(** The handler on any term. *)
Definition searchNotJoinedCommunities16 (r : Page) (term : Js16.str) : Async unit :=
  searchNotJoinedCommunitiesWith Js16.encodeURIComponent r term.

(** "Local filtering for joined communities when searching". *)
Definition displayedJoinedCommunities (r : Page) : list Community :=
  if (Js.trim (searchTerm r) =? "")%string then joinedCommunities r
  else filter (fun c => Js.includes (Js.toLowerCase (communityName c))
                                    (Js.toLowerCase (searchTerm r)))
              (joinedCommunities r).

Definition joinCommunity (r : Page) (community : Community) : Async unit :=
  try_catch
    (idToken <- getIdTokenNoParam ;;
     currentUser <- getCurrentUser ;;
     match currentUser with
     | None => ret tt
     | Some currentUser =>
         let formData :=
           [("userId", uid currentUser);
            ("communityId", communityId community);
            ("communityName", communityName community)] in
         base <- backendUrl ;;
         res <- fetch
           {| url := (base ++ "/api/community/join")%string;
              method := POST;
              headers := [("Authorization", ("Bearer " ++ idToken)%string)];
              body := FormData formData |} ;;
         if negb (ok res) then throw "Failed to join community" else
         _ <- res_json res ;;
         setJoinedCommunities (fun prev => prev ++ [community]) ;;
         setNotJoinedCommunities (fun prev =>
           filter (fun c => negb (communityId c =? communityId community)%string) prev)
     end)
    (fun _ => ret tt).

Definition leaveCommunity (r : Page) (community : Community) : Async unit :=
  try_catch
    (idToken <- getIdTokenNoParam ;;
     currentUser <- getCurrentUser ;;
     match currentUser with
     | None => ret tt
     | Some currentUser =>
         let formData :=
           [("userId", uid currentUser);
            ("communityId", communityId community);
            ("communityName", communityName community)] in
         base <- backendUrl ;;
         res <- fetch
           {| url := (base ++ "/api/community/leave")%string;
              method := POST;
              headers := [("Authorization", ("Bearer " ++ idToken)%string)];
              body := FormData formData |} ;;
         if negb (ok res) then throw "Failed to leave community" else
         _ <- res_json res ;;
         setJoinedCommunities (fun prev =>
           filter (fun c => negb (communityId c =? communityId community)%string) prev) ;;
         if (Js.trim (searchTerm r) =? "")%string
            || Js.includes (Js.toLowerCase (communityName community))
                           (Js.toLowerCase (searchTerm r))
         then setNotJoinedCommunities (fun prev => prev ++ [community])
         else ret tt
     end)
    (fun _ => ret tt).

(** Running a handler created in the render of [p], from state [p], to
    completion: the final page and the requests issued, in order. *)
Definition run (h : Page -> Async unit) (env : Env) (p : Page) : Page * list Request :=
  let w := snd (h p env {| page := p; sent := []; joinedUndefined := false |}) in
  (page w, sent w).

(** A handler created in the render [r] whose state updates land on the
    state [p]: between the creation of the closure and the end of its
    awaits other handlers may have changed the state, so that [p] need not
    be [r].  What the handler reads from its closure ([joinedCommunities]
    at line 135, [searchTerm] at line 222) is read from [r]; what its
    functional updaters [(prev) => ...] receive is the state [p].  Every
    handler writes the two lists after its last await and in one batch, so
    for the lists this is the handler's whole effect. *)
Definition runFrom (h : Page -> Async unit) (env : Env) (r p : Page) : World :=
  snd (h r env {| page := p; sent := []; joinedUndefined := false |}).

(** The communityIds of a list. *)
Definition ids (l : list Community) : list string := map communityId l.

(** No communityId occurs in both lists. *)
Definition disjointLists (p : Page) : Prop :=
  forall i, In i (ids (joinedCommunities p)) -> ~ In i (ids (notJoinedCommunities p)).

(** What happens on the page: the user types in the search box, one of
    the two fetches started at mount completes, the recomputation effect
    runs, a debounced search completes, a Join or Leave button is used. *)
Inductive Op :=
| SetSearchTerm (value : string)
| FetchAll
| FetchJoined
| EmptySearchEffect
| Search (term : string)
| Join (c : Community)
| Leave (c : Community).

(** The operation [o] completes on the state [p]; its handler was created
    in the render [r].  Typing and the recomputation effect are
    synchronous and have no closure of an earlier render: the effect runs
    right after the render whose state it reads. *)
Definition landing (env : Env) (o : Op) (r p : Page) : World :=
  let synchronous q := {| page := q; sent := []; joinedUndefined := false |} in
  match o with
  | SetSearchTerm value => synchronous (setSearchTerm value p)
  | FetchAll => runFrom fetchAllCommunities env r p
  | FetchJoined => runFrom fetchJoinedCommunities env r p
  | EmptySearchEffect => synchronous (emptySearchEffect p)
  | Search term => runFrom (fun r => searchNotJoinedCommunities r term) env r p
  | Join c => runFrom (fun r => joinCommunity r c) env r p
  | Leave c => runFrom (fun r => leaveCommunity r c) env r p
  end.

(** The cells of the page after the operation. *)
Definition complete (env : Env) (o : Op) (r p : Page) : Page :=
  page (landing env o r p).

(** The operation leaves [undefined] in [joinedCommunities]: the page
    cannot render any more and the list of [complete] is not what the cell
    holds. *)
Definition storesUndefined (env : Env) (o : Op) (r p : Page) : bool :=
  joinedUndefined (landing env o r p).

(** An operation that keeps disjoint lists disjoint: any but the completion
    of the joined-list fetch, which replaces the joined list and leaves the
    other list as it is, and a search that completes after the joined list
    has gained an id since the render that started it. *)
Definition keepsLists (o : Op) (r p : Page) : Prop :=
  match o with
  | FetchJoined => False
  | Search _ => incl (ids (joinedCommunities p)) (ids (joinedCommunities r))
  | _ => True
  end.

End Communities.

(* ================================================================== *)
(** * The chat page ([ChatPage]) *)
(* ================================================================== *)

Module Chat.

Inductive MessageRole := user | assistant.

(** [interface Message]; [error?] and [isLoading?] are optional. *)
Module Message.
Record t := {
  id : string;
  role : MessageRole;
  content : string;
  timestamp : N;
  error : option bool;
  isLoading : option bool
}.
End Message.

Definition CHUNK_TIMEOUT : N := 30000.
Definition MAX_RETRIES : Z := 3.

(** ** Browser objects

    An [EventSource] created by [handleSendMessage], together with the
    variables its three listeners close over: [assistantMessageId] and the
    mutable local [fullMessage].  [closed] records that [close()] was
    called; a closed source dispatches no further event. *)
Record EventSource := {
  es_url : string;
  closed : bool;
  assistantMessageId : string;
  fullMessage : string
}.

(** A timer created by [setTimeout] in [startChunkTimeout]; its callback
    closes over the assistantMessageId it was armed for.  [pending] is
    cleared by [clearTimeout] and when the timer fires. *)
Record Timer := {
  timerMessageId : string;
  deadline : N;
  pending : bool
}.

(** The component's [useState] cells and [useRef] boxes, followed by the
    browser objects they point into ([eventSourceRef] and
    [chunkTimeoutRef] hold indices; [None] is [null]) and the clock in
    milliseconds. *)
Record State := {
  messages : list Message.t;
  input : string;
  isLoading : bool;
  eventSourceRef : option nat;
  chunkTimeoutRef : option nat;
  retryCountRef : Z;
  thread_id : string;
  eventSources : list EventSource;
  timers : list Timer;
  now : N
}.

Definition set_messages (v : list Message.t) (st : State) : State :=
  {| messages := v;
     input := input st;
     isLoading := isLoading st;
     eventSourceRef := eventSourceRef st;
     chunkTimeoutRef := chunkTimeoutRef st;
     retryCountRef := retryCountRef st;
     thread_id := thread_id st;
     eventSources := eventSources st;
     timers := timers st;
     now := now st |}.

Definition set_input (v : string) (st : State) : State :=
  {| messages := messages st;
     input := v;
     isLoading := isLoading st;
     eventSourceRef := eventSourceRef st;
     chunkTimeoutRef := chunkTimeoutRef st;
     retryCountRef := retryCountRef st;
     thread_id := thread_id st;
     eventSources := eventSources st;
     timers := timers st;
     now := now st |}.

Definition set_isLoading (v : bool) (st : State) : State :=
  {| messages := messages st;
     input := input st;
     isLoading := v;
     eventSourceRef := eventSourceRef st;
     chunkTimeoutRef := chunkTimeoutRef st;
     retryCountRef := retryCountRef st;
     thread_id := thread_id st;
     eventSources := eventSources st;
     timers := timers st;
     now := now st |}.

Definition set_eventSourceRef (v : option nat) (st : State) : State :=
  {| messages := messages st;
     input := input st;
     isLoading := isLoading st;
     eventSourceRef := v;
     chunkTimeoutRef := chunkTimeoutRef st;
     retryCountRef := retryCountRef st;
     thread_id := thread_id st;
     eventSources := eventSources st;
     timers := timers st;
     now := now st |}.

Definition set_chunkTimeoutRef (v : option nat) (st : State) : State :=
  {| messages := messages st;
     input := input st;
     isLoading := isLoading st;
     eventSourceRef := eventSourceRef st;
     chunkTimeoutRef := v;
     retryCountRef := retryCountRef st;
     thread_id := thread_id st;
     eventSources := eventSources st;
     timers := timers st;
     now := now st |}.

Definition set_retryCountRef (v : Z) (st : State) : State :=
  {| messages := messages st;
     input := input st;
     isLoading := isLoading st;
     eventSourceRef := eventSourceRef st;
     chunkTimeoutRef := chunkTimeoutRef st;
     retryCountRef := v;
     thread_id := thread_id st;
     eventSources := eventSources st;
     timers := timers st;
     now := now st |}.

Definition set_thread_id (v : string) (st : State) : State :=
  {| messages := messages st;
     input := input st;
     isLoading := isLoading st;
     eventSourceRef := eventSourceRef st;
     chunkTimeoutRef := chunkTimeoutRef st;
     retryCountRef := retryCountRef st;
     thread_id := v;
     eventSources := eventSources st;
     timers := timers st;
     now := now st |}.

Definition set_eventSources (v : list EventSource) (st : State) : State :=
  {| messages := messages st;
     input := input st;
     isLoading := isLoading st;
     eventSourceRef := eventSourceRef st;
     chunkTimeoutRef := chunkTimeoutRef st;
     retryCountRef := retryCountRef st;
     thread_id := thread_id st;
     eventSources := v;
     timers := timers st;
     now := now st |}.

Definition set_timers (v : list Timer) (st : State) : State :=
  {| messages := messages st;
     input := input st;
     isLoading := isLoading st;
     eventSourceRef := eventSourceRef st;
     chunkTimeoutRef := chunkTimeoutRef st;
     retryCountRef := retryCountRef st;
     thread_id := thread_id st;
     eventSources := eventSources st;
     timers := v;
     now := now st |}.

Definition set_now (v : N) (st : State) : State :=
  {| messages := messages st;
     input := input st;
     isLoading := isLoading st;
     eventSourceRef := eventSourceRef st;
     chunkTimeoutRef := chunkTimeoutRef st;
     retryCountRef := retryCountRef st;
     thread_id := thread_id st;
     eventSources := eventSources st;
     timers := timers st;
     now := v |}.

(** [setMessages((prev) => f(prev))]. *)
Definition setMessages (f : list Message.t -> list Message.t) (st : State) : State :=
  set_messages (f (messages st)) st.

Definition setInput : string -> State -> State := set_input.
Definition setIsLoading : bool -> State -> State := set_isLoading.

(** What lies outside the component: the configured chat URL and the URL
    parser of the [EventSource] constructor, which throws a SyntaxError on
    a URL it cannot parse. *)
Record Env := {
  NEXT_PUBLIC_CHAT_URL : string;
  validUrl : string -> bool
}.

Fixpoint updateAt {A} (n : nat) (f : A -> A) (l : list A) : list A :=
  match l, n with
  | [], _ => []
  | x :: r, O => f x :: r
  | x :: r, S n' => x :: updateAt n' f r
  end.

(** [es.close()]. *)
Definition close (h : nat) (st : State) : State :=
  set_eventSources
    (updateAt h (fun es =>
       {| es_url := es_url es; closed := true;
          assistantMessageId := assistantMessageId es;
          fullMessage := fullMessage es |}) (eventSources st)) st.

Definition unpend (tm : Timer) : Timer :=
  {| timerMessageId := timerMessageId tm; deadline := deadline tm; pending := false |}.

(** [clearTimeout(t)]. *)
Definition clearTimeout (t : nat) (st : State) : State :=
  set_timers (updateAt t unpend (timers st)) st.

(** [setTimeout(callback, delay)]: the new timer's handle and the state. *)
Definition setTimeout (messageId : string) (delay : N) (st : State) : nat * State :=
  (List.length (timers st),
   set_timers (timers st ++
     [{| timerMessageId := messageId; deadline := (now st + delay)%N; pending := true |}]) st).

(** [new EventSource(url)] followed by the installation of the listeners. *)
Definition newEventSource (u : string) (messageId : string) (st : State) : nat * State :=
  (List.length (eventSources st),
   set_eventSources (eventSources st ++
     [{| es_url := u; closed := false;
         assistantMessageId := messageId; fullMessage := "" |}]) st).

(** ** The component's functions *)

Definition cleanupStream (st : State) : State :=
  let st :=
    match eventSourceRef st with
    | Some h => set_eventSourceRef None (close h st)
    | None => st
    end in
  let st :=
    match chunkTimeoutRef st with
    | Some t => set_chunkTimeoutRef None (clearTimeout t st)
    | None => st
    end in
  setIsLoading false st.

(** [{ ...msg, content: msg.content + text, error: true, isLoading: false }]
    on the messages whose id is [messageId]. *)
Definition appendError (messageId : string) (text : string) (msg : Message.t) : Message.t :=
  if (Message.id msg =? messageId)%string then
    {| Message.id := Message.id msg; Message.role := Message.role msg;
       Message.content := (Message.content msg ++ text)%string;
       Message.timestamp := Message.timestamp msg;
       Message.error := Some true; Message.isLoading := Some false |}
  else msg.

Definition timeoutText : string :=
  (Js.LF ++ "[Error: Response timeout - No data received for 30 seconds]")%string.

(** The callback given to [setTimeout] by [startChunkTimeout]. *)
Definition chunkTimeoutCallback (assistantMessageId : string) (st : State) : State :=
  cleanupStream (setMessages (map (appendError assistantMessageId timeoutText)) st).

Definition startChunkTimeout (assistantMessageId : string) (st : State) : State :=
  let st :=
    match chunkTimeoutRef st with
    | Some t => clearTimeout t st
    | None => st
    end in
  let '(t, st) := setTimeout assistantMessageId CHUNK_TIMEOUT st in
  set_chunkTimeoutRef (Some t) st.

Definition handleStreamError (assistantMessageId errorMsg : string) (st : State) : State :=
  cleanupStream
    (setMessages
       (map (appendError assistantMessageId
               (Js.LF ++ "[Error: " ++ errorMsg ++ "]")%string)) st).

Definition streamUrl (env : Env) (thread text : string) : string :=
  (NEXT_PUBLIC_CHAT_URL env ++ "/api/stream-prompt?thread_id=" ++ thread
     ++ "&prompt=" ++ Js.encodeURIComponent text)%string.

(** [handleSendMessage(text = input)]; [uuid1] and [uuid2] are the results
    of its two [uuidv4()] calls. *)
Definition handleSendMessage (env : Env) (text : option string)
    (uuid1 uuid2 : string) (st : State) : State :=
  let text := match text with Some t => t | None => input st end in
  if negb (Js.truthy (Js.trim text)) then st else
  let st := cleanupStream st in
  let st := set_retryCountRef 0 st in
  let st := setIsLoading true st in
  let userMessage : Message.t :=
    {| Message.id := uuid1; Message.role := user; Message.content := text;
       Message.timestamp := now st;
       Message.error := None; Message.isLoading := None |} in
  let assistantMessageId := uuid2 in
  let assistantMessage : Message.t :=
    {| Message.id := assistantMessageId; Message.role := assistant;
       Message.content := ""; Message.timestamp := now st;
       Message.error := None; Message.isLoading := Some true |} in
  let st := setMessages (fun prev => prev ++ [userMessage; assistantMessage]) st in
  let st := setInput "" st in
  let u := streamUrl env (thread_id st) text in
  if validUrl env u then
    let '(eventSource, st) := newEventSource u assistantMessageId st in
    set_eventSourceRef (Some eventSource) st
  else handleStreamError assistantMessageId "Failed to establish connection" st.

(** [{ ...msg, content: fullMessage, isLoading: false }] on the messages
    whose id is [messageId]. *)
Definition setContent (messageId : string) (full : string) (msg : Message.t) : Message.t :=
  if (Message.id msg =? messageId)%string then
    {| Message.id := Message.id msg; Message.role := Message.role msg;
       Message.content := full;
       Message.timestamp := Message.timestamp msg;
       Message.error := Message.error msg; Message.isLoading := Some false |}
  else msg.

(** [fullMessage += content] in the closure of source [h]. *)
Definition appendFullMessage (h : nat) (data : string) (st : State) : State :=
  set_eventSources
    (updateAt h (fun es =>
       {| es_url := es_url es; closed := closed es;
          assistantMessageId := assistantMessageId es;
          fullMessage := (fullMessage es ++ data)%string |}) (eventSources st)) st.

(** [eventSource.onmessage] of source [h] (closure [es]) on [event.data].
    Nothing in the body of its [try] throws on a string, so its [catch]
    ("Failed to process response") is never entered. *)
Definition onmessage (h : nat) (es : EventSource) (data : string) (st : State) : State :=
  if Js.truthy data then
    let st := startChunkTimeout (assistantMessageId es) st in
    if Js.includes data "[Error:" then
      handleStreamError (assistantMessageId es) data st
    else
      let st := appendFullMessage h data st in
      setMessages
        (map (setContent (assistantMessageId es) (fullMessage es ++ data)%string)) st
  else st.

(** [eventSource.onerror]. *)
Definition onerror (es : EventSource) (st : State) : State :=
  let st := set_retryCountRef (retryCountRef st + 1) st in
  if (MAX_RETRIES <=? retryCountRef st)%Z then
    handleStreamError (assistantMessageId es) "Connection failed after multiple retries" st
  else st.

(** The listener of the custom "done" event. *)
Definition ondone (st : State) : State := cleanupStream st.

(** ** The event loop *)

Inductive SseEvent :=
| SseMessage (data : string)
| SseError
| SseDone.

(** Delivery of an event to source [h]: only a source that exists and was
    not closed runs its listener. *)
Definition dispatch (h : nat) (ev : SseEvent) (st : State) : State :=
  match nth_error (eventSources st) h with
  | Some es =>
      if closed es then st
      else match ev with
           | SseMessage data => onmessage h es data st
           | SseError => onerror es st
           | SseDone => ondone st
           end
  | None => st
  end.

(** Timer [t] fires if it is pending and due. *)
Definition fireTimer (t : nat) (st : State) : State :=
  match nth_error (timers st) t with
  | Some tm =>
      if pending tm && (deadline tm <=? now st)%N then
        chunkTimeoutCallback (timerMessageId tm)
          (set_timers (updateAt t unpend (timers st)) st)
      else st
  | None => st
  end.

(** [dt] milliseconds pass without any other event: the clock advances and
    the timers that are due fire, oldest first. *)
Definition elapse (dt : N) (st : State) : State :=
  let st := set_now (now st + dt)%N st in
  fold_left (fun s t => fireTimer t s) (seq 0 (List.length (timers st))) st.

Inductive Event :=
| TypeInput (s : string)
| Send (text : option string) (uuid1 uuid2 : string)
| Sse (h : nat) (ev : SseEvent)
| Elapse (dt : N)
| Unmount.

Definition step (env : Env) (ev : Event) (st : State) : State :=
  match ev with
  | TypeInput s => setInput s st
  | Send text uuid1 uuid2 => handleSendMessage env text uuid1 uuid2 st
  | Sse h e => dispatch h e st
  | Elapse dt => elapse dt st
  | Unmount => cleanupStream st
  end.

Definition run (env : Env) (evs : list Event) (st : State) : State :=
  fold_left (fun s ev => step env ev s) evs st.

Definition welcomeMessage (t0 : N) : Message.t :=
  {| Message.id := "welcome-message"; Message.role := assistant;
     Message.content := "Hello! I'm your job search assistant. How can I help you today?";
     Message.timestamp := t0;
     Message.error := None; Message.isLoading := None |}.

(** The state at mount; [thread] is the [uuidv4()] kept in [thread_id]. *)
Definition initialState (thread : string) (t0 : N) : State :=
  {| messages := [welcomeMessage t0]; input := ""; isLoading := false;
     eventSourceRef := None; chunkTimeoutRef := None; retryCountRef := 0;
     thread_id := thread; eventSources := []; timers := []; now := t0 |}.

(** The final text of a [handleSendMessage] call: its argument, or the
    [input] cell when called without one. *)
Definition textOf (text : option string) (st : State) : string :=
  match text with Some t => t | None => input st end.

(** The source the handlers were installed on, as it is after
    [fullMessage] became [full]. *)
Definition withFullMessage (es : EventSource) (full : string) : EventSource :=
  {| es_url := es_url es; closed := closed es;
     assistantMessageId := assistantMessageId es; fullMessage := full |}.

(** Source [h] exists and [close()] was not called on it. *)
Definition openSource (st : State) (h : nat) (es : EventSource) : Prop :=
  nth_error (eventSources st) h = Some es /\ closed es = false.

(** A data chunk that is neither empty nor a backend error report. *)
Definition benign (data : string) : bool :=
  Js.truthy data && negb (Js.includes data "[Error:").

(** The events of a stream in progress: benign chunks and error events. *)
Definition inProgress (ev : SseEvent) : bool :=
  match ev with
  | SseMessage data => benign data
  | SseError => true
  | SseDone => false
  end.

Fixpoint chunksOf (evs : list SseEvent) : list string :=
  match evs with
  | [] => []
  | SseMessage data :: r => data :: chunksOf r
  | _ :: r => chunksOf r
  end.

Fixpoint errorsIn (evs : list SseEvent) : Z :=
  match evs with
  | [] => 0
  | SseError :: r => 1 + errorsIn r
  | _ :: r => errorsIn r
  end.

(** Delivery of a sequence of events to source [h]. *)
Definition deliver (h : nat) (evs : list SseEvent) (st : State) : State :=
  fold_left (fun s ev => dispatch h ev s) evs st.

(** [after] is [before] with the messages whose id is [messageId] changed
    according to [R], and every other message left as it was. *)
Definition onlyChanged (messageId : string) (R : Message.t -> Message.t -> Prop)
    (before after : list Message.t) : Prop :=
  Forall2 (fun m m' =>
             (Message.id m = messageId -> R m m')
             /\ (Message.id m <> messageId -> m' = m)) before after.

(** The refs own the resources: the only source that may still be open is
    the one in [eventSourceRef], the only timer that may still be pending
    is the one in [chunkTimeoutRef]. *)
Definition refsOwn (st : State) : Prop :=
  (forall h es, nth_error (eventSources st) h = Some es -> closed es = false ->
                eventSourceRef st = Some h)
  /\ (forall t tm, nth_error (timers st) t = Some tm -> pending tm = true ->
                   chunkTimeoutRef st = Some t).

(** No source is open in [st'] that was not open in [st]. *)
Definition noNewOpen (st st' : State) : Prop :=
  forall h es, openSource st' h es -> exists es0, openSource st h es0.

(** The events that end a stream: the "done" event, a reported failure
    (retries exhausted, an error report from the backend, a connection
    that cannot be established), the unmount, and the inactivity timeout. *)
Inductive terminating (env : Env) (st : State) : Event -> Prop :=
| term_done h es :
    openSource st h es -> terminating env st (Sse h SseDone)
| term_retries h es :
    openSource st h es -> (MAX_RETRIES <= retryCountRef st + 1)%Z ->
    terminating env st (Sse h SseError)
| term_backend h es data :
    openSource st h es -> Js.includes data "[Error:" = true ->
    terminating env st (Sse h (SseMessage data))
| term_connect text uuid1 uuid2 :
    Js.allWhiteSpace (textOf text st) = false ->
    validUrl env (streamUrl env (thread_id st) (textOf text st)) = false ->
    terminating env st (Send text uuid1 uuid2)
| term_unmount :
    terminating env st Unmount
| term_timeout t tm dt :
    nth_error (timers st) t = Some tm ->
    pending tm = true -> (deadline tm <= now st + dt)%N ->
    terminating env st (Elapse dt).

(** States the component can be in. *)
Inductive reachable (env : Env) : State -> Prop :=
| reachable_init thread t0 : reachable env (initialState thread t0)
| reachable_step ev st : reachable env st -> reachable env (step env ev st).

(** Every source is closed and every timer is cleared. *)
Definition allClosed (st : State) : Prop :=
  forall h es, nth_error (eventSources st) h = Some es -> closed es = true.

Definition noneArmed (st : State) : Prop :=
  forall t tm, nth_error (timers st) t = Some tm -> pending tm = false.

(** The stream is torn down. *)
Definition tornDown (st : State) : Prop :=
  eventSourceRef st = None /\ chunkTimeoutRef st = None /\ isLoading st = false
  /\ allClosed st /\ noneArmed st.

End Chat.

(* ================================================================== *)
(** * Concrete data for the examples *)
(* ================================================================== *)

Module Samples.

Definition epoch : Communities.Timestamp :=
  {| Communities._seconds := 1700000000; Communities._nanoseconds := 0 |}.

Definition community (i name : string) : Communities.Community :=
  {| Communities.communityId := i;
     Communities.communityName := name;
     Communities.communityDescription := "";
     Communities.communityType := "public";
     Communities.communityTopics := [];
     Communities.communityRules := [];
     Communities.communityProfilePhoto := "";
     Communities.communityBackgroundPhoto := "";
     Communities.createdAt := epoch;
     Communities.updatedAt := epoch;
     Communities.memberCount := 12;
     Communities.posts := None |}.

Definition plumbers := community "c1" "Plumbers United".
Definition welders := community "c2" "Welders".
Definition drivers := community "c3" "Truck Drivers".

Definition alice : Communities.User := {| Communities.uid := "alice" |}.

(** A backend that accepts every request.  It lists the three
    communities, knows the welders as joined, and answers every search
    with the plumbers and the welders. *)
Definition backendOk (req : Communities.Request) : option Communities.Response :=
  Some {| Communities.ok := true;
          Communities.json :=
            Some (if Js.includes (Communities.url req) "/api/community/all"
                  then Communities.JObject None (Some [plumbers; welders; drivers])
                  else if Js.includes (Communities.url req) "/api/community/joined/"
                  then Communities.JArray [welders]
                  else Communities.JObject (Some [plumbers; welders]) None) |}.

(** A backend that refuses every request. *)
Definition backendRefuses (_ : Communities.Request) : option Communities.Response :=
  Some {| Communities.ok := false; Communities.json := None |}.

Definition envWith (b : Communities.Request -> option Communities.Response)
  : Communities.Env :=
  {| Communities.NEXT_PUBLIC_BACKEND_URL := "https://api.example";
     Communities.idTokenResult := Some "token";
     Communities.currentUserResult := Some (Some alice);
     Communities.backend := b |}.

Definition env : Communities.Env := envWith backendOk.

(** The welders are joined, the plumbers and the drivers are not; the
    search box holds "PLUMB". *)
Definition page : Communities.Page :=
  {| Communities.allCommunities := [plumbers; welders; drivers];
     Communities.joinedCommunities := [welders];
     Communities.notJoinedCommunities := [plumbers; drivers];
     Communities.searchTerm := "PLUMB";
     Communities.loading := false |}.

Definition chatEnv : Chat.Env :=
  {| Chat.NEXT_PUBLIC_CHAT_URL := "https://chat.example";
     Chat.validUrl := fun _ => true |}.

Definition chat0 : Chat.State := Chat.initialState "thread-1" 1000.

(** The chat after "hello" was sent. *)
Definition chatSent : Chat.State :=
  Chat.step chatEnv (Chat.Send (Some "hello") "u-1" "a-1") chat0.

(** The source opened for it. *)
Definition chatSource : Chat.EventSource :=
  {| Chat.es_url := "https://chat.example/api/stream-prompt?thread_id=thread-1&prompt=hello";
     Chat.closed := false;
     Chat.assistantMessageId := "a-1";
     Chat.fullMessage := "" |}.

End Samples.

(* ================================================================== *)
(** * The chat page: what the form shows, and what its states have in common *)
(* ================================================================== *)

Module ChatView.
Import Chat.

(** A source is held in [eventSourceRef]. *)
Definition streaming (st : State) : bool :=
  match eventSourceRef st with Some _ => true | None => false end.

(** The send button is enabled: [disabled={isLoading || !input.trim()}]. *)
Definition canSubmit (st : State) : bool :=
  negb (isLoading st || negb (Js.truthy (Js.trim (input st)))).

(** The text field is enabled: [disabled={isLoading}]. *)
Definition canType (st : State) : bool := negb (isLoading st).

(** What identifies a message on the screen: its React key, its side of
    the conversation and its time. *)
Definition key (m : Message.t) : string * MessageRole * N :=
  (Message.id m, Message.role m, Message.timestamp m).

(** The refs, the flag, the timer and the counter agree with one another:
    the refs own the resources; the source in [eventSourceRef] is open;
    [isLoading] tells whether a source is held; the timer in
    [chunkTimeoutRef] is pending, was armed for the open source, and is
    neither overdue nor further away than CHUNK_TIMEOUT; the retry counter
    lies between 0 and MAX_RETRIES and is below MAX_RETRIES while a source
    is held. *)
Definition coherent (st : State) : Prop :=
  refsOwn st
  /\ (forall h, eventSourceRef st = Some h -> exists es, openSource st h es)
  /\ isLoading st = streaming st
  /\ (forall t, chunkTimeoutRef st = Some t ->
        exists tm h es,
          nth_error (timers st) t = Some tm /\ pending tm = true
          /\ openSource st h es
          /\ timerMessageId tm = assistantMessageId es
          /\ (now st < deadline tm <= now st + CHUNK_TIMEOUT)%N)
  /\ (0 <= retryCountRef st <= MAX_RETRIES)%Z
  /\ (streaming st = true -> (retryCountRef st < MAX_RETRIES)%Z).

(** Events that neither carry data nor end the stream: typing, an empty
    chunk, an error event (while retries remain, see the theorems). *)
Definition quiet (ev : Event) : bool :=
  match ev with
  | TypeInput _ => true
  | Sse _ (SseMessage data) => negb (Js.truthy data)
  | Sse _ SseError => true
  | _ => false
  end.

(** An error event arrives while retries remain. *)
Definition sparesRetries (ev : Event) (st : State) : Prop :=
  match ev with
  | Sse _ SseError => (retryCountRef st + 1 < MAX_RETRIES)%Z
  | _ => True
  end.

End ChatView.

(* ================================================================== *)
(** * Characters of an encoded URL component *)
(* ================================================================== *)

Module UrlSafe.

(** The characters [encodeURIComponent] can produce: the unreserved ones
    and the percent sign of an escape. *)
Definition safeChar (c : ascii) : bool :=
  Js.isUnreserved c || (c =? "%")%char.

Definition chars (s : string) : list ascii := list_ascii_of_string s.

(** A string that [encodeURIComponent] has nothing to escape in. *)
Definition plain (s : string) : bool := forallb Js.isUnreserved (chars s).

End UrlSafe.

(* ================================================================== *)
(** * The communities page: requests and outcomes *)
(* ================================================================== *)

Module CommunitiesView.
Import Communities.

(** The handler behind an operation of the page, if it has one. *)
Definition handlerOf (o : Op) : option (Page -> Async unit) :=
  match o with
  | SetSearchTerm _ | EmptySearchEffect => None
  | FetchAll => Some fetchAllCommunities
  | FetchJoined => Some fetchJoinedCommunities
  | Search term => Some (fun r => searchNotJoinedCommunities r term)
  | Join c => Some (fun r => joinCommunity r c)
  | Leave c => Some (fun r => leaveCommunity r c)
  end.

(** The requests an operation issues, in order. *)
Definition requestsOf (env : Env) (o : Op) (p : Page) : list Request :=
  match handlerOf o with
  | Some h => snd (run h env p)
  | None => []
  end.

(** A signed-in user and a backend that accepts every request with a
    readable body. *)
Definition accepting (env : Env) : Prop :=
  (exists tok, idTokenResult env = Some tok)
  /\ (exists u, currentUserResult env = Some (Some u))
  /\ (forall req, exists data,
        backend env req = Some {| ok := true; json := Some data |}).

(** The page with another text in the search box. *)
Definition withSearchTerm (p : Page) (term : string) : Page := setSearchTerm term p.

End CommunitiesView.

(* ================================================================== *)
(** * The communities page: the debounced search *)
(* ================================================================== *)

Module SearchBox.
Import Communities.

(** The delay given to [setTimeout] by the debounce effect. *)
Definition DEBOUNCE : N := 500.

(** The page together with the timer of the debounce effect (its deadline
    and the render [r] whose [searchTerm] and [searchNotJoinedCommunities]
    its callback closes over), the clock in milliseconds and the requests
    issued so far.  The joined list does not change under typing and
    searching, the only events followed here. *)
Record Box := {
  shown : Page;
  pendingSearch : option (N * Page);
  clock : N;
  issued : list Request
}.

(** The user edits the search box to [v].  A value equal to the present
    one causes no render.  Otherwise the clean-up of the debounce effect
    clears its timer, the recomputation effect runs, and the debounce
    effect arms a new timer unless [v] trims to the empty string. *)
Definition typeSearch (v : string) (b : Box) : Box :=
  if (v =? searchTerm (shown b))%string then b
  else
    let r := setSearchTerm v (shown b) in
    {| shown := emptySearchEffect r;
       pendingSearch :=
         if (Js.trim v =? "")%string then None
         else Some ((clock b + DEBOUNCE)%N, r);
       clock := clock b;
       issued := issued b |}.

(** [dt] ms pass without typing: a timer that is due runs its search to
    completion. *)
Definition elapse (env : Env) (dt : N) (b : Box) : Box :=
  let now := (clock b + dt)%N in
  match pendingSearch b with
  | Some (d, r) =>
      if (d <=? now)%N then
        let w := snd (searchNotJoinedCommunities r (searchTerm r) env
                        {| page := shown b; sent := [];
                           joinedUndefined := false |}) in
        {| shown := page w; pendingSearch := None; clock := now;
           issued := issued b ++ sent w |}
      else
        {| shown := shown b; pendingSearch := pendingSearch b; clock := now;
           issued := issued b |}
  | None =>
      {| shown := shown b; pendingSearch := None; clock := now;
         issued := issued b |}
  end.

(** Keystrokes, each followed by a pause. *)
Definition keystrokes (env : Env) (ks : list (string * N)) (b : Box) : Box :=
  fold_left (fun b k => elapse env (snd k) (typeSearch (fst k) b)) ks b.

(** Every value differs from the one before it, the first from [cur]. *)
Fixpoint changing (cur : string) (vs : list string) : bool :=
  match vs with
  | [] => true
  | v :: r => negb (v =? cur)%string && changing v r
  end.

(** The request of a search for [term] with token [tok]. *)
Definition searchRequest (env : Env) (tok term : string) : Request :=
  {| url := (NEXT_PUBLIC_BACKEND_URL env ++ "/api/community/search?name="
               ++ Js.encodeURIComponent term ++ "&limit=5")%string;
     method := GET;
     headers := [("Content-Type", "application/json");
                 ("Authorization", ("Bearer " ++ tok)%string)];
     body := NoBody |}.

End SearchBox.

(* ================================================================== *)
(** * The community page ([CommunityPage]) *)
(* ================================================================== *)

Module Detail.

Record Comment := {
  comment_id : string;
  comment_author : string;
  comment_content : string;
  comment_timeAgo : string;
  comment_likes : Z;
  comment_dislikes : Z
}.

Record Post := {
  post_communityId : string;
  post_id : string;
  title : string;
  content : string;
  author : string;
  timeAgo : string;
  likes : Z;
  dislikes : Z;
  image : option string;
  comments : list Comment;
  post_createdAt : string;
  post_updatedAt : string
}.

(** [interface Community] of this page ([createdAt] and [updatedAt] of a
    post, of type [any], are kept as opaque text above). *)
Record Community := {
  communityId : string;
  communityName : string;
  description : string;
  memberCount : Z;
  moderator : string;
  createdAt : Communities.Timestamp;
  communityBackgroundPhoto : string;
  communityProfilePhoto : string;
  community_posts : list Post
}.

(** The component's [useState] cells ([newPost] holds title and content),
    and the [id] of the route. *)
Record State := {
  community : option Community;
  posts : list Post;
  loading : bool;
  error : string;
  isMember : bool;
  joinedCommunityIds : list string;
  newPost : string * string;
  id : string
}.

Definition initialState (routeId : string) : State :=
  {| community := None; posts := []; loading := true; error := "";
     isMember := false; joinedCommunityIds := []; newPost := ("", "");
     id := routeId |}.

(** A parsed response body, as far as the page reads it: an array of
    communities, or an object with its fields [community] and
    [communities] ([None] is an absent field). *)
Inductive Json :=
| JArray (items : list Community)
| JObject (community_field : option Community) (communities : option (list Community)).

(** [json = None]: [res.json()] rejects. *)
Record Response := { ok : bool; json : option Json }.

(** Outcome of every awaited external call; [None] is a rejected promise. *)
Record Env := {
  NEXT_PUBLIC_BACKEND_URL : string;
  idTokenResult : option string;
  currentUserResult : option (option Communities.User);
  backend : Communities.Request -> option Response
}.

Record World := { page : State; sent : list Communities.Request }.

Definition Async (A : Type) : Type := Env -> World -> Communities.Result A * World.

Definition ret {A} (a : A) : Async A := fun _ w => (Communities.Done a, w).

Definition bind {A B} (m : Async A) (k : A -> Async B) : Async B :=
  fun env w =>
    match m env w with
    | (Communities.Done a, w') => k a env w'
    | (Communities.Thrown e, w') => (Communities.Thrown e, w')
    end.

Definition throw {A} (e : string) : Async A := fun _ w => (Communities.Thrown e, w).

Definition try_catch {A} (m : Async A) (h : string -> Async A) : Async A :=
  fun env w =>
    match m env w with
    | (Communities.Done a, w') => (Communities.Done a, w')
    | (Communities.Thrown e, w') => h e env w'
    end.

Declare Scope detail_scope.
Delimit Scope detail_scope with detail.
Notation "x <- m ;; k" := (bind m (fun x => k))
  (at level 61, m at next level, right associativity) : detail_scope.
Notation "m ;; k" := (bind m (fun _ => k))
  (at level 61, right associativity) : detail_scope.
Local Open Scope detail_scope.

Definition await {A} (error : string) (r : Env -> option A) : Async A :=
  fun env w =>
    match r env with
    | Some a => (Communities.Done a, w)
    | None => (Communities.Thrown error, w)
    end.

Definition getIdTokenNoParam : Async string :=
  await "getIdTokenNoParam rejected" idTokenResult.

Definition getCurrentUser : Async (option Communities.User) :=
  await "getCurrentUser rejected" currentUserResult.

Definition backendUrl : Async string :=
  fun env w => (Communities.Done (NEXT_PUBLIC_BACKEND_URL env), w).

Definition fetch (req : Communities.Request) : Async Response :=
  fun env w =>
    let w' := {| page := page w; sent := sent w ++ [req] |} in
    match backend env req with
    | Some res => (Communities.Done res, w')
    | None => (Communities.Thrown "fetch rejected", w')
    end.

Definition res_json (res : Response) : Async Json :=
  await "res.json() rejected" (fun _ => json res).

Definition modify (f : State -> State) : Async unit :=
  fun _ w => (Communities.Done tt, {| page := f (page w); sent := sent w |}).

Definition setCommunity (v : option Community) : Async unit :=
  modify (fun s =>
    {| community := v; posts := posts s; loading := loading s; error := error s;
       isMember := isMember s; joinedCommunityIds := joinedCommunityIds s;
       newPost := newPost s; id := id s |}).

Definition setLoading (v : bool) : Async unit :=
  modify (fun s =>
    {| community := community s; posts := posts s; loading := v; error := error s;
       isMember := isMember s; joinedCommunityIds := joinedCommunityIds s;
       newPost := newPost s; id := id s |}).

Definition setError (v : string) : Async unit :=
  modify (fun s =>
    {| community := community s; posts := posts s; loading := loading s; error := v;
       isMember := isMember s; joinedCommunityIds := joinedCommunityIds s;
       newPost := newPost s; id := id s |}).

Definition withIsMember (v : bool) (s : State) : State :=
  {| community := community s; posts := posts s; loading := loading s; error := error s;
     isMember := v; joinedCommunityIds := joinedCommunityIds s;
       newPost := newPost s; id := id s |}.

Definition setIsMember (v : bool) : Async unit := modify (withIsMember v).

(** [setJoinedCommunityIds((prev) => f(prev))]. *)
Definition setJoinedCommunityIds (f : list string -> list string) : Async unit :=
  modify (fun s =>
    {| community := community s; posts := posts s; loading := loading s; error := error s;
       isMember := isMember s; joinedCommunityIds := f (joinedCommunityIds s);
       newPost := newPost s; id := id s |}).

(** [Array.prototype.includes] on strings. *)
Definition Array_includes (l : list string) (x : string) : bool :=
  existsb (String.eqb x) l.

(** "Fetch community details". *)
Definition fetchCommunityDetails (r : State) : Async unit :=
  setLoading true ;;
  try_catch
    (idToken <- getIdTokenNoParam ;;
     base <- backendUrl ;;
     res <- fetch
       {| Communities.url := (base ++ "/api/community/" ++ id r)%string;
          Communities.method := Communities.GET;
          Communities.headers := [("Authorization", ("Bearer " ++ idToken)%string)];
          Communities.body := Communities.NoBody |} ;;
     if negb (ok res) then throw "Failed to fetch community details" else
     data <- res_json res ;;
     let resCommunity : option Community :=
       match data with JObject c _ => c | JArray _ => None end in
     setCommunity resCommunity ;;
     setLoading false)
    (fun _ =>
       setError "Failed to load community" ;;
       setLoading false).

(** "Fetch joined communities for the current user on mount"; on an object
    without [communities], [data.communities.map] throws. *)
Definition fetchJoinedCommunities (r : State) : Async unit :=
  try_catch
    (currentUser <- getCurrentUser ;;
     match currentUser with
     | None => ret tt
     | Some currentUser =>
         idToken <- getIdTokenNoParam ;;
         base <- backendUrl ;;
         res <- fetch
           {| Communities.url :=
                (base ++ "/api/community/joined/" ++ Communities.uid currentUser)%string;
              Communities.method := Communities.GET;
              Communities.headers := [("Authorization", ("Bearer " ++ idToken)%string);
                                      ("Content-Type", "application/json")];
              Communities.body := Communities.NoBody |} ;;
         if negb (ok res) then throw "Failed to fetch joined communities" else
         data <- res_json res ;;
         match data with
         | JArray items => setJoinedCommunityIds (fun _ => map communityId items)
         | JObject _ (Some l) => setJoinedCommunityIds (fun _ => map communityId l)
         | JObject _ None => throw "TypeError"
         end
     end)
    (fun _ => ret tt).

(** "Update isMember based on fetched joined community IDs and current
    community details". *)
Definition membershipEffect (s : State) : State :=
  match community s with
  | Some c => withIsMember (Array_includes (joinedCommunityIds s) (communityId c)) s
  | None => s
  end.

(** "Handle join/leave actions".  The leave branch reads the body before
    it looks at [res.ok]; the join branch does not read the body. *)
Definition handleJoinLeave (r : State) : Async unit :=
  match community r with
  | None => ret tt
  | Some community =>
      try_catch
        (user <- getCurrentUser ;;
         let userId : option string :=
           match user with Some u => Some (Communities.uid u) | None => None end in
         match userId with
         | None => ret tt
         | Some userId =>
             if negb (Js.truthy userId) then ret tt else
             let formData :=
               [("userId", userId);
                ("communityId", communityId community);
                ("communityName", communityName community)] in
             idToken <- getIdTokenNoParam ;;
             base <- backendUrl ;;
             if isMember r then
               setIsMember false ;;
               res <- fetch
                 {| Communities.url := (base ++ "/api/community/leave")%string;
                    Communities.method := Communities.POST;
                    Communities.headers :=
                      [("Authorization", ("Bearer " ++ idToken)%string)];
                    Communities.body := Communities.FormData formData |} ;;
               _ <- res_json res ;;
               if negb (ok res) then
                 setIsMember true ;; throw "Failed to leave community"
               else
                 setJoinedCommunityIds
                   (filter (fun i => negb (i =? communityId community)%string))
             else
               setIsMember true ;;
               res <- fetch
                 {| Communities.url := (base ++ "/api/community/join")%string;
                    Communities.method := Communities.POST;
                    Communities.headers :=
                      [("Authorization", ("Bearer " ++ idToken)%string)];
                    Communities.body := Communities.FormData formData |} ;;
               if negb (ok res) then
                 setIsMember false ;; throw "Failed to join community"
               else
                 setJoinedCommunityIds (fun prev => prev ++ [communityId community])
         end)
        (fun _ => ret tt)
  end.

(** Running a handler created in the render of [s], from state [s]. *)
Definition run (h : State -> Async unit) (env : Env) (s : State)
  : State * list Communities.Request :=
  let w := snd (h s env {| page := s; sent := [] |}) in
  (page w, sent w).

(** What the component renders: the two early returns, or the page with
    the label of its button and the presence of the post form. *)
Inductive View :=
| Loading
| Failure (text : string)
| Shown (c : Community) (button : string) (createPost : bool).

Definition view (s : State) : View :=
  if loading s then Loading
  else match community s with
       | Some c =>
           if Js.truthy (error s) then Failure (error s)
           else Shown c (if isMember s then "Leave Community" else "Join Community")
                      (isMember s)
       | None =>
           Failure (if Js.truthy (error s) then error s else "Community not found")
       end.

(** The flag agrees with the ids. *)
Definition memberConsistent (s : State) : Prop :=
  forall c, community s = Some c ->
    isMember s = Array_includes (joinedCommunityIds s) (communityId c).

(** A signed-in user with a non-empty uid, a token, and a backend that
    accepts every request with a readable body. *)
Definition accepting (env : Env) : Prop :=
  (exists tok, idTokenResult env = Some tok)
  /\ (exists u, currentUserResult env = Some (Some u)
                /\ Js.truthy (Communities.uid u) = true)
  /\ (forall req, exists data,
        backend env req = Some {| ok := true; json := Some data |}).

End Detail.

(* ================================================================== *)
(** * The navigation bar ([NavigationBar], [ProfileContent]) *)
(* ================================================================== *)

Module Nav.

Inductive UserType := worker | employer.

(** A tab; [isNotification] is absent ([false]) on most. *)
Record Tab := { name : string; path : string; isNotification : bool }.

Definition workerTabs : list Tab :=
  [ {| name := "Home"; path := "/"; isNotification := false |};
    {| name := "AI"; path := "/ai"; isNotification := false |};
    {| name := "Notification"; path := "/notification"; isNotification := true |};
    {| name := "Community"; path := "/community"; isNotification := false |} ].

Definition employerTabs : list Tab :=
  [ {| name := "Home"; path := "/"; isNotification := false |};
    {| name := "Post Job"; path := "/post-job"; isNotification := false |};
    {| name := "Notification"; path := "/notification"; isNotification := true |} ].

Definition tabs (userType : UserType) : list Tab :=
  match userType with worker => workerTabs | employer => employerTabs end.

(** The user of [useUser]; only the presence matters here. *)
Record UserInfo := { profilePhoto : string; emailAddress : string }.

(** The two sheets, the route the router is on, and the user of the
    context.  [router.push(p)] is taken to put the router on [p]. *)
Record State := {
  notificationOpen : bool;
  profileOpen : bool;
  pathname : string;
  user : option UserInfo
}.

Definition push (p : string) (s : State) : State :=
  {| notificationOpen := notificationOpen s; profileOpen := profileOpen s;
     pathname := p; user := user s |}.

Definition setNotificationOpen (v : bool) (s : State) : State :=
  {| notificationOpen := v; profileOpen := profileOpen s;
     pathname := pathname s; user := user s |}.

Definition setProfileOpen (v : bool) (s : State) : State :=
  {| notificationOpen := notificationOpen s; profileOpen := v;
     pathname := pathname s; user := user s |}.

Definition setUser (v : option UserInfo) (s : State) : State :=
  {| notificationOpen := notificationOpen s; profileOpen := profileOpen s;
     pathname := pathname s; user := v |}.

Definition handleTabClick (tab : Tab) (s : State) : State :=
  if isNotification tab then setNotificationOpen true s
  else push (path tab) s.

Definition handleProfileClick (s : State) : State :=
  setProfileOpen false (push "/profile" s).

(** [handleLogout]; [signedOut] tells whether [signOut()] resolved. *)
Definition handleLogout (signedOut : bool) (s : State) : State :=
  if signedOut then setUser None (setProfileOpen false (push "/auth" s))
  else s.

(** The bar is rendered unless the route is "/auth"; when it is, these are
    its tabs. *)
Definition render (userType : UserType) (s : State) : option (list Tab) :=
  if (pathname s =? "/auth")%string then None else Some (tabs userType).

(** The picture of the avatar: [user?.profilePhoto || placeholder]. *)
Definition avatar (s : State) : string :=
  match user s with
  | Some u => if Js.truthy (profilePhoto u) then profilePhoto u
              else "/placeholder.svg?height=32&width=32"
  | None => "/placeholder.svg?height=32&width=32"
  end.

End Nav.

(* ================================================================== *)
(** * More concrete data *)
(* ================================================================== *)

Module MoreSamples.

(** The chat after the first chunk of the answer to "hello". *)
Definition chatChunk : Chat.State :=
  Chat.step Samples.chatEnv (Chat.Sse 0 (Chat.SseMessage "Hel")) Samples.chatSent.

(** The timer this chunk armed. *)
Definition chunkTimer : Chat.Timer :=
  {| Chat.timerMessageId := "a-1"; Chat.deadline := 31000; Chat.pending := true |}.

(** The chat with "hi" typed and nothing sent yet. *)
Definition chatTyped : Chat.State :=
  Chat.step Samples.chatEnv (Chat.TypeInput "hi") Samples.chat0.

(** The communities page with an empty search box: the welders are
    joined, the plumbers and the drivers are not. *)
Definition pageHome : Communities.Page :=
  {| Communities.allCommunities := [Samples.plumbers; Samples.welders; Samples.drivers];
     Communities.joinedCommunities := [Samples.welders];
     Communities.notJoinedCommunities := [Samples.plumbers; Samples.drivers];
     Communities.searchTerm := "";
     Communities.loading := false |}.

(** A backend whose ok answers are objects without the fields the page
    reads. *)
Definition backendBare (_ : Communities.Request) : option Communities.Response :=
  Some {| Communities.ok := true;
          Communities.json := Some (Communities.JObject None None) |}.

Definition box0 : SearchBox.Box :=
  {| SearchBox.shown := pageHome; SearchBox.pendingSearch := None;
     SearchBox.clock := 0; SearchBox.issued := [] |}.

Definition masons : Detail.Community :=
  {| Detail.communityId := "c7"; Detail.communityName := "Masons";
     Detail.description := ""; Detail.memberCount := 3; Detail.moderator := "";
     Detail.createdAt := Samples.epoch;
     Detail.communityBackgroundPhoto := ""; Detail.communityProfilePhoto := "";
     Detail.community_posts := [] |}.

(** The community page of the masons, loaded, for a user who has joined
    another community only. *)
Definition detailState : Detail.State :=
  {| Detail.community := Some masons; Detail.posts := []; Detail.loading := false;
     Detail.error := ""; Detail.isMember := false;
     Detail.joinedCommunityIds := ["c2"]; Detail.newPost := ("", "");
     Detail.id := "c7" |}.

Definition detailEnvWith (b : Communities.Request -> option Detail.Response)
  : Detail.Env :=
  {| Detail.NEXT_PUBLIC_BACKEND_URL := "https://api.example";
     Detail.idTokenResult := Some "token";
     Detail.currentUserResult := Some (Some Samples.alice);
     Detail.backend := b |}.

Definition detailEnv : Detail.Env :=
  detailEnvWith (fun _ =>
    Some {| Detail.ok := true;
            Detail.json := Some (Detail.JObject (Some masons) None) |}).

(** A network that rejects every request. *)
Definition detailOffline : Detail.Env := detailEnvWith (fun _ => None).

Definition navState : Nav.State :=
  {| Nav.notificationOpen := false; Nav.profileOpen := true;
     Nav.pathname := "/community";
     Nav.user := Some {| Nav.profilePhoto := ""; Nav.emailAddress := "a@b.c" |} |}.

End MoreSamples.

(* ================================================================== *)
(** * Facts about the string primitives *)
(* ================================================================== *)

Module JsFacts.
Import Js.

Lemma append_assoc (a b c : string) : ((a ++ b) ++ c = a ++ (b ++ c))%string.
Proof. induction a as [|x a IH]; simpl; [reflexivity | now rewrite IH]. Qed.

Lemma append_nil_r (a : string) : (a ++ "" = a)%string.
Proof. induction a as [|x a IH]; simpl; [reflexivity | now rewrite IH]. Qed.

Lemma truthy_false_iff (s : string) : truthy s = false <-> s = "".
Proof. destruct s; simpl; split; congruence. Qed.

Lemma trimStart_allWhiteSpace (s : string) :
  allWhiteSpace s = true -> trimStart s = "".
Proof.
  induction s as [|c r IH]; simpl; [reflexivity|].
  destruct (isWhiteSpace c); simpl; [exact IH | discriminate].
Qed.

Lemma trimEnd_empty_iff (s : string) :
  trimEnd s = "" <-> allWhiteSpace s = true.
Proof.
  induction s as [|c r IH]; simpl; [tauto|].
  destruct (trimEnd r) eqn:E.
  - destruct (isWhiteSpace c); simpl.
    + split; intros _; [now apply IH | reflexivity].
    + split; discriminate.
  - split; [discriminate|].
    intros H. apply andb_prop in H. destruct H as [_ H].
    apply IH in H. discriminate.
Qed.

Lemma trimStart_empty_iff (s : string) :
  allWhiteSpace (trimStart s) = true <-> allWhiteSpace s = true.
Proof.
  induction s as [|c r IH]; simpl; [tauto|].
  destruct (isWhiteSpace c) eqn:E; simpl; [exact IH | now rewrite E].
Qed.

(** [trim] yields the empty string exactly on the strings that are empty
    or made of white space only. *)
Lemma trim_empty_iff (s : string) :
  trim s = "" <-> allWhiteSpace s = true.
Proof.
  unfold trim. rewrite trimEnd_empty_iff. apply trimStart_empty_iff.
Qed.

Lemma blank_eqb (s : string) :
  (trim s =? "")%string = allWhiteSpace s.
Proof.
  destruct (allWhiteSpace s) eqn:E.
  - apply String.eqb_eq. now apply trim_empty_iff.
  - apply String.eqb_neq. intros H. apply trim_empty_iff in H. congruence.
Qed.

Lemma startsWith_spec (s t : string) :
  startsWith s t = true <-> exists post, s = (t ++ post)%string.
Proof.
  unfold startsWith. revert s.
  induction t as [|c t IH]; intros s.
  - destruct s; simpl; split; eauto.
  - destruct s as [|d s]; simpl.
    + split; [discriminate | intros [post H]; discriminate].
    + destruct (ascii_dec c d) as [->|N].
      * rewrite IH. split; intros [post H]; exists post; congruence.
      * split; [discriminate | intros [post H]; congruence].
Qed.

(** [s.includes(t)] holds exactly when [t] occurs in [s]. *)
Lemma includes_spec (s t : string) :
  includes s t = true <-> exists pre post, s = (pre ++ t ++ post)%string.
Proof.
  induction s as [|c r IH]; cbn [includes].
  - rewrite orb_false_r, startsWith_spec. split.
    + intros [post H]. exists "", post. exact H.
    + intros [pre [post H]]. destruct pre; [eauto | discriminate].
  - rewrite orb_true_iff, startsWith_spec, IH. split.
    + intros [[post H] | [pre [post H]]].
      * exists "", post. exact H.
      * exists (String c pre), post. simpl. now rewrite H.
    + intros [pre [post H]]. destruct pre as [|d pre]; simpl in H.
      * left. eauto.
      * right. exists pre, post. congruence.
Qed.

Lemma toLowerCase_app (a b : string) :
  toLowerCase (a ++ b) = (toLowerCase a ++ toLowerCase b)%string.
Proof. induction a as [|x a IH]; simpl; [reflexivity | now rewrite IH]. Qed.

Lemma toLowerCase_split (s a b : string) :
  toLowerCase s = (a ++ b)%string ->
  exists s1 s2, s = (s1 ++ s2)%string /\ toLowerCase s1 = a /\ toLowerCase s2 = b.
Proof.
  revert s. induction a as [|x a IH]; intros s H; simpl in H.
  - exists "", s. auto.
  - destruct s as [|c s]; simpl in H; [discriminate|].
    injection H as Hc Hs. destruct (IH _ Hs) as [s1 [s2 [E [H1 H2]]]].
    exists (String c s1), s2. simpl. subst. auto.
Qed.

(** The test the page uses is case-insensitive containment. *)
Lemma includes_lower_spec (name term : string) :
  includes (toLowerCase name) (toLowerCase term) = true
  <-> containsIgnoringCase name term.
Proof.
  rewrite includes_spec. unfold containsIgnoringCase, sameIgnoringCase. split.
  - intros [pre [post H]].
    apply toLowerCase_split in H. destruct H as [s1 [s2 [E [H1 H2]]]].
    apply toLowerCase_split in H2. destruct H2 as [s3 [s4 [E2 [H3 H4]]]].
    exists s1, s3, s4. subst. auto.
  - intros [pre [mid [post [E H]]]].
    exists (toLowerCase pre), (toLowerCase post).
    subst. now rewrite !toLowerCase_app, H.
Qed.

Example trim_ex : trim ("  a b " ++ LF) = "a b".
Proof. reflexivity. Qed.

Example lower_ex : toLowerCase "Plumbers & CO" = "plumbers & co".
Proof. reflexivity. Qed.

Example includes_ex : includes "say [Error: x]" "[Error:" = true.
Proof. reflexivity. Qed.

Example encode_ex : encodeURIComponent "a b&c/d" = "a%20b%26c%2Fd".
Proof. reflexivity. Qed.

End JsFacts.

(* ================================================================== *)
(** * Facts about the UTF-16 strings *)
(* ================================================================== *)

Module Js16Facts.

Lemma append_empty (s : string) : (s ++ "")%string = s.
Proof. induction s as [|c r IH]; cbn; [reflexivity | now rewrite IH]. Qed.

(** On a code unit below 256 the two encoders escape alike. *)
Lemma encodeURIComponent_code (c : ascii) (rest : Js16.str) :
  Js16.encodeURIComponent (Js.code c :: rest)
  = option_map (append (Js.encodeURIComponent (String c EmptyString)))
               (Js16.encodeURIComponent rest).
Proof. destruct c as [[] [] [] [] [] [] [] []]; reflexivity. Qed.

(** On the strings of the range 0..255 [Js16.encodeURIComponent] never
    throws and gives what [Js.encodeURIComponent] gives. *)
Lemma encodeURIComponent_ofLatin1 (s : string) :
  Js16.encodeURIComponent (Js16.ofLatin1 s) = Some (Js.encodeURIComponent s).
Proof.
  induction s as [|c r IH]; [reflexivity|].
  change (Js16.ofLatin1 (String c r)) with (Js.code c :: Js16.ofLatin1 r).
  rewrite encodeURIComponent_code, IH.
  cbn [option_map Js.encodeURIComponent]. now rewrite append_empty.
Qed.

(** The two notions of white space agree below 256. *)
Lemma isWhiteSpace_code (c : ascii) : Js16.isWhiteSpace (Js.code c) = Js.isWhiteSpace c.
Proof. destruct c as [[] [] [] [] [] [] [] []]; reflexivity. Qed.

Lemma blank_ofLatin1 (s : string) : Js16.blank (Js16.ofLatin1 s) = Js.allWhiteSpace s.
Proof.
  induction s as [|c r IH]; [reflexivity|].
  change (Js16.ofLatin1 (String c r)) with (Js.code c :: Js16.ofLatin1 r).
  cbn [Js16.blank forallb Js.allWhiteSpace]. fold (Js16.blank (Js16.ofLatin1 r)).
  now rewrite isWhiteSpace_code, IH.
Qed.

(** A surrogate pair is escaped as the four UTF-8 octets of its code
    point; a surrogate without its other half is refused, wherever it
    stands. *)
Example encodeURIComponent_pair :
  Js16.encodeURIComponent [104; 55357; 56832; 33]%N = Some "h%F0%9F%98%80!".
Proof. reflexivity. Qed.

Example encodeURIComponent_three_octets :
  Js16.encodeURIComponent [8364]%N = Some "%E2%82%AC".
Proof. reflexivity. Qed.

Lemma encodeURIComponent_lone_surrogate (pre post : string) (c : N) :
  Js16.isLeadSurrogate c = true ->
  match Js16.ofLatin1 post with
  | d :: _ => Js16.isTrailSurrogate d = false
  | [] => True
  end ->
  Js16.encodeURIComponent (Js16.ofLatin1 pre ++ c :: Js16.ofLatin1 post) = None.
Proof.
  intros L T.
  assert (H : Js16.encodeURIComponent (c :: Js16.ofLatin1 post) = None).
  { cbn [Js16.encodeURIComponent].
    assert (U : Js16.isUnreserved c = false).
    { unfold Js16.isUnreserved, Js16.isLeadSurrogate in *.
      apply andb_prop in L. destruct L as [L _]. apply N.leb_le in L.
      destruct (c <? 128)%N eqn:E; [|reflexivity].
      apply N.ltb_lt in E. lia. }
    assert (V : Js16.isTrailSurrogate c = false).
    { unfold Js16.isTrailSurrogate, Js16.isLeadSurrogate in *.
      apply andb_prop in L. destruct L as [_ L]. apply N.leb_le in L.
      destruct (56320 <=? c)%N eqn:E; [|reflexivity].
      apply N.leb_le in E. lia. }
    rewrite U, V, L. destruct (Js16.ofLatin1 post) as [|d r]; [reflexivity|].
    now rewrite T. }
  induction pre as [|a pre IH]; [exact H|].
  change (Js16.ofLatin1 (String a pre) ++ c :: Js16.ofLatin1 post)
    with (Js.code a :: (Js16.ofLatin1 pre ++ c :: Js16.ofLatin1 post)).
  now rewrite encodeURIComponent_code, IH.
Qed.

End Js16Facts.

(* ================================================================== *)
(** * The communities page: joining, leaving, searching *)
(* ================================================================== *)

Module CommunitiesFacts.
Import Communities.

Lemma Set_has_In (s : JsSet) (x : string) : Set_has s x = true <-> In x s.
Proof.
  unfold Set_has. rewrite existsb_exists. split.
  - intros [y [Hy E]]. apply String.eqb_eq in E. now subst.
  - intros H. exists x. split; [exact H | apply String.eqb_refl].
Qed.

Lemma in_ids (c : Community) (l : list Community) : In c l -> In (communityId c) (ids l).
Proof. intros H. unfold ids. apply in_map_iff. eauto. Qed.

Lemma ids_app (l1 l2 : list Community) : ids (l1 ++ l2) = ids l1 ++ ids l2.
Proof. apply map_app. Qed.

(** Removing an id from a list: the id is gone, the other ids stay. *)
Lemma ids_remove (c : Community) (l : list Community) (i : string) :
  In i (ids (filter (fun x => negb (communityId x =? communityId c)%string) l))
  <-> In i (ids l) /\ i <> communityId c.
Proof.
  unfold ids. rewrite !in_map_iff. split.
  - intros [x [E H]]. apply filter_In in H. destruct H as [H N].
    apply negb_true_iff, String.eqb_neq in N. subst i. eauto.
  - intros [[x [E H]] N]. exists x. split; [exact E|].
    apply filter_In. split; [exact H|].
    apply negb_true_iff, String.eqb_neq. congruence.
Qed.

(** Keeping what is not joined: no kept id is a joined id. *)
Lemma ids_notJoined (joined l : list Community) (i : string) :
  In i (ids (filter (fun c => negb (Set_has (map communityId joined) (communityId c))) l)) ->
  ~ In i (ids joined).
Proof.
  unfold ids. rewrite in_map_iff. intros [x [E H]] Hin.
  apply filter_In in H. destruct H as [_ N].
  apply negb_true_iff in N. subst i.
  apply Set_has_In in Hin. congruence.
Qed.

Ltac run_handler :=
  unfold run, complete, storesUndefined, landing, runFrom,
    joinCommunity, leaveCommunity,
    searchNotJoinedCommunities, searchNotJoinedCommunities16,
    searchNotJoinedCommunitiesWith,
    fetchAllCommunities, fetchJoinedCommunities, setAllCommunities,
    try_catch, try_finally, bind, getIdTokenNoParam, getCurrentUser,
    backendUrl, await, fetch, res_json, throw, ret,
    setJoinedCommunitiesTo, setJoinedCommunities, setNotJoinedCommunities,
    setLoading, modify;
  cbn [fst snd page sent joinedUndefined].

(** C5.  For an authenticated user (token and current user both obtained),
    [joinCommunity c] issues exactly one request, a POST to
    [/api/community/join] whose form carries userId, communityId and
    communityName.  If the response is ok (and its body is read), [c] is
    appended to the joined list and every entry with [c]'s communityId is
    removed from the not-joined list; on a non-ok response or a thrown
    error (rejected fetch, unreadable body) both lists are unchanged. *)
Theorem joinCommunity_spec (env : Env) (p : Page) (c : Community)
    (tok : string) (u : User) :
  idTokenResult env = Some tok ->
  currentUserResult env = Some (Some u) ->
  let out := run (fun r => joinCommunity r c) env p in
  exists req,
    snd out = [req]
    /\ method req = POST
    /\ url req = (NEXT_PUBLIC_BACKEND_URL env ++ "/api/community/join")%string
    /\ body req = FormData [("userId", uid u);
                            ("communityId", communityId c);
                            ("communityName", communityName c)]
    /\ match backend env req with
       | Some {| ok := true; json := Some _ |} =>
           joinedCommunities (fst out) = joinedCommunities p ++ [c]
           /\ notJoinedCommunities (fst out) =
                filter (fun x => negb (communityId x =? communityId c)%string)
                       (notJoinedCommunities p)
           /\ (forall i, In i (ids (notJoinedCommunities (fst out)))
                         <-> In i (ids (notJoinedCommunities p)) /\ i <> communityId c)
       | _ =>
           joinedCommunities (fst out) = joinedCommunities p
           /\ notJoinedCommunities (fst out) = notJoinedCommunities p
       end.
Proof.
  intros Htok Huser. run_handler. rewrite Htok, Huser.
  eexists. split.
  - destruct (backend env _) as [[[] [j|]]|]; cbn; reflexivity.
  - repeat split; try reflexivity.
    destruct (backend env _) as [[[] [j|]]|]; cbn; try (split; reflexivity).
    split; [reflexivity | split; [reflexivity | intros i; apply ids_remove]].
Qed.

(** Without an authenticated user (token or user lookup rejected, or
    nobody signed in) neither handler issues a request or changes the
    page. *)
Lemma joinCommunity_unauthenticated (env : Env) (p : Page) (c : Community) :
  idTokenResult env = None \/ currentUserResult env = None
  \/ currentUserResult env = Some None ->
  run (fun r => joinCommunity r c) env p = (p, []).
Proof.
  intros H. run_handler. destruct p.
  destruct (idTokenResult env), (currentUserResult env) as [[?|]|];
    cbn; try reflexivity; intuition congruence.
Qed.

Lemma leaveCommunity_unauthenticated (env : Env) (p : Page) (c : Community) :
  idTokenResult env = None \/ currentUserResult env = None
  \/ currentUserResult env = Some None ->
  run (fun r => leaveCommunity r c) env p = (p, []).
Proof.
  intros H. run_handler. destruct p.
  destruct (idTokenResult env), (currentUserResult env) as [[?|]|];
    cbn; try reflexivity; intuition congruence.
Qed.


(** [run] is [runFrom] for a handler that lands on the state of its own
    render. *)
Lemma run_runFrom (h : Page -> Async unit) (env : Env) (p : Page) :
  run h env p = (page (runFrom h env p p), sent (runFrom h env p p)).
Proof. reflexivity. Qed.

(** The handler on any term agrees, on the terms of the range 0..255,
    with the handler on those terms. *)
Lemma searchNotJoinedCommunities16_ofLatin1 (r : Page) (term : string) :
  searchNotJoinedCommunities16 r (Js16.ofLatin1 term) = searchNotJoinedCommunities r term.
Proof.
  unfold searchNotJoinedCommunities16, searchNotJoinedCommunities,
    searchNotJoinedCommunitiesWith.
  now rewrite Js16Facts.encodeURIComponent_ofLatin1.
Qed.

(** Filtering by the set of joined ids keeps exactly the communities whose
    id is not an id of the joined list. *)
Lemma filter_notJoined (joined l : list Community) :
  filter (fun c => negb (Set_has (map communityId joined) (communityId c))) l
  = filter (fun c => if in_dec string_dec (communityId c) (ids joined)
                     then false else true) l.
Proof.
  apply filter_ext. intros c.
  destruct (in_dec string_dec _ _) as [H|H].
  - apply negb_false_iff, Set_has_In. exact H.
  - apply negb_true_iff. destruct (Set_has _ _) eqn:E; [|reflexivity].
    apply Set_has_In in E. contradiction.
Qed.

(** C7, as the code has it.  [searchNotJoinedCommunities term], created in
    the render [r] and completing on the state [p], for any string [term]:
    once the token is obtained and if [encodeURIComponent] accepts the term
    (it has no lone surrogate), the handler issues exactly one request, a
    GET of [/api/community/search] with the encoded term as [name] and
    [limit=5].  On an ok response whose body is read, the not-joined list
    becomes exactly the communities of the body's [results] (of its
    [communities] when it has no [results], none when it has neither) whose
    communityId is not a communityId of the joined list of [r], in the
    order returned; on a non-ok response or a thrown error it becomes
    empty.  When the token is refused or the term has a lone surrogate, no
    request is issued and the not-joined list becomes empty.  The joined
    list is never touched. *)
Theorem searchNotJoinedCommunities_spec (env : Env) (r p : Page) (term : Js16.str) :
  let w := runFrom (fun r => searchNotJoinedCommunities16 r term) env r p in
  let notJoinedOf :=
    filter (fun c => if in_dec string_dec (communityId c) (ids (joinedCommunities r))
                     then false else true) in
  joinedCommunities (page w) = joinedCommunities p
  /\ match idTokenResult env, Js16.encodeURIComponent term with
     | Some tok, Some name =>
         exists req,
           sent w = [req]
           /\ method req = GET
           /\ url req = (NEXT_PUBLIC_BACKEND_URL env ++ "/api/community/search?name="
                           ++ name ++ "&limit=5")%string
           /\ match backend env req with
              | Some {| ok := true; json := Some (JObject (Some l) _) |} =>
                  notJoinedCommunities (page w) = notJoinedOf l
              | Some {| ok := true; json := Some (JObject None (Some l)) |} =>
                  notJoinedCommunities (page w) = notJoinedOf l
              | Some {| ok := true; json := Some (JObject None None) |} =>
                  notJoinedCommunities (page w) = []
              | Some {| ok := true; json := Some (JArray _) |} =>
                  notJoinedCommunities (page w) = []
              | _ => notJoinedCommunities (page w) = []
              end
     | _, _ => sent w = [] /\ notJoinedCommunities (page w) = []
     end.
Proof.
  run_handler. destruct (idTokenResult env) as [tok|]; cbn;
    [destruct (Js16.encodeURIComponent term) as [name|]; cbn|].
  - split.
    + destruct (backend env _) as [[[] [j|]]|]; cbn; reflexivity.
    + eexists. split.
      * destruct (backend env _) as [[[] [j|]]|]; cbn; reflexivity.
      * repeat split; try reflexivity.
        destruct (backend env _) as [[[] [[items|[l|] [l'|]]|]]|]; cbn;
          try reflexivity; apply filter_notJoined.
  - repeat split; reflexivity.
  - destruct (Js16.encodeURIComponent term); repeat split; reflexivity.
Qed.

(** C7 as stated fails: a signed-in user, a backend that accepts every
    request, and a non-blank term made of a lone surrogate; the search
    issues no request. *)
Lemma search_lone_surrogate :
  let term : Js16.str := [55296%N] in
  let w := runFrom (fun r => searchNotJoinedCommunities16 r term)
                   Samples.env Samples.page Samples.page in
  Js16.blank term = false
  /\ idTokenResult Samples.env = Some "token"
  /\ (forall req, exists data,
        backend Samples.env req = Some {| ok := true; json := Some data |})
  /\ sent w = []
  /\ notJoinedCommunities (page w) = [].
Proof.
  repeat split; try reflexivity.
  intros req. eexists. reflexivity.
Qed.

Lemma disjoint_unchanged (p q : Page) :
  joinedCommunities q = joinedCommunities p ->
  notJoinedCommunities q = notJoinedCommunities p ->
  disjointLists p -> disjointLists q.
Proof. unfold disjointLists. intros -> ->. auto. Qed.

Lemma emptySearchEffect_disjoint (p : Page) :
  Js.trim (searchTerm p) = "" -> disjointLists (emptySearchEffect p).
Proof.
  intros B. unfold emptySearchEffect. rewrite B. cbn.
  intros i Hj Hn. cbn in *. apply ids_notJoined in Hn. contradiction.
Qed.

(** A search leaves the joined list alone and no id of the closure's
    joined list in the not-joined list. *)
Lemma search_closure (env : Env) (r p : Page) (term : string) :
  let p' := complete env (Search term) r p in
  joinedCommunities p' = joinedCommunities p
  /\ forall i, In i (ids (notJoinedCommunities p')) -> ~ In i (ids (joinedCommunities r)).
Proof.
  run_handler. destruct (idTokenResult env) as [tok|]; cbn.
  - destruct (backend env _) as [[[] [j|]]|]; cbn; split; try reflexivity;
      intros i Hn; cbn in *; try contradiction.
    now apply ids_notJoined in Hn.
  - split; [reflexivity | intros i []].
Qed.

Lemma search_disjoint (env : Env) (r p : Page) (term : string) :
  incl (ids (joinedCommunities p)) (ids (joinedCommunities r)) ->
  disjointLists (complete env (Search term) r p).
Proof.
  intros I. destruct (search_closure env r p term) as [J N].
  intros i Hj Hn. rewrite J in Hj. exact (N i Hn (I i Hj)).
Qed.

Lemma join_disjoint (env : Env) (r p : Page) (c : Community) :
  disjointLists p -> disjointLists (complete env (Join c) r p).
Proof.
  intros D. run_handler.
  destruct (idTokenResult env) as [tok|]; cbn; [|exact D].
  destruct (currentUserResult env) as [[u|]|]; cbn; try exact D.
  destruct (backend env _) as [[[] [j|]]|]; cbn; try exact D.
  intros i Hj Hn. cbn in *.
  apply ids_remove in Hn. destruct Hn as [Hn N].
  rewrite ids_app in Hj. apply in_app_or in Hj. destruct Hj as [Hj | [E | []]].
  - exact (D i Hj Hn).
  - congruence.
Qed.

Lemma leave_disjoint (env : Env) (r p : Page) (c : Community) :
  disjointLists p -> disjointLists (complete env (Leave c) r p).
Proof.
  intros D. run_handler.
  destruct (idTokenResult env) as [tok|]; cbn; [|exact D].
  destruct (currentUserResult env) as [[u|]|]; cbn; try exact D.
  destruct (backend env _) as [[[] [j|]]|]; cbn; try exact D.
  destruct (_ || _); cbn; intros i Hj Hn; cbn in *;
    apply ids_remove in Hj; destruct Hj as [Hj N].
  - rewrite ids_app in Hn. apply in_app_or in Hn. destruct Hn as [Hn | [E | []]].
    + exact (D i Hj Hn).
    + congruence.
  - exact (D i Hj Hn).
Qed.

Lemma keepsLists_disjoint (env : Env) (o : Op) (r p : Page) :
  keepsLists o r p -> disjointLists p -> disjointLists (complete env o r p).
Proof.
  intros K D. destruct o as [v| | | |term|c|c]; cbn in K.
  - exact D.
  - revert D. apply disjoint_unchanged; run_handler;
      destruct (idTokenResult env) as [tok|]; cbn; try reflexivity;
      destruct (backend env _) as [[[] [j|]]|]; reflexivity.
  - contradiction.
  - unfold complete, landing. cbn [page]. unfold emptySearchEffect.
    destruct (Js.trim (searchTerm p) =? "")%string eqn:B; [|exact D].
    apply String.eqb_eq in B. pose proof (emptySearchEffect_disjoint p B) as E.
    unfold emptySearchEffect in E. rewrite B in E. exact E.
  - now apply search_disjoint.
  - now apply join_disjoint.
  - now apply leave_disjoint.
Qed.

(** C8, as the code has it.  Every handler is created in a render [r] and
    completes on a state [p] that other handlers may have changed in the
    meantime.  The empty-search recomputation leaves no communityId in
    both lists.  A search leaves the joined list alone and puts no
    communityId of the joined list of [r] in the not-joined list: the
    lists are disjoint after it when every joined id of [p] was already
    joined in [r].  A join and a leave keep the lists disjoint when they
    were disjoint before, whatever their closure.  So does every operation
    other than the completion of the joined-list fetch and a search
    overtaken by a change of the joined list, whatever the backend
    answers. *)
Theorem lists_disjoint_preserved (env : Env) :
  (forall p, Js.trim (searchTerm p) = "" -> disjointLists (emptySearchEffect p))
  /\ (forall r p term,
        let p' := complete env (Search term) r p in
        joinedCommunities p' = joinedCommunities p
        /\ forall i, In i (ids (notJoinedCommunities p')) ->
                     ~ In i (ids (joinedCommunities r)))
  /\ (forall r p term,
        incl (ids (joinedCommunities p)) (ids (joinedCommunities r)) ->
        disjointLists (complete env (Search term) r p))
  /\ (forall r p c, disjointLists p -> disjointLists (complete env (Join c) r p))
  /\ (forall r p c, disjointLists p -> disjointLists (complete env (Leave c) r p))
  /\ (forall o r p, keepsLists o r p -> disjointLists p ->
        disjointLists (complete env o r p))
  /\ disjointLists initialPage.
Proof.
  repeat match goal with |- _ /\ _ => split end.
  - apply emptySearchEffect_disjoint.
  - intros r p term. apply search_closure.
  - intros r p term. apply search_disjoint.
  - intros r p c. apply join_disjoint.
  - intros r p c. apply leave_disjoint.
  - intros o r p. apply keepsLists_disjoint.
  - intros i [].
Qed.

(** The page while "er" is searched for.  The render [r] that follows the
    keystrokes arms the debounce timer; the catalogue arrives; the search
    completes, filtered by the joined list of [r], which is empty; then the
    fetch of the joined list, started at mount, completes. *)
Lemma overlap_before_join :
  let env := Samples.env in
  let r := setSearchTerm "er" initialPage in
  let p1 := complete env FetchAll initialPage r in
  let p2 := complete env (Search "er") r p1 in
  let p3 := emptySearchEffect (complete env FetchJoined initialPage p2) in
  disjointLists p2
  /\ storesUndefined env FetchJoined initialPage p2 = false
  /\ ids (joinedCommunities p3) = ["c2"]
  /\ ids (notJoinedCommunities p3) = ["c1"; "c2"].
Proof.
  repeat split; try reflexivity.
  intros i [].
Qed.

(** C8 as stated fails: the plumbers are joined before the debounced search
    runs again, and the successful join completes with a communityId in
    both lists. *)
Lemma overlap_after_join :
  let env := Samples.env in
  let r := setSearchTerm "er" initialPage in
  let p1 := complete env FetchAll initialPage r in
  let p2 := complete env (Search "er") r p1 in
  let p3 := emptySearchEffect (complete env FetchJoined initialPage p2) in
  let p4 := emptySearchEffect (complete env (Join Samples.plumbers) p3 p3) in
  storesUndefined env FetchJoined initialPage p2 = false
  /\ joinedCommunities p4 = joinedCommunities p3 ++ [Samples.plumbers]
  /\ ~ disjointLists p4.
Proof.
  split; [reflexivity|]. split; [reflexivity|].
  intros D. apply (D "c2"); cbn; auto.
Qed.

(** A successful search can itself complete with a communityId in both
    lists: the joined list arrives while the search, started in a render
    [r] that had no joined community, is in flight. *)
Lemma overlap_after_search :
  let env := Samples.env in
  let r := setSearchTerm "er" (complete env FetchAll initialPage initialPage) in
  let p1 := emptySearchEffect (complete env FetchJoined initialPage r) in
  let p2 := complete env (Search "er") r p1 in
  disjointLists r
  /\ ids (joinedCommunities p2) = ["c2"]
  /\ ids (notJoinedCommunities p2) = ["c1"; "c2"]
  /\ ~ disjointLists p2.
Proof.
  split; [intros i []|]. split; [reflexivity|]. split; [reflexivity|].
  intros D. apply (D "c2"); cbn; auto.
Qed.

(** ** The handlers on concrete data *)

Example join_plumbers :
  let out := run (fun r => joinCommunity r Samples.plumbers) Samples.env Samples.page in
  map communityName (joinedCommunities (fst out)) = ["Welders"; "Plumbers United"]
  /\ map communityName (notJoinedCommunities (fst out)) = ["Truck Drivers"]
  /\ map url (snd out) = ["https://api.example/api/community/join"].
Proof. repeat split; reflexivity. Qed.

Example join_refused :
  fst (run (fun r => joinCommunity r Samples.plumbers)
           (Samples.envWith Samples.backendRefuses) Samples.page) = Samples.page.
Proof. reflexivity. Qed.

Example leave_welders_not_matching_search :
  let out := run (fun r => leaveCommunity r Samples.welders) Samples.env Samples.page in
  joinedCommunities (fst out) = []
  /\ map communityName (notJoinedCommunities (fst out)) = ["Plumbers United"; "Truck Drivers"].
Proof. repeat split; reflexivity. Qed.

Example search_plumb :
  let out := run (fun r => searchNotJoinedCommunities r "plumb & co")
                 Samples.env Samples.page in
  map communityName (notJoinedCommunities (fst out)) = ["Plumbers United"]
  /\ map url (snd out) =
       ["https://api.example/api/community/search?name=plumb%20%26%20co&limit=5"]
  /\ loading (fst out) = false.
Proof. repeat split; reflexivity. Qed.

Example search_refused :
  notJoinedCommunities
    (fst (run (fun r => searchNotJoinedCommunities r "plumb")
              (Samples.envWith Samples.backendRefuses) Samples.page)) = [].
Proof. reflexivity. Qed.

Lemma joinCommunity_spec_witness :
  idTokenResult Samples.env = Some "token"
  /\ currentUserResult Samples.env = Some (Some Samples.alice)
  /\ exists req,
       snd (run (fun r => joinCommunity r Samples.plumbers) Samples.env Samples.page) = [req]
       /\ method req = POST.
Proof.
  split; [reflexivity|]. split; [reflexivity|].
  destruct (joinCommunity_spec Samples.env Samples.page Samples.plumbers
              "token" Samples.alice eq_refl eq_refl) as [req [H1 [H2 _]]].
  exists req. split; assumption.
Defined.


Lemma searchNotJoinedCommunities_spec_witness :
  let w := runFrom (fun r => searchNotJoinedCommunities16 r (Js16.ofLatin1 "plumb & co"))
                   Samples.env Samples.page initialPage in
  joinedCommunities (page w) = []
  /\ exists req,
       sent w = [req]
       /\ url req = "https://api.example/api/community/search?name=plumb%20%26%20co&limit=5"
       /\ notJoinedCommunities (page w) = [Samples.plumbers].
Proof.
  pose proof (searchNotJoinedCommunities_spec Samples.env Samples.page initialPage
                (Js16.ofLatin1 "plumb & co")) as H.
  cbv zeta in H. destruct H as [J [req [S [_ [U N]]]]].
  split; [exact J|]. exists req. split; [exact S|]. split; [exact U|].
  vm_compute in S. injection S as E. subst req. exact N.
Defined.

Lemma lists_disjoint_preserved_witness :
  let env := Samples.env in
  let r := setSearchTerm "plumb" (complete env FetchAll initialPage initialPage) in
  let p1 := complete env (Search "plumb") r r in
  let p2 := complete env (Join Samples.plumbers) p1 p1 in
  let p3 := complete env (Leave Samples.plumbers) p2 (setSearchTerm "" p2) in
  disjointLists initialPage
  /\ keepsLists FetchAll initialPage initialPage
  /\ keepsLists (Search "plumb") r r
  /\ disjointLists p1
  /\ disjointLists p2
  /\ disjointLists p3
  /\ ids (joinedCommunities p2) = ["c1"]
  /\ ids (notJoinedCommunities p3) = ["c2"; "c1"].
Proof.
  intros env r p1 p2 p3.
  destruct (lists_disjoint_preserved env) as [_ [_ [_ [_ [_ [K D]]]]]].
  assert (K1 : keepsLists (Search "plumb") r r) by apply incl_refl.
  pose proof (K FetchAll initialPage initialPage I D) as D0.
  pose proof (K (SetSearchTerm "plumb") initialPage _ I D0) as Dr.
  pose proof (K (Search "plumb") r r K1 Dr) as D1.
  pose proof (K (Join Samples.plumbers) p1 p1 I D1) as D2.
  pose proof (K (SetSearchTerm "") p2 p2 I D2) as D2'.
  pose proof (K (Leave Samples.plumbers) p2 (setSearchTerm "" p2) I D2') as D3.
  split; [exact D|]. split; [exact I|]. split; [exact K1|].
  split; [exact D1|]. split; [exact D2|]. split; [exact D3|].
  split; reflexivity.
Defined.

End CommunitiesFacts.

(* ================================================================== *)
(** * The chat page: stream, timer and retries *)
(* ================================================================== *)

Module ChatFacts.
Import Chat.

(** ** Lists updated at an index *)

Lemma updateAt_length {A} (f : A -> A) (l : list A) (n : nat) :
  List.length (updateAt n f l) = List.length l.
Proof.
  revert n. induction l as [|x l IH]; intros [|n]; cbn; auto.
Qed.

Lemma nth_error_updateAt_same {A} (f : A -> A) (l : list A) (n : nat) :
  nth_error (updateAt n f l) n = option_map f (nth_error l n).
Proof.
  revert n. induction l as [|x l IH]; intros [|n]; cbn; auto.
Qed.

Lemma nth_error_updateAt_other {A} (f : A -> A) (l : list A) (n m : nat) :
  n <> m -> nth_error (updateAt n f l) m = nth_error l m.
Proof.
  revert n m. induction l as [|x l IH]; intros [|n] [|m] N; cbn; auto;
    congruence.
Qed.

Lemma nth_error_updateAt {A} (f : A -> A) (l : list A) (n m : nat) (y : A) :
  nth_error (updateAt n f l) m = Some y ->
  exists x, nth_error l m = Some x /\ (y = x \/ (n = m /\ y = f x)).
Proof.
  destruct (Nat.eq_dec n m) as [->|N].
  - rewrite nth_error_updateAt_same. destruct (nth_error l m) as [x|]; cbn; [|discriminate].
    intros [= <-]. eauto.
  - rewrite nth_error_updateAt_other by exact N. eauto.
Qed.

Lemma nth_error_snoc {A} (l : list A) (a : A) (m : nat) (y : A) :
  nth_error (l ++ [a]) m = Some y ->
  nth_error l m = Some y \/ (m = List.length l /\ y = a).
Proof.
  intros H. destruct (Nat.lt_ge_cases m (List.length l)) as [L|G].
  - rewrite nth_error_app1 in H by exact L. auto.
  - rewrite nth_error_app2 in H by exact G.
    destruct (m - List.length l) as [|k] eqn:E; cbn in H.
    + injection H as <-. right. split; [lia | reflexivity].
    + destruct k; discriminate.
Qed.

Lemma nth_error_snoc_last {A} (l : list A) (a : A) :
  nth_error (l ++ [a]) (List.length l) = Some a.
Proof. rewrite nth_error_app2, Nat.sub_diag by lia. reflexivity. Qed.

(** ** Tearing the stream down *)

Lemma cleanupStream_refs (st : State) :
  eventSourceRef (cleanupStream st) = None
  /\ chunkTimeoutRef (cleanupStream st) = None
  /\ isLoading (cleanupStream st) = false.
Proof.
  unfold cleanupStream.
  destruct (eventSourceRef st) eqn:E1, (chunkTimeoutRef st) eqn:E2; cbn;
    rewrite ?E1, ?E2; cbn; rewrite ?E1, ?E2; auto.
Qed.

Lemma cleanupStream_frame (st : State) :
  messages (cleanupStream st) = messages st
  /\ input (cleanupStream st) = input st
  /\ retryCountRef (cleanupStream st) = retryCountRef st
  /\ thread_id (cleanupStream st) = thread_id st
  /\ now (cleanupStream st) = now st.
Proof.
  unfold cleanupStream.
  destruct (eventSourceRef st) eqn:E1, (chunkTimeoutRef st) eqn:E2; cbn;
    rewrite ?E1, ?E2; cbn; rewrite ?E1, ?E2; auto.
Qed.

Lemma cleanupStream_sources (st : State) :
  eventSources (cleanupStream st) =
    match eventSourceRef st with
    | Some h => eventSources (close h st)
    | None => eventSources st
    end.
Proof.
  unfold cleanupStream.
  destruct (eventSourceRef st) eqn:E1, (chunkTimeoutRef st) eqn:E2; cbn;
    rewrite ?E1, ?E2; cbn; rewrite ?E1, ?E2; auto.
Qed.

Lemma cleanupStream_timers (st : State) :
  timers (cleanupStream st) =
    match chunkTimeoutRef st with
    | Some t => updateAt t unpend (timers st)
    | None => timers st
    end.
Proof.
  unfold cleanupStream.
  destruct (eventSourceRef st) eqn:E1, (chunkTimeoutRef st) eqn:E2; cbn;
    rewrite ?E1, ?E2; cbn; rewrite ?E1, ?E2; auto.
Qed.

(** Once the refs own the resources, [cleanupStream] releases them all. *)
Lemma cleanupStream_tornDown (st : State) :
  refsOwn st -> tornDown (cleanupStream st).
Proof.
  intros [Hs Ht]. destruct (cleanupStream_refs st) as [R1 [R2 R3]].
  repeat split; auto.
  - intros h es H. rewrite cleanupStream_sources in H.
    destruct (eventSourceRef st) as [h0|] eqn:E.
    + cbn in H.
      destruct (nth_error_updateAt _ _ _ _ _ H) as [x [Hx [-> | [-> ->]]]];
        [|reflexivity].
      destruct (closed x) eqn:C; [reflexivity|].
      specialize (Hs _ _ Hx C). injection Hs as <-.
      rewrite nth_error_updateAt_same, Hx in H. cbn in H.
      injection H as H. rewrite <- H in C. discriminate C.
    + destruct (closed es) eqn:C; [reflexivity|].
      specialize (Hs _ _ H C). discriminate.
  - intros t tm H. rewrite cleanupStream_timers in H.
    destruct (chunkTimeoutRef st) as [t0|] eqn:E.
    + destruct (nth_error_updateAt _ _ _ _ _ H) as [x [Hx [-> | [-> ->]]]];
        [|reflexivity].
      destruct (pending x) eqn:C; [|reflexivity].
      specialize (Ht _ _ Hx C). injection Ht as <-.
      rewrite nth_error_updateAt_same, Hx in H. cbn in H.
      injection H as H. rewrite <- H in C. discriminate C.
    + destruct (pending tm) eqn:C; [|reflexivity].
      specialize (Ht _ _ H C). discriminate.
Qed.

(** ** The refs own the resources in every reachable state *)

Lemma refsOwn_ext (st st' : State) :
  eventSources st' = eventSources st -> timers st' = timers st ->
  eventSourceRef st' = eventSourceRef st -> chunkTimeoutRef st' = chunkTimeoutRef st ->
  refsOwn st -> refsOwn st'.
Proof. unfold refsOwn. intros -> -> -> ->. auto. Qed.

Lemma tornDown_refsOwn (st : State) : tornDown st -> refsOwn st.
Proof.
  intros [_ [_ [_ [Hc Hn]]]]. split.
  - intros h es H C. rewrite (Hc _ _ H) in C. discriminate.
  - intros t tm H C. rewrite (Hn _ _ H) in C. discriminate.
Qed.

Lemma setMessages_refsOwn f (st : State) : refsOwn st -> refsOwn (setMessages f st).
Proof. apply refsOwn_ext; reflexivity. Qed.

Lemma handleStreamError_tornDown (messageId errorMsg : string) (st : State) :
  refsOwn st -> tornDown (handleStreamError messageId errorMsg st).
Proof.
  intros H. unfold handleStreamError.
  apply cleanupStream_tornDown, setMessages_refsOwn, H.
Qed.

Lemma chunkTimeoutCallback_tornDown (messageId : string) (st : State) :
  refsOwn st -> tornDown (chunkTimeoutCallback messageId st).
Proof.
  intros H. unfold chunkTimeoutCallback.
  apply cleanupStream_tornDown, setMessages_refsOwn, H.
Qed.

Lemma startChunkTimeout_timers (messageId : string) (st : State) :
  timers (startChunkTimeout messageId st) =
    match chunkTimeoutRef st with
    | Some t => updateAt t unpend (timers st)
    | None => timers st
    end
    ++ [{| timerMessageId := messageId;
           deadline := (now st + CHUNK_TIMEOUT)%N; pending := true |}]
  /\ chunkTimeoutRef (startChunkTimeout messageId st) = Some (List.length (timers st)).
Proof.
  unfold startChunkTimeout, setTimeout.
  destruct (chunkTimeoutRef st); cbn; rewrite ?updateAt_length; auto.
Qed.

Lemma startChunkTimeout_frame (messageId : string) (st : State) :
  messages (startChunkTimeout messageId st) = messages st
  /\ input (startChunkTimeout messageId st) = input st
  /\ isLoading (startChunkTimeout messageId st) = isLoading st
  /\ eventSourceRef (startChunkTimeout messageId st) = eventSourceRef st
  /\ retryCountRef (startChunkTimeout messageId st) = retryCountRef st
  /\ thread_id (startChunkTimeout messageId st) = thread_id st
  /\ eventSources (startChunkTimeout messageId st) = eventSources st
  /\ now (startChunkTimeout messageId st) = now st.
Proof.
  unfold startChunkTimeout, setTimeout.
  destruct (chunkTimeoutRef st); cbn; repeat split; reflexivity.
Qed.

(** After [startChunkTimeout] the only pending timer is the new one. *)
Lemma startChunkTimeout_pending (messageId : string) (st : State) t tm :
  refsOwn st ->
  nth_error (timers (startChunkTimeout messageId st)) t = Some tm ->
  pending tm = true ->
  t = List.length (timers st)
  /\ tm = {| timerMessageId := messageId;
             deadline := (now st + CHUNK_TIMEOUT)%N; pending := true |}.
Proof.
  intros [_ Ht] H P.
  destruct (startChunkTimeout_timers messageId st) as [E _]. rewrite E in H.
  apply nth_error_snoc in H. destruct H as [H | [-> ->]].
  - exfalso. destruct (chunkTimeoutRef st) as [t0|] eqn:R.
    + destruct (nth_error_updateAt _ _ _ _ _ H) as [x [Hx [-> | [-> ->]]]];
        [|discriminate P].
      specialize (Ht _ _ Hx P). injection Ht as <-.
      rewrite nth_error_updateAt_same, Hx in H. cbn in H.
      injection H as H. rewrite <- H in P. discriminate P.
    + specialize (Ht _ _ H P). discriminate.
  - destruct (chunkTimeoutRef st); rewrite ?updateAt_length; auto.
Qed.

Lemma startChunkTimeout_refsOwn (messageId : string) (st : State) :
  refsOwn st -> refsOwn (startChunkTimeout messageId st).
Proof.
  intros O. pose proof O as [Hs _].
  destruct (startChunkTimeout_frame messageId st) as [_ [_ [_ [R [_ [_ [S _]]]]]]].
  split.
  - rewrite S, R. exact Hs.
  - intros t tm H P.
    destruct (startChunkTimeout_pending _ _ _ _ O H P) as [-> _].
    apply startChunkTimeout_timers.
Qed.

Lemma appendFullMessage_refsOwn (h : nat) (data : string) (st : State) :
  refsOwn st -> refsOwn (appendFullMessage h data st).
Proof.
  intros [Hs Ht]. split; [|exact Ht].
  intros k es H C. cbn in H |- *.
  destruct (nth_error_updateAt _ _ _ _ _ H) as [x [Hx [-> | [-> ->]]]].
  - exact (Hs _ _ Hx C).
  - exact (Hs _ _ Hx C).
Qed.

Lemma onmessage_refsOwn (h : nat) (es : EventSource) (data : string) (st : State) :
  refsOwn st -> refsOwn (onmessage h es data st).
Proof.
  intros O. unfold onmessage. destruct (Js.truthy data); [|exact O].
  destruct (Js.includes data "[Error:").
  - apply tornDown_refsOwn, handleStreamError_tornDown, startChunkTimeout_refsOwn, O.
  - apply setMessages_refsOwn, appendFullMessage_refsOwn, startChunkTimeout_refsOwn, O.
Qed.

Lemma onerror_refsOwn (es : EventSource) (st : State) :
  refsOwn st -> refsOwn (onerror es st).
Proof.
  intros O. unfold onerror.
  assert (O' : refsOwn (set_retryCountRef (retryCountRef st + 1) st))
    by (revert O; apply refsOwn_ext; reflexivity).
  destruct (_ <=? _)%Z; [|exact O'].
  apply tornDown_refsOwn, handleStreamError_tornDown, O'.
Qed.

Lemma dispatch_refsOwn (h : nat) (ev : SseEvent) (st : State) :
  refsOwn st -> refsOwn (dispatch h ev st).
Proof.
  intros O. unfold dispatch.
  destruct (nth_error (eventSources st) h) as [es|]; [|exact O].
  destruct (closed es); [exact O|].
  destruct ev.
  - now apply onmessage_refsOwn.
  - now apply onerror_refsOwn.
  - apply tornDown_refsOwn, cleanupStream_tornDown, O.
Qed.

Lemma unpend_refsOwn (t : nat) (st : State) :
  refsOwn st -> refsOwn (set_timers (updateAt t unpend (timers st)) st).
Proof.
  intros [Hs Ht]. split; [exact Hs|].
  intros k tm H P. cbn in H |- *.
  destruct (nth_error_updateAt _ _ _ _ _ H) as [x [Hx [-> | [-> ->]]]].
  - exact (Ht _ _ Hx P).
  - discriminate P.
Qed.

Lemma fireTimer_refsOwn (t : nat) (st : State) :
  refsOwn st -> refsOwn (fireTimer t st).
Proof.
  intros O. unfold fireTimer.
  destruct (nth_error (timers st) t) as [tm|]; [|exact O].
  destruct (_ && _); [|exact O].
  apply tornDown_refsOwn, chunkTimeoutCallback_tornDown, unpend_refsOwn, O.
Qed.

Lemma fireTimers_refsOwn (l : list nat) (st : State) :
  refsOwn st -> refsOwn (fold_left (fun s t => fireTimer t s) l st).
Proof.
  revert st. induction l as [|t l IH]; intros st O; cbn; [exact O|].
  apply IH, fireTimer_refsOwn, O.
Qed.

Lemma elapse_refsOwn (dt : N) (st : State) : refsOwn st -> refsOwn (elapse dt st).
Proof.
  intros O. unfold elapse. apply fireTimers_refsOwn.
  revert O. apply refsOwn_ext; reflexivity.
Qed.

(** What [handleSendMessage] does with a non-blank text, once the stream
    of the previous message is cleaned up. *)
Lemma handleSendMessage_blank_eq (env : Env) text uuid1 uuid2 (st : State) :
  Js.allWhiteSpace (textOf text st) = true ->
  handleSendMessage env text uuid1 uuid2 st = st.
Proof.
  intros B. unfold handleSendMessage. fold (textOf text st).
  apply JsFacts.trim_empty_iff in B. rewrite B. reflexivity.
Qed.

Lemma nonblank_truthy (s : string) :
  Js.allWhiteSpace s = false -> Js.truthy (Js.trim s) = true.
Proof.
  intros B. destruct (Js.truthy (Js.trim s)) eqn:T; [reflexivity|].
  apply JsFacts.truthy_false_iff, JsFacts.trim_empty_iff in T. congruence.
Qed.

Lemma handleSendMessage_refsOwn (env : Env) text uuid1 uuid2 (st : State) :
  refsOwn st -> refsOwn (handleSendMessage env text uuid1 uuid2 st).
Proof.
  intros O. unfold handleSendMessage. fold (textOf text st).
  destruct (Js.truthy (Js.trim (textOf text st))); cbn [negb]; [|exact O].
  pose proof (cleanupStream_tornDown st O) as T.
  set (c := cleanupStream st) in *.
  match goal with |- context [validUrl env ?u] => destruct (validUrl env u) end.
  - destruct T as [_ [T2 [_ [Tc Tn]]]]. split.
    + intros h es H C. cbn in H |- *.
      apply nth_error_snoc in H. destruct H as [H | [-> _]].
      * rewrite (Tc _ _ H) in C. discriminate.
      * reflexivity.
    + intros t tm H P. cbn in H. rewrite (Tn _ _ H) in P. discriminate.
  - apply tornDown_refsOwn, handleStreamError_tornDown.
    apply tornDown_refsOwn in T. revert T. apply refsOwn_ext; reflexivity.
Qed.

Lemma step_refsOwn (env : Env) (ev : Event) (st : State) :
  refsOwn st -> refsOwn (step env ev st).
Proof.
  intros O. destruct ev; cbn.
  - revert O. apply refsOwn_ext; reflexivity.
  - now apply handleSendMessage_refsOwn.
  - now apply dispatch_refsOwn.
  - now apply elapse_refsOwn.
  - apply tornDown_refsOwn, cleanupStream_tornDown, O.
Qed.

Lemma reachable_refsOwn (env : Env) (st : State) : reachable env st -> refsOwn st.
Proof.
  induction 1 as [thread t0 | ev st _ IH].
  - split; intros [|k] x H; discriminate H.
  - apply step_refsOwn, IH.
Qed.

(** ** Messages changed in place *)

Lemma onlyChanged_map (messageId : string) (R : Message.t -> Message.t -> Prop)
    (f : Message.t -> Message.t) (l : list Message.t) :
  (forall m, Message.id m = messageId -> R m (f m)) ->
  (forall m, Message.id m <> messageId -> f m = m) ->
  onlyChanged messageId R l (map f l).
Proof.
  intros H1 H2. unfold onlyChanged.
  induction l as [|m l IH]; cbn; constructor; auto.
Qed.

Lemma setContent_other (messageId full : string) (m : Message.t) :
  Message.id m <> messageId -> setContent messageId full m = m.
Proof.
  intros N. unfold setContent. apply String.eqb_neq in N. now rewrite N.
Qed.

Lemma setContent_same (messageId full : string) (m : Message.t) :
  Message.id m = messageId ->
  Message.content (setContent messageId full m) = full
  /\ Message.isLoading (setContent messageId full m) = Some false
  /\ Message.id (setContent messageId full m) = messageId.
Proof.
  intros E. unfold setContent. apply String.eqb_eq in E as E'. rewrite E'. cbn. auto.
Qed.

Lemma setContent_twice (messageId a b : string) (m : Message.t) :
  setContent messageId b (setContent messageId a m) = setContent messageId b m.
Proof.
  unfold setContent. destruct (Message.id m =? messageId)%string eqn:E; cbn; rewrite E;
    reflexivity.
Qed.

Lemma appendError_other (messageId text : string) (m : Message.t) :
  Message.id m <> messageId -> appendError messageId text m = m.
Proof.
  intros N. unfold appendError. apply String.eqb_neq in N. now rewrite N.
Qed.

Lemma appendError_same (messageId text : string) (m : Message.t) :
  Message.id m = messageId ->
  Message.content (appendError messageId text m) = (Message.content m ++ text)%string
  /\ Message.error (appendError messageId text m) = Some true
  /\ Message.isLoading (appendError messageId text m) = Some false.
Proof.
  intros E. unfold appendError. apply String.eqb_eq in E. rewrite E. cbn. auto.
Qed.

Lemma onlyChanged_appendError (messageId text : string) (l : list Message.t) :
  onlyChanged messageId
    (fun m m' => Message.content m' = (Message.content m ++ text)%string
                 /\ Message.error m' = Some true
                 /\ Message.isLoading m' = Some false)
    l (map (appendError messageId text) l).
Proof.
  apply onlyChanged_map.
  - intros m E. now apply appendError_same.
  - intros m N. now apply appendError_other.
Qed.

(** ** One event on an open source *)

Lemma benign_inv (data : string) :
  benign data = true -> Js.truthy data = true /\ Js.includes data "[Error:" = false.
Proof.
  unfold benign. intros H. apply andb_prop in H. destruct H as [H1 H2].
  apply negb_true_iff in H2. auto.
Qed.

Lemma includes_truthy (data : string) :
  Js.includes data "[Error:" = true -> Js.truthy data = true.
Proof. destruct data; [discriminate | reflexivity]. Qed.

Lemma dispatch_open (st : State) (h : nat) (es : EventSource) (ev : SseEvent) :
  openSource st h es ->
  dispatch h ev st =
    match ev with
    | SseMessage data => onmessage h es data st
    | SseError => onerror es st
    | SseDone => ondone st
    end.
Proof. intros [H C]. unfold dispatch. now rewrite H, C. Qed.

Lemma dispatch_closed (st : State) (h : nat) (ev : SseEvent) :
  allClosed st -> dispatch h ev st = st.
Proof.
  intros A. unfold dispatch.
  destruct (nth_error (eventSources st) h) as [es|] eqn:E; [|reflexivity].
  now rewrite (A _ _ E).
Qed.

(** A benign chunk: the chunk is appended to [fullMessage] and the
    assistant message shows the new [fullMessage]. *)
Lemma dispatch_chunk (st : State) (h : nat) (es : EventSource) (data : string) :
  openSource st h es -> benign data = true ->
  let st' := dispatch h (SseMessage data) st in
  openSource st' h (withFullMessage es (fullMessage es ++ data))
  /\ messages st' =
       map (setContent (assistantMessageId es) (fullMessage es ++ data)) (messages st)
  /\ retryCountRef st' = retryCountRef st
  /\ eventSourceRef st' = eventSourceRef st
  /\ isLoading st' = isLoading st
  /\ input st' = input st
  /\ now st' = now st
  /\ chunkTimeoutRef st' = Some (List.length (timers st)).
Proof.
  intros O B. cbn zeta. rewrite (dispatch_open _ _ _ _ O).
  destruct O as [H C]. destruct (benign_inv _ B) as [T I].
  unfold onmessage. rewrite T, I.
  destruct (startChunkTimeout_frame (assistantMessageId es) st)
    as [F1 [F2 [F3 [F4 [F5 [F6 [F7 F8]]]]]]].
  destruct (startChunkTimeout_timers (assistantMessageId es) st) as [_ F9].
  unfold openSource. cbn -[startChunkTimeout].
  rewrite F1, F3, F4, F5, F2, F7, F8, F9.
  repeat split; try reflexivity.
  - rewrite nth_error_updateAt_same, H. reflexivity.
  - exact C.
Qed.

Lemma errorsIn_nonneg (evs : list SseEvent) : (0 <= errorsIn evs)%Z.
Proof. induction evs as [|[d| |] evs IH]; cbn [errorsIn]; lia. Qed.

(** An error event below the retry bound only counts. *)
Lemma dispatch_error_below (st : State) (h : nat) (es : EventSource) :
  openSource st h es -> (retryCountRef st + 1 < MAX_RETRIES)%Z ->
  dispatch h SseError st = set_retryCountRef (retryCountRef st + 1) st.
Proof.
  intros O L. rewrite (dispatch_open _ _ _ _ O). unfold onerror. cbn.
  destruct (Z.leb_spec MAX_RETRIES (retryCountRef st + 1)); [lia | reflexivity].
Qed.

(** An error event that reaches the retry bound reports the failure. *)
Lemma dispatch_error_bound (st : State) (h : nat) (es : EventSource) :
  openSource st h es -> (MAX_RETRIES <= retryCountRef st + 1)%Z ->
  dispatch h SseError st =
    handleStreamError (assistantMessageId es) "Connection failed after multiple retries"
      (set_retryCountRef (retryCountRef st + 1) st).
Proof.
  intros O L. rewrite (dispatch_open _ _ _ _ O). unfold onerror. cbn.
  destruct (Z.leb_spec MAX_RETRIES (retryCountRef st + 1)); [reflexivity | lia].
Qed.

(** ** A stream in progress *)

Lemma deliver_inProgress (h : nat) (evs : list SseEvent) :
  forall (st : State) (es : EventSource),
  openSource st h es ->
  forallb inProgress evs = true ->
  (retryCountRef st + errorsIn evs < MAX_RETRIES)%Z ->
  let st' := deliver h evs st in
  let full := (fullMessage es ++ Js.concatAll (chunksOf evs))%string in
  openSource st' h (withFullMessage es full)
  /\ retryCountRef st' = (retryCountRef st + errorsIn evs)%Z
  /\ eventSourceRef st' = eventSourceRef st
  /\ isLoading st' = isLoading st
  /\ input st' = input st
  /\ messages st' =
       match chunksOf evs with
       | [] => messages st
       | _ => map (setContent (assistantMessageId es) full) (messages st)
       end.
Proof.
  induction evs as [|ev evs IH]; intros st es O F L; cbn zeta.
  - cbn. rewrite JsFacts.append_nil_r, Z.add_0_r.
    destruct es; repeat split; try reflexivity; apply O.
  - cbn [forallb] in F. apply andb_prop in F. destruct F as [Fe F].
    pose proof (errorsIn_nonneg evs) as P.
    destruct ev as [data| |]; cbn [inProgress] in Fe; [| |discriminate].
    + cbn [errorsIn] in L |- *.
      destruct (dispatch_chunk st h es data O Fe) as [O1 [M1 [R1 [E1 [L1 [I1 _]]]]]].
      specialize (IH _ _ O1 F). cbn zeta in IH.
      rewrite R1 in IH. specialize (IH L).
      destruct IH as [O2 [R2 [E2 [L2 [I2 M2]]]]].
      unfold deliver in *. cbn [fold_left chunksOf Js.concatAll].
      cbn [fullMessage withFullMessage assistantMessageId] in O2, M2.
      rewrite JsFacts.append_assoc in O2, M2.
      repeat split; try congruence.
      * apply O2.
      * apply O2.
      * rewrite M2, M1. destruct (chunksOf evs) as [|c cs].
        -- cbn. now rewrite JsFacts.append_nil_r.
        -- rewrite map_map. apply map_ext. intros m. apply setContent_twice.
    + cbn [errorsIn] in L |- *.
      assert (L1 : (retryCountRef st + 1 < MAX_RETRIES)%Z) by lia.
      pose proof (dispatch_error_below st h es O L1) as D.
      assert (O1 : openSource (set_retryCountRef (retryCountRef st + 1) st) h es)
        by exact O.
      specialize (IH _ _ O1 F). cbn zeta in IH. cbn [retryCountRef set_retryCountRef] in IH.
      assert (L2 : (retryCountRef st + 1 + errorsIn evs < MAX_RETRIES)%Z) by lia.
      specialize (IH L2). destruct IH as [O2 [R2 [E2 [L3 [I2 M2]]]]].
      unfold deliver in *. cbn [fold_left chunksOf]. rewrite D.
      repeat split; try assumption; try apply O2.
      rewrite R2. lia.
Qed.

(** ** Sending a message *)

Lemma cleanupStream_sources_length (st : State) :
  List.length (eventSources (cleanupStream st)) = List.length (eventSources st).
Proof.
  rewrite cleanupStream_sources. destruct (eventSourceRef st); [|reflexivity].
  cbn. apply updateAt_length.
Qed.

(** A non-blank text whose stream URL the browser accepts: both messages
    are appended, the input is emptied, the retry counter is reset, and a
    new source is opened and kept in [eventSourceRef]. *)
Lemma handleSendMessage_opens (env : Env) text uuid1 uuid2 (st : State) :
  Js.allWhiteSpace (textOf text st) = false ->
  validUrl env (streamUrl env (thread_id st) (textOf text st)) = true ->
  let st0 := handleSendMessage env text uuid1 uuid2 st in
  let h := List.length (eventSources st) in
  openSource st0 h
    {| es_url := streamUrl env (thread_id st) (textOf text st); closed := false;
       assistantMessageId := uuid2; fullMessage := "" |}
  /\ eventSourceRef st0 = Some h
  /\ chunkTimeoutRef st0 = None
  /\ retryCountRef st0 = 0%Z
  /\ isLoading st0 = true
  /\ input st0 = ""
  /\ messages st0 =
       messages st ++
       [ {| Message.id := uuid1; Message.role := user;
            Message.content := textOf text st; Message.timestamp := now st;
            Message.error := None; Message.isLoading := None |};
         {| Message.id := uuid2; Message.role := assistant;
            Message.content := ""; Message.timestamp := now st;
            Message.error := None; Message.isLoading := Some true |} ]
  /\ List.length (eventSources st0) = S h.
Proof.
  intros B V. cbn zeta. unfold handleSendMessage. fold (textOf text st).
  rewrite (nonblank_truthy _ B). cbn [negb].
  destruct (cleanupStream_frame st) as [F1 [F2 [F3 [F4 F5]]]].
  destruct (cleanupStream_refs st) as [R1 [R2 R3]].
  pose proof (cleanupStream_sources_length st) as SL.
  cbn -[cleanupStream streamUrl]. rewrite F4, V.
  unfold openSource. cbn -[cleanupStream streamUrl].
  rewrite F1, F5, R2, SL.
  repeat split; try reflexivity.
  - rewrite <- SL. apply nth_error_snoc_last.
  - rewrite length_app, SL. cbn. lia.
Qed.

Lemma chunksOf_messages (l : list string) : chunksOf (map SseMessage l) = l.
Proof. induction l as [|c l IH]; cbn; congruence. Qed.

Lemma errorsIn_messages (l : list string) : errorsIn (map SseMessage l) = 0%Z.
Proof. induction l as [|c l IH]; cbn; congruence. Qed.

(** C9.  A text that is empty or made of white space only (the argument,
    or the input cell when no argument is given): [handleSendMessage]
    returns the state it was given.  So the messages and the input are
    unchanged, [isLoading] stays false, no EventSource is created nor
    stored, and the retry counter is not reset. *)
Theorem handleSendMessage_blank (env : Env) (text : option string)
    (uuid1 uuid2 : string) (st : State) :
  Js.allWhiteSpace (textOf text st) = true ->
  let st' := handleSendMessage env text uuid1 uuid2 st in
  st' = st
  /\ messages st' = messages st
  /\ input st' = input st
  /\ (isLoading st = false -> isLoading st' = false)
  /\ eventSources st' = eventSources st
  /\ eventSourceRef st' = eventSourceRef st
  /\ retryCountRef st' = retryCountRef st.
Proof.
  intros B. cbn zeta. rewrite (handleSendMessage_blank_eq _ _ _ _ _ B).
  repeat split; auto.
Qed.

(** C1.  After a non-blank message is sent, for every sequence of chunks
    that are non-empty and free of "[Error:", received on the source just
    opened: once the n-th chunk is processed, every message whose id is
    assistantMessageId has as content the concatenation, in arrival order,
    of chunks 1 to n (the assistant message of this send is one of them),
    and every other message is as it was. *)
Theorem chunks_accumulate (env : Env) (text : option string)
    (uuid1 uuid2 : string) (st : State) (chunks : list string) (n : nat) :
  Js.allWhiteSpace (textOf text st) = false ->
  validUrl env (streamUrl env (thread_id st) (textOf text st)) = true ->
  forallb benign chunks = true ->
  (1 <= n <= List.length chunks)%nat ->
  let st0 := handleSendMessage env text uuid1 uuid2 st in
  let h := List.length (eventSources st) in
  let stn := deliver h (map SseMessage (firstn n chunks)) st0 in
  let full := Js.concatAll (firstn n chunks) in
  onlyChanged uuid2 (fun _ m' => Message.content m' = full)
    (messages st0) (messages stn)
  /\ (exists m, In m (messages stn)
                /\ Message.id m = uuid2 /\ Message.role m = assistant
                /\ Message.content m = full)
  /\ List.length (messages stn) = List.length (messages st0).
Proof.
  intros B V F [N1 N2]. cbn zeta.
  destruct (handleSendMessage_opens env text uuid1 uuid2 st B V)
    as [O [_ [_ [R [_ [_ [M _]]]]]]].
  set (st0 := handleSendMessage env text uuid1 uuid2 st) in *.
  set (evs := map SseMessage (firstn n chunks)).
  assert (C : chunksOf evs = firstn n chunks) by apply chunksOf_messages.
  assert (E : errorsIn evs = 0%Z) by apply errorsIn_messages.
  assert (P : forallb inProgress evs = true).
  { unfold evs. rewrite forallb_forall. intros ev Hin.
    apply in_map_iff in Hin. destruct Hin as [c [<- Hc]]. cbn.
    rewrite forallb_forall in F. apply F.
    rewrite <- (firstn_skipn n chunks). apply in_or_app. now left. }
  destruct (deliver_inProgress _ evs st0 _ O P) as [_ [_ [_ [_ [_ Mn]]]]].
  { rewrite R, E. unfold MAX_RETRIES. lia. }
  rewrite C in Mn. cbn [fullMessage assistantMessageId] in Mn.
  change ("" ++ Js.concatAll (firstn n chunks))%string
    with (Js.concatAll (firstn n chunks)) in Mn.
  destruct (firstn n chunks) as [|c l] eqn:Fn.
  { exfalso. destruct chunks; cbn in N2; [lia|]. destruct n; [lia | discriminate]. }
  rewrite Mn. repeat split.
  - apply onlyChanged_map.
    + intros m Hm. now apply setContent_same.
    + intros m Hm. now apply setContent_other.
  - eexists. split.
    + apply in_map. rewrite M. apply in_or_app. right. right. left. reflexivity.
    + unfold setContent. cbn. rewrite String.eqb_refl. cbn. auto.
  - apply length_map.
Qed.

(** ** Timers *)

Lemma fireTimer_skip (t : nat) (st : State) :
  refsOwn st -> chunkTimeoutRef st <> Some t -> fireTimer t st = st.
Proof.
  intros [_ Ht] N. unfold fireTimer.
  destruct (nth_error (timers st) t) as [tm|] eqn:E; [|reflexivity].
  destruct (pending tm) eqn:P; [|reflexivity].
  elim N. exact (Ht _ _ E P).
Qed.

Lemma fireTimer_cases (t : nat) (st : State) :
  refsOwn st -> fireTimer t st = st \/ tornDown (fireTimer t st).
Proof.
  intros O. unfold fireTimer.
  destruct (nth_error (timers st) t) as [tm|]; [|now left].
  destruct (_ && _); [|now left].
  right. apply chunkTimeoutCallback_tornDown, unpend_refsOwn, O.
Qed.

Lemma fireTimers_tornDown (l : list nat) (st : State) :
  tornDown st -> fold_left (fun s t => fireTimer t s) l st = st.
Proof.
  intros T. induction l as [|t l IH]; cbn; [reflexivity|].
  rewrite fireTimer_skip; [exact IH | now apply tornDown_refsOwn |].
  destruct T as [_ [T _]]. rewrite T. discriminate.
Qed.

Lemma fireTimers_owned (l : list nat) (st : State) :
  refsOwn st ->
  fold_left (fun s t => fireTimer t s) l st =
    match chunkTimeoutRef st with
    | Some t => if existsb (Nat.eqb t) l then fireTimer t st else st
    | None => st
    end.
Proof.
  intros O. induction l as [|a l IH]; cbn.
  - destruct (chunkTimeoutRef st); reflexivity.
  - destruct (chunkTimeoutRef st) as [t|] eqn:R.
    + destruct (Nat.eqb_spec t a) as [->|N]; cbn.
      * destruct (fireTimer_cases a st O) as [E|T].
        -- rewrite E, IH. destruct (existsb _ l); [exact E | reflexivity].
        -- now apply fireTimers_tornDown.
      * rewrite fireTimer_skip; [exact IH | exact O | congruence].
    + rewrite fireTimer_skip; [exact IH | exact O | congruence].
Qed.

(** When time passes, the only timer that can fire is the one kept in
    [chunkTimeoutRef]. *)
Lemma elapse_owned (dt : N) (st : State) :
  refsOwn st ->
  elapse dt st =
    match chunkTimeoutRef st with
    | Some t => fireTimer t (set_now (now st + dt) st)
    | None => set_now (now st + dt) st
    end.
Proof.
  intros O. unfold elapse.
  assert (O' : refsOwn (set_now (now st + dt) st))
    by (revert O; apply refsOwn_ext; reflexivity).
  rewrite (fireTimers_owned _ _ O'). cbn [chunkTimeoutRef set_now timers].
  destruct (chunkTimeoutRef st) as [t|]; [|reflexivity].
  destruct (existsb _ _) eqn:E; [reflexivity|].
  unfold fireTimer. cbn [timers set_now].
  destruct (nth_error (timers st) t) as [tm|] eqn:H; [|reflexivity].
  exfalso. assert (L : (t < List.length (timers st))%nat)
    by (apply nth_error_Some; congruence).
  assert (X : existsb (Nat.eqb t) (seq 0 (List.length (timers st))) = true).
  { apply existsb_exists. exists t. split; [apply in_seq; lia | apply Nat.eqb_refl]. }
  congruence.
Qed.

Lemma cleanupStream_closes (st : State) (h : nat) (es : EventSource) :
  eventSourceRef st = Some h -> nth_error (eventSources st) h = Some es ->
  nth_error (eventSources (cleanupStream st)) h =
    Some {| es_url := es_url es; closed := true;
            assistantMessageId := assistantMessageId es;
            fullMessage := fullMessage es |}.
Proof.
  intros R H. rewrite cleanupStream_sources, R. cbn.
  now rewrite nth_error_updateAt_same, H.
Qed.

Lemma openSource_ref (st : State) (h : nat) (es : EventSource) :
  refsOwn st -> openSource st h es -> eventSourceRef st = Some h.
Proof. intros [Hs _] [H C]. exact (Hs _ _ H C). Qed.

Lemma deliver_refsOwn (h : nat) (evs : list SseEvent) (st : State) :
  refsOwn st -> refsOwn (deliver h evs st).
Proof.
  revert st. induction evs as [|ev evs IH]; intros st O; cbn; [exact O|].
  apply IH, dispatch_refsOwn, O.
Qed.

(** The timer armed by a benign chunk. *)
Lemma dispatch_chunk_timer (st : State) (h : nat) (es : EventSource) (data : string) :
  openSource st h es -> benign data = true ->
  nth_error (timers (dispatch h (SseMessage data) st)) (List.length (timers st)) =
    Some {| timerMessageId := assistantMessageId es;
            deadline := (now st + CHUNK_TIMEOUT)%N; pending := true |}.
Proof.
  intros O B. rewrite (dispatch_open _ _ _ _ O).
  destruct (benign_inv _ B) as [T I]. unfold onmessage. rewrite T, I.
  cbn -[startChunkTimeout].
  destruct (startChunkTimeout_timers (assistantMessageId es) st) as [E _].
  rewrite E.
  replace (List.length (timers st))
    with (List.length (match chunkTimeoutRef st with
                       | Some t => updateAt t unpend (timers st)
                       | None => timers st
                       end)).
  - apply nth_error_snoc_last.
  - destruct (chunkTimeoutRef st); [apply updateAt_length | reflexivity].
Qed.

(** C2.  A chunk received on the open stream arms the inactivity timer for
    CHUNK_TIMEOUT = 30000 ms.  While less than 30000 ms pass without a
    further chunk nothing happens; once 30000 ms have passed the messages
    with the stream's assistantMessageId get the timeout text appended,
    their error flag set and their isLoading cleared, every other message
    is untouched, and the stream is torn down: the source is closed,
    [eventSourceRef] and [chunkTimeoutRef] are null, no timer is pending
    and [isLoading] is false. *)
Theorem inactivity_timeout (env : Env) (st : State) (h : nat)
    (es : EventSource) (data : string) :
  reachable env st ->
  openSource st h es ->
  benign data = true ->
  let st1 := dispatch h (SseMessage data) st in
  CHUNK_TIMEOUT = 30000%N
  /\ (forall dt, (dt < 30000)%N -> elapse dt st1 = set_now (now st1 + dt) st1)
  /\ (forall dt, (30000 <= dt)%N ->
        let st2 := elapse dt st1 in
        onlyChanged (assistantMessageId es)
          (fun m m' =>
             Message.content m' =
               (Message.content m ++ Js.LF
                ++ "[Error: Response timeout - No data received for 30 seconds]")%string
             /\ Message.error m' = Some true
             /\ Message.isLoading m' = Some false)
          (messages st1) (messages st2)
        /\ (exists es', nth_error (eventSources st2) h = Some es' /\ closed es' = true)
        /\ tornDown st2).
Proof.
  intros Rch O B. cbn zeta.
  pose proof (reachable_refsOwn _ _ Rch) as Own.
  pose proof (dispatch_refsOwn h (SseMessage data) st Own) as Own1.
  destruct (dispatch_chunk st h es data O B) as [O1 [_ [_ [_ [_ [_ [N1 T1]]]]]]].
  pose proof (dispatch_chunk_timer st h es data O B) as Tm.
  set (st1 := dispatch h (SseMessage data) st) in *.
  split; [reflexivity|]. split.
  - intros dt L. rewrite (elapse_owned _ _ Own1), T1.
    unfold fireTimer. cbn [timers set_now now]. rewrite Tm. cbn [pending deadline].
    rewrite N1. destruct (N.leb_spec (now st + CHUNK_TIMEOUT) (now st + dt)) as [G|G].
    + unfold CHUNK_TIMEOUT in G. lia.
    + reflexivity.
  - intros dt L. cbn zeta. rewrite (elapse_owned _ _ Own1), T1.
    unfold fireTimer. cbn [timers set_now now]. rewrite Tm. cbn [pending deadline timerMessageId].
    rewrite N1. destruct (N.leb_spec (now st + CHUNK_TIMEOUT) (now st + dt)) as [G|G];
      [|unfold CHUNK_TIMEOUT in G; lia].
    cbn [andb].
    set (s := set_timers _ _).
    assert (Os : refsOwn s).
    { unfold s. apply (unpend_refsOwn _ (set_now (now st + dt) st1)).
      revert Own1. apply refsOwn_ext; reflexivity. }
    split; [|split].
    + unfold chunkTimeoutCallback.
      destruct (cleanupStream_frame
                  (setMessages (map (appendError (assistantMessageId es) timeoutText)) s))
        as [F _].
      rewrite F. cbn [messages setMessages set_messages].
      unfold s. cbn [messages set_timers set_now]. apply onlyChanged_appendError.
    + unfold chunkTimeoutCallback. eexists. split.
      * apply cleanupStream_closes.
        -- cbn. exact (openSource_ref _ _ _ Own1 O1).
        -- cbn. apply O1.
      * reflexivity.
    + apply chunkTimeoutCallback_tornDown, Os.
Qed.

(** C3.  A send resets the retry counter to 0.  While the stream is in
    progress (benign chunks and error events in any order), the counter
    equals the number of error events received; as long as that number is
    below MAX_RETRIES = 3 the source stays open and in [eventSourceRef],
    and the messages show the accumulated chunks only, without any failure
    text.  The third error event brings the counter to 3, appends
    the failure text to the assistant message, sets its error flag, and
    tears the stream down. *)
Theorem retries_bounded (env : Env) (text : option string)
    (uuid1 uuid2 : string) (st : State) (evs : list SseEvent) :
  reachable env st ->
  Js.allWhiteSpace (textOf text st) = false ->
  validUrl env (streamUrl env (thread_id st) (textOf text st)) = true ->
  forallb inProgress evs = true ->
  let st0 := handleSendMessage env text uuid1 uuid2 st in
  let h := List.length (eventSources st) in
  let stk := deliver h evs st0 in
  MAX_RETRIES = 3%Z
  /\ retryCountRef st0 = 0%Z
  /\ ((errorsIn evs < 3)%Z ->
        retryCountRef stk = errorsIn evs
        /\ eventSourceRef stk = Some h
        /\ (exists es, openSource stk h es)
        /\ messages stk =
             match chunksOf evs with
             | [] => messages st0
             | _ => map (setContent uuid2 (Js.concatAll (chunksOf evs))) (messages st0)
             end)
  /\ (errorsIn evs = 2%Z ->
        let st3 := dispatch h SseError stk in
        retryCountRef st3 = 3%Z
        /\ onlyChanged uuid2
             (fun m m' =>
                Message.content m' =
                  (Message.content m ++ Js.LF
                   ++ "[Error: Connection failed after multiple retries]")%string
                /\ Message.error m' = Some true
                /\ Message.isLoading m' = Some false)
             (messages stk) (messages st3)
        /\ (exists es', nth_error (eventSources st3) h = Some es' /\ closed es' = true)
        /\ tornDown st3).
Proof.
  intros Rch B V P. cbn zeta.
  pose proof (reachable_refsOwn _ _ Rch) as Own.
  pose proof (handleSendMessage_refsOwn env text uuid1 uuid2 st Own) as Own0.
  destruct (handleSendMessage_opens env text uuid1 uuid2 st B V)
    as [O [E0 [_ [R0 _]]]].
  set (st0 := handleSendMessage env text uuid1 uuid2 st) in *.
  set (h := List.length (eventSources st)) in *.
  assert (K : (errorsIn evs < 3)%Z ->
              let stk := deliver h evs st0 in
              retryCountRef stk = errorsIn evs
              /\ eventSourceRef stk = Some h
              /\ openSource stk h
                   (withFullMessage
                      {| es_url := streamUrl env (thread_id st) (textOf text st);
                         closed := false; assistantMessageId := uuid2;
                         fullMessage := "" |}
                      (Js.concatAll (chunksOf evs)))
              /\ messages stk =
                   match chunksOf evs with
                   | [] => messages st0
                   | _ => map (setContent uuid2 (Js.concatAll (chunksOf evs)))
                              (messages st0)
                   end).
  { intros L. cbn zeta.
    destruct (deliver_inProgress h evs st0 _ O P) as [O2 [R2 [E2 [_ [_ M2]]]]].
    { rewrite R0. unfold MAX_RETRIES. lia. }
    rewrite R0, Z.add_0_l in R2. rewrite E0 in E2.
    cbn [fullMessage assistantMessageId] in O2, M2.
    change ("" ++ Js.concatAll (chunksOf evs))%string
      with (Js.concatAll (chunksOf evs)) in O2, M2.
    auto. }
  split; [reflexivity|]. split; [exact R0|]. split.
  - intros L. destruct (K L) as [K1 [K2 [K3 K4]]]. eauto.
  - intros L. cbn zeta.
    destruct K as [K1 [K2 [K3 K4]]]; [lia|].
    pose proof (deliver_refsOwn h evs st0 Own0) as Ownk.
    set (stk := deliver h evs st0) in *.
    rewrite (dispatch_error_bound _ _ _ K3) by (rewrite K1, L; unfold MAX_RETRIES; lia).
    cbn [assistantMessageId withFullMessage].
    set (s := set_retryCountRef (retryCountRef stk + 1) stk).
    assert (Os : refsOwn s) by (revert Ownk; apply refsOwn_ext; reflexivity).
    unfold handleStreamError.
    destruct (cleanupStream_frame
                (setMessages
                   (map (appendError uuid2
                           (Js.LF ++ "[Error: " ++ "Connection failed after multiple retries"
                            ++ "]")%string)) s))
      as [F1 [_ [F3 _]]].
    split; [|split; [|split]].
    + rewrite F3. cbn. rewrite K1, L. reflexivity.
    + rewrite F1. cbn [messages setMessages set_messages].
      unfold s. cbn [messages set_retryCountRef]. apply onlyChanged_appendError.
    + eexists. split.
      * apply cleanupStream_closes; cbn; [exact K2 | apply K3].
      * reflexivity.
    + apply cleanupStream_tornDown, setMessages_refsOwn, Os.
Qed.

(** C10.  A chunk that contains "[Error:" is not added to the accumulated
    [fullMessage]; the messages with the stream's assistantMessageId get
    "\n[Error: <chunk>]" appended and their error flag set, the stream is
    torn down with its source closed, and from then on no event delivered
    to any source changes anything, so no later chunk is appended. *)
Theorem backend_error_chunk (env : Env) (st : State) (h : nat)
    (es : EventSource) (data : string) :
  reachable env st ->
  openSource st h es ->
  Js.includes data "[Error:" = true ->
  let st' := dispatch h (SseMessage data) st in
  onlyChanged (assistantMessageId es)
    (fun m m' =>
       Message.content m' =
         (Message.content m ++ Js.LF ++ "[Error: " ++ data ++ "]")%string
       /\ Message.error m' = Some true
       /\ Message.isLoading m' = Some false)
    (messages st) (messages st')
  /\ nth_error (eventSources st') h =
       Some {| es_url := es_url es; closed := true;
               assistantMessageId := assistantMessageId es;
               fullMessage := fullMessage es |}
  /\ tornDown st'
  /\ (forall later : list (nat * SseEvent),
        fold_left (fun s ke => dispatch (fst ke) (snd ke) s) later st' = st').
Proof.
  intros Rch O I. cbn zeta.
  pose proof (reachable_refsOwn _ _ Rch) as Own.
  rewrite (dispatch_open _ _ _ _ O). unfold onmessage.
  rewrite (includes_truthy _ I), I.
  pose proof (startChunkTimeout_refsOwn (assistantMessageId es) st Own) as Own1.
  destruct (startChunkTimeout_frame (assistantMessageId es) st)
    as [F1 [_ [_ [F4 [_ [_ [F7 _]]]]]]].
  set (s := startChunkTimeout (assistantMessageId es) st) in *.
  pose proof (handleStreamError_tornDown (assistantMessageId es) data s Own1) as T.
  split; [|split; [|split]].
  - unfold handleStreamError.
    destruct (cleanupStream_frame
                (setMessages
                   (map (appendError (assistantMessageId es)
                           (Js.LF ++ "[Error: " ++ data ++ "]")%string)) s))
      as [F _].
    rewrite F. cbn [messages setMessages set_messages]. rewrite F1.
    apply onlyChanged_appendError.
  - unfold handleStreamError.
    apply cleanupStream_closes; unfold setMessages;
      cbn [eventSourceRef eventSources set_messages].
    + rewrite F4. exact (openSource_ref _ _ _ Own O).
    + rewrite F7. apply O.
  - exact T.
  - intros later. induction later as [|[k e] later IH]; cbn; [reflexivity|].
    rewrite dispatch_closed; [exact IH | apply T].
Qed.

(** ** Which step opens a source *)

Lemma noNewOpen_refl (st : State) : noNewOpen st st.
Proof. intros h es O. eauto. Qed.

Lemma noNewOpen_trans (a b c : State) :
  noNewOpen a b -> noNewOpen b c -> noNewOpen a c.
Proof. intros H1 H2 h es O. destruct (H2 _ _ O) as [es0 O0]. eauto. Qed.

Lemma noNewOpen_same (st st' : State) :
  eventSources st' = eventSources st -> noNewOpen st st'.
Proof. intros E h es [H C]. exists es. split; [congruence | exact C]. Qed.

Lemma noNewOpen_updateAt (f : EventSource -> EventSource) (k : nat) (st st' : State) :
  (forall es, closed (f es) = false -> closed es = false) ->
  eventSources st' = updateAt k f (eventSources st) ->
  noNewOpen st st'.
Proof.
  intros Hf E h es [H C]. rewrite E in H.
  destruct (nth_error_updateAt _ _ _ _ _ H) as [x [Hx [-> | [-> ->]]]];
    exists x; split; auto.
Qed.

Lemma cleanupStream_noNewOpen (st : State) : noNewOpen st (cleanupStream st).
Proof.
  destruct (eventSourceRef st) as [h|] eqn:R.
  - apply (noNewOpen_updateAt
             (fun es => {| es_url := es_url es; closed := true;
                           assistantMessageId := assistantMessageId es;
                           fullMessage := fullMessage es |}) h).
    + intros es C. discriminate C.
    + rewrite cleanupStream_sources, R. reflexivity.
  - apply noNewOpen_same. rewrite cleanupStream_sources, R. reflexivity.
Qed.

Lemma handleStreamError_noNewOpen (messageId errorMsg : string) (st : State) :
  noNewOpen st (handleStreamError messageId errorMsg st).
Proof.
  unfold handleStreamError.
  eapply noNewOpen_trans; [|apply cleanupStream_noNewOpen].
  apply noNewOpen_same. reflexivity.
Qed.

Lemma startChunkTimeout_noNewOpen (messageId : string) (st : State) :
  noNewOpen st (startChunkTimeout messageId st).
Proof. apply noNewOpen_same. apply startChunkTimeout_frame. Qed.

Lemma dispatch_noNewOpen (h : nat) (ev : SseEvent) (st : State) :
  noNewOpen st (dispatch h ev st).
Proof.
  unfold dispatch.
  destruct (nth_error (eventSources st) h) as [es|]; [|apply noNewOpen_refl].
  destruct (closed es); [apply noNewOpen_refl|].
  destruct ev as [data| |].
  - unfold onmessage. destruct (Js.truthy data); [|apply noNewOpen_refl].
    eapply noNewOpen_trans; [apply startChunkTimeout_noNewOpen|].
    destruct (Js.includes data "[Error:").
    + apply handleStreamError_noNewOpen.
    + eapply noNewOpen_trans; [|apply noNewOpen_same; reflexivity].
      eapply noNewOpen_updateAt; [|reflexivity]. intros x C. exact C.
  - unfold onerror. cbn zeta.
    apply (noNewOpen_trans st (set_retryCountRef (retryCountRef st + 1) st));
      [apply noNewOpen_same; reflexivity|].
    destruct (_ <=? _)%Z; [apply handleStreamError_noNewOpen | apply noNewOpen_refl].
  - apply cleanupStream_noNewOpen.
Qed.

Lemma fireTimer_noNewOpen (t : nat) (st : State) : noNewOpen st (fireTimer t st).
Proof.
  unfold fireTimer.
  destruct (nth_error (timers st) t) as [tm|]; [|apply noNewOpen_refl].
  destruct (_ && _); [|apply noNewOpen_refl].
  unfold chunkTimeoutCallback.
  eapply noNewOpen_trans; [|apply cleanupStream_noNewOpen].
  apply noNewOpen_same. reflexivity.
Qed.

Lemma elapse_noNewOpen (dt : N) (st : State) : noNewOpen st (elapse dt st).
Proof.
  unfold elapse.
  eapply noNewOpen_trans; [apply (noNewOpen_same st (set_now (now st + dt) st)); reflexivity|].
  generalize (seq 0 (List.length (timers (set_now (now st + dt) st)))).
  generalize (set_now (now st + dt) st).
  intros s l. revert s. induction l as [|t l IH]; intros s; cbn.
  - apply noNewOpen_refl.
  - eapply noNewOpen_trans; [apply fireTimer_noNewOpen | apply IH].
Qed.

(** A source that is open after a step was open before it, unless the step
    is the sending of a non-blank text and the source is the new one. *)
Lemma step_opens (env : Env) (ev : Event) (st : State) (h : nat) (es : EventSource) :
  openSource (step env ev st) h es ->
  (exists es0, openSource st h es0)
  \/ (exists text uuid1 uuid2,
        ev = Send text uuid1 uuid2
        /\ Js.allWhiteSpace (textOf text st) = false
        /\ h = List.length (eventSources st)).
Proof.
  destruct ev as [s|text uuid1 uuid2|k e|dt|]; cbn [step]; intros O.
  - left. exact (noNewOpen_same st _ eq_refl _ _ O).
  - destruct (Js.allWhiteSpace (textOf text st)) eqn:B.
    + left. rewrite handleSendMessage_blank_eq in O by exact B. eauto.
    + revert O. unfold handleSendMessage. fold (textOf text st).
      rewrite (nonblank_truthy _ B). cbn [negb].
      match goal with |- context [validUrl env ?u] => destruct (validUrl env u) end.
      * intros [H C]. cbn -[cleanupStream] in H. apply nth_error_snoc in H.
        destruct H as [H | [E _]].
        -- left. apply (cleanupStream_noNewOpen st h es). split; assumption.
        -- right. exists text, uuid1, uuid2.
           rewrite cleanupStream_sources_length in E. auto.
      * intros O. left.
        apply handleStreamError_noNewOpen in O. destruct O as [x [H C]].
        apply (cleanupStream_noNewOpen st h x). split; assumption.
  - left. exact (dispatch_noNewOpen _ _ _ _ _ O).
  - left. exact (elapse_noNewOpen _ _ _ _ O).
  - left. exact (cleanupStream_noNewOpen _ _ _ O).
Qed.

Lemma terminating_tornDown (env : Env) (st : State) (ev : Event) :
  refsOwn st -> terminating env st ev -> tornDown (step env ev st).
Proof.
  intros Own T. destruct T as [h es O | h es O L | h es data O I
                              | text uuid1 uuid2 B V | | t tm dt H P D]; cbn [step].
  - rewrite (dispatch_open _ _ _ _ O). now apply cleanupStream_tornDown.
  - rewrite (dispatch_error_bound _ _ _ O L). apply handleStreamError_tornDown.
    revert Own. apply refsOwn_ext; reflexivity.
  - rewrite (dispatch_open _ _ _ _ O). unfold onmessage.
    rewrite (includes_truthy _ I), I.
    apply handleStreamError_tornDown, startChunkTimeout_refsOwn, Own.
  - unfold handleSendMessage. fold (textOf text st).
    rewrite (nonblank_truthy _ B). cbn [negb].
    destruct (cleanupStream_frame st) as [_ [_ [_ [F4 _]]]].
    cbn -[cleanupStream streamUrl handleStreamError]. rewrite F4, V.
    apply handleStreamError_tornDown.
    pose proof (tornDown_refsOwn _ (cleanupStream_tornDown st Own)) as O'.
    revert O'. apply refsOwn_ext; reflexivity.
  - now apply cleanupStream_tornDown.
  - pose proof (proj2 Own _ _ H P) as R.
    rewrite (elapse_owned _ _ Own), R. unfold fireTimer. cbn [timers set_now now].
    rewrite H, P. destruct (N.leb_spec (deadline tm) (now st + dt)) as [G|G]; [|lia].
    cbn [andb]. apply chunkTimeoutCallback_tornDown.
    apply (unpend_refsOwn _ (set_now (now st + dt) st)).
    revert Own. apply refsOwn_ext; reflexivity.
Qed.

(** C4.  Lifecycle of the streaming connection, in every reachable state:
    a source that is open after a step was open before, or was opened by
    that step, which is then the sending of a non-blank text; sending a
    non-blank text (with a stream URL the browser accepts) opens exactly
    one source, kept in [eventSourceRef], and leaves no other source open;
    and after each terminating event (the "done" event, a reported stream
    failure, the unmount, the inactivity timeout) [eventSourceRef] and
    [chunkTimeoutRef] are null, [isLoading] is false, every source is
    closed and no timer is pending. *)
Theorem stream_lifecycle (env : Env) (st : State) :
  reachable env st ->
  (forall ev h es,
     openSource (step env ev st) h es ->
     (exists es0, openSource st h es0)
     \/ (exists text uuid1 uuid2,
           ev = Send text uuid1 uuid2
           /\ Js.allWhiteSpace (textOf text st) = false
           /\ h = List.length (eventSources st)))
  /\ (forall text uuid1 uuid2,
        Js.allWhiteSpace (textOf text st) = false ->
        validUrl env (streamUrl env (thread_id st) (textOf text st)) = true ->
        let st' := step env (Send text uuid1 uuid2) st in
        let h := List.length (eventSources st) in
        eventSourceRef st' = Some h
        /\ openSource st' h
             {| es_url := streamUrl env (thread_id st) (textOf text st);
                closed := false; assistantMessageId := uuid2; fullMessage := "" |}
        /\ List.length (eventSources st') = S h
        /\ (forall k es, openSource st' k es -> k = h))
  /\ (forall ev, terminating env st ev -> tornDown (step env ev st)).
Proof.
  intros Rch. pose proof (reachable_refsOwn _ _ Rch) as Own.
  split; [|split].
  - intros ev h es. apply step_opens.
  - intros text uuid1 uuid2 B V. cbn zeta. cbn [step].
    destruct (handleSendMessage_opens env text uuid1 uuid2 st B V)
      as [O [E [_ [_ [_ [_ [_ L]]]]]]].
    repeat split; try assumption; try apply O.
    intros k es Ok.
    pose proof (handleSendMessage_refsOwn env text uuid1 uuid2 st Own) as Own'.
    pose proof (openSource_ref _ _ _ Own' Ok) as R. congruence.
  - intros ev. now apply terminating_tornDown.
Qed.

(** ** The chat on concrete traces *)

Example chat_completes :
  let st := run Samples.chatEnv
              [Send (Some "hello") "u-1" "a-1";
               Sse 0 (SseMessage "Hel"); Elapse 29999; Sse 0 SseError;
               Sse 0 (SseMessage "lo"); Sse 0 SseDone; Sse 0 (SseMessage "late")]
              Samples.chat0 in
  map Message.content (messages st)
    = ["Hello! I'm your job search assistant. How can I help you today?";
       "hello"; "Hello"]
  /\ eventSourceRef st = None /\ chunkTimeoutRef st = None /\ isLoading st = false
  /\ map closed (eventSources st) = [true] /\ map pending (timers st) = [false; false]
  /\ retryCountRef st = 1%Z.
Proof. repeat split; reflexivity. Qed.

Example chat_times_out :
  let st := run Samples.chatEnv
              [Send (Some "hello") "u-1" "a-1"; Sse 0 (SseMessage "Hel"); Elapse 30000]
              Samples.chat0 in
  map Message.content (messages st)
    = ["Hello! I'm your job search assistant. How can I help you today?";
       "hello";
       ("Hel" ++ Js.LF ++ "[Error: Response timeout - No data received for 30 seconds]")%string]
  /\ map Message.error (messages st) = [None; None; Some true]
  /\ map closed (eventSources st) = [true].
Proof. repeat split; reflexivity. Qed.

Example chat_gives_up :
  let st := run Samples.chatEnv
              [Send (Some "hello") "u-1" "a-1"; Sse 0 SseError; Sse 0 SseError; Sse 0 SseError]
              Samples.chat0 in
  map Message.content (messages st)
    = ["Hello! I'm your job search assistant. How can I help you today?";
       "hello";
       (Js.LF ++ "[Error: Connection failed after multiple retries]")%string]
  /\ retryCountRef st = 3%Z /\ map closed (eventSources st) = [true].
Proof. repeat split; reflexivity. Qed.

Example chat_resend_resets :
  let st := run Samples.chatEnv
              [Send (Some "hello") "u-1" "a-1"; Sse 0 SseError; Sse 0 SseError;
               TypeInput "again"; Send None "u-2" "a-2"]
              Samples.chat0 in
  retryCountRef st = 0%Z /\ map closed (eventSources st) = [true; false]
  /\ eventSourceRef st = Some 1%nat /\ input st = "".
Proof. repeat split; reflexivity. Qed.

Lemma chatSent_reachable : reachable Samples.chatEnv Samples.chatSent.
Proof. apply reachable_step, reachable_init. Qed.

Lemma chatSent_open : openSource Samples.chatSent 0 Samples.chatSource.
Proof. split; reflexivity. Qed.

Lemma handleSendMessage_blank_witness :
  Js.allWhiteSpace (textOf (Some ("  " ++ Js.LF)%string) Samples.chat0) = true
  /\ handleSendMessage Samples.chatEnv (Some ("  " ++ Js.LF)%string) "u-1" "a-1"
       Samples.chat0 = Samples.chat0.
Proof.
  split; [reflexivity|].
  exact (proj1 (handleSendMessage_blank Samples.chatEnv (Some ("  " ++ Js.LF)%string)
                  "u-1" "a-1" Samples.chat0 eq_refl)).
Defined.

Lemma chunks_accumulate_witness :
  Js.allWhiteSpace (textOf (Some "hello") Samples.chat0) = false
  /\ forallb benign ["Hel"; "lo"; " there"] = true
  /\ exists m,
       In m (messages (deliver 0 (map SseMessage (firstn 2 ["Hel"; "lo"; " there"]))
                         Samples.chatSent))
       /\ Message.id m = "a-1" /\ Message.role m = assistant
       /\ Message.content m = "Hello".
Proof.
  split; [reflexivity|]. split; [reflexivity|].
  exact (proj1 (proj2
    (chunks_accumulate Samples.chatEnv (Some "hello") "u-1" "a-1" Samples.chat0
       ["Hel"; "lo"; " there"] 2 eq_refl eq_refl eq_refl
       (conj (le_S _ _ (le_n 1)) (le_S _ _ (le_n 2)))))).
Defined.

Lemma inactivity_timeout_witness :
  reachable Samples.chatEnv Samples.chatSent
  /\ openSource Samples.chatSent 0 Samples.chatSource
  /\ benign "Hel" = true
  /\ tornDown (elapse 30000 (dispatch 0 (SseMessage "Hel") Samples.chatSent)).
Proof.
  split; [exact chatSent_reachable|]. split; [exact chatSent_open|].
  split; [reflexivity|].
  destruct (inactivity_timeout Samples.chatEnv Samples.chatSent 0 Samples.chatSource
              "Hel" chatSent_reachable chatSent_open eq_refl) as [_ [_ H]].
  apply (H 30000%N). apply N.le_refl.
Defined.

Lemma retries_bounded_witness :
  reachable Samples.chatEnv Samples.chat0
  /\ Js.allWhiteSpace (textOf (Some "hello") Samples.chat0) = false
  /\ forallb inProgress [SseError; SseMessage "Hel"; SseError] = true
  /\ retryCountRef (deliver 0 [SseError; SseMessage "Hel"; SseError] Samples.chatSent) = 2%Z
  /\ tornDown
       (dispatch 0 SseError
          (deliver 0 [SseError; SseMessage "Hel"; SseError] Samples.chatSent)).
Proof.
  split; [apply reachable_init|]. split; [reflexivity|]. split; [reflexivity|].
  destruct (retries_bounded Samples.chatEnv (Some "hello") "u-1" "a-1" Samples.chat0
              [SseError; SseMessage "Hel"; SseError]
              (reachable_init _ _ _) eq_refl eq_refl eq_refl)
    as [_ [_ [Hlt Heq]]].
  split.
  - apply Hlt. reflexivity.
  - apply (Heq eq_refl).
Defined.

Lemma backend_error_chunk_witness :
  reachable Samples.chatEnv Samples.chatSent
  /\ openSource Samples.chatSent 0 Samples.chatSource
  /\ Js.includes "oops [Error: model down]" "[Error:" = true
  /\ tornDown (dispatch 0 (SseMessage "oops [Error: model down]") Samples.chatSent).
Proof.
  split; [exact chatSent_reachable|]. split; [exact chatSent_open|].
  split; [reflexivity|].
  exact (proj1 (proj2 (proj2
    (backend_error_chunk Samples.chatEnv Samples.chatSent 0 Samples.chatSource
       "oops [Error: model down]" chatSent_reachable chatSent_open eq_refl)))).
Defined.

Lemma stream_lifecycle_witness :
  reachable Samples.chatEnv Samples.chatSent
  /\ terminating Samples.chatEnv Samples.chatSent (Sse 0 SseDone)
  /\ tornDown (step Samples.chatEnv (Sse 0 SseDone) Samples.chatSent)
  /\ tornDown (step Samples.chatEnv Unmount Samples.chatSent).
Proof.
  split; [exact chatSent_reachable|].
  pose proof (term_done Samples.chatEnv Samples.chatSent 0 Samples.chatSource
                chatSent_open) as T.
  split; [exact T|].
  destruct (stream_lifecycle Samples.chatEnv Samples.chatSent chatSent_reachable)
    as [_ [_ H]].
  split; [exact (H _ T) | exact (H _ (term_unmount _ _))].
Defined.

End ChatFacts.

(* ================================================================== *)
(** * The chat page: invariants of its reachable states *)
(* ================================================================== *)

Module ChatInvariants.
Import Chat ChatView ChatFacts.

Lemma handleStreamError_frame (messageId errorMsg : string) (st : State) :
  retryCountRef (handleStreamError messageId errorMsg st) = retryCountRef st
  /\ now (handleStreamError messageId errorMsg st) = now st
  /\ input (handleStreamError messageId errorMsg st) = input st
  /\ thread_id (handleStreamError messageId errorMsg st) = thread_id st.
Proof.
  unfold handleStreamError.
  destruct (cleanupStream_frame
              (setMessages (map (appendError messageId
                 (Js.LF ++ "[Error: " ++ errorMsg ++ "]")%string)) st))
    as [_ [F2 [F3 [F4 F5]]]].
  rewrite F2, F3, F4, F5. auto.
Qed.

Lemma chunkTimeoutCallback_frame (messageId : string) (st : State) :
  retryCountRef (chunkTimeoutCallback messageId st) = retryCountRef st
  /\ now (chunkTimeoutCallback messageId st) = now st
  /\ input (chunkTimeoutCallback messageId st) = input st.
Proof.
  unfold chunkTimeoutCallback.
  destruct (cleanupStream_frame
              (setMessages (map (appendError messageId timeoutText)) st))
    as [_ [F2 [F3 [_ F5]]]].
  rewrite F2, F3, F5. auto.
Qed.

Lemma tornDown_coherent (st : State) :
  tornDown st -> (0 <= retryCountRef st <= MAX_RETRIES)%Z -> coherent st.
Proof.
  intros T R. pose proof (tornDown_refsOwn _ T) as O.
  destruct T as [T1 [T2 [T3 _]]].
  unfold coherent, streaming. rewrite T1, T2, T3.
  repeat split; try assumption; try apply R; try apply O;
    try discriminate; intros; discriminate.
Qed.

Lemma handleSendMessage_retry (env : Env) text uuid1 uuid2 (st : State) :
  Js.allWhiteSpace (textOf text st) = false ->
  retryCountRef (handleSendMessage env text uuid1 uuid2 st) = 0%Z.
Proof.
  intros B. unfold handleSendMessage. fold (textOf text st).
  rewrite (nonblank_truthy _ B). cbn [negb].
  match goal with |- context [validUrl env ?u] => destruct (validUrl env u) end.
  - reflexivity.
  - match goal with |- retryCountRef (handleStreamError ?a ?b ?s) = _ =>
      destruct (handleStreamError_frame a b s) as [F _]; rewrite F end.
    reflexivity.
Qed.

Lemma retry_range_0 : (0 <= 0 <= MAX_RETRIES)%Z.
Proof. unfold MAX_RETRIES. lia. Qed.

Lemma handleSendMessage_coherent (env : Env) text uuid1 uuid2 (st : State) :
  coherent st -> coherent (handleSendMessage env text uuid1 uuid2 st).
Proof.
  intros C. destruct (Js.allWhiteSpace (textOf text st)) eqn:B.
  - now rewrite handleSendMessage_blank_eq.
  - pose proof (handleSendMessage_retry env text uuid1 uuid2 st B) as R0.
    destruct (validUrl env (streamUrl env (thread_id st) (textOf text st))) eqn:V.
    + destruct (handleSendMessage_opens env text uuid1 uuid2 st B V)
        as [O [E [T [_ [L _]]]]].
      pose proof (handleSendMessage_refsOwn env text uuid1 uuid2 st (proj1 C)) as Own.
      unfold coherent, streaming. rewrite E, T, L, R0.
      repeat split; try assumption; try apply Own; try (unfold MAX_RETRIES; lia).
      * intros h [= <-]. eauto.
      * intros t [=].
    + apply tornDown_coherent.
      * apply (terminating_tornDown env st (Send text uuid1 uuid2) (proj1 C)).
        now apply term_connect.
      * rewrite R0. apply retry_range_0.
Qed.

Lemma dispatch_coherent (h : nat) (ev : SseEvent) (st : State) :
  coherent st -> coherent (dispatch h ev st).
Proof.
  intros C. pose proof C as [Own [Hb [Hc [Hd [He Hf]]]]].
  destruct (nth_error (eventSources st) h) as [es|] eqn:E;
    [|unfold dispatch; now rewrite E].
  destruct (closed es) eqn:Cl; [unfold dispatch; now rewrite E, Cl|].
  assert (O : openSource st h es) by (split; assumption).
  pose proof (openSource_ref _ _ _ Own O) as R.
  assert (S : streaming st = true) by (unfold streaming; now rewrite R).
  destruct ev as [data| |].
  - destruct (Js.truthy data) eqn:T.
    + destruct (Js.includes data "[Error:") eqn:I.
      * apply tornDown_coherent.
        -- apply (terminating_tornDown {| NEXT_PUBLIC_CHAT_URL := ""; validUrl := fun _ => true |}
                    st (Sse h (SseMessage data)) Own).
           eapply term_backend; eauto.
        -- rewrite (dispatch_open _ _ _ _ O). unfold onmessage. rewrite T, I.
           destruct (handleStreamError_frame (assistantMessageId es) data
                       (startChunkTimeout (assistantMessageId es) st)) as [F _].
           rewrite F.
           destruct (startChunkTimeout_frame (assistantMessageId es) st)
             as [_ [_ [_ [_ [F5 _]]]]].
           now rewrite F5.
      * assert (B : benign data = true) by (unfold benign; now rewrite T, I).
        destruct (dispatch_chunk st h es data O B)
          as [O1 [_ [R1 [E1 [L1 [_ [N1 T1]]]]]]].
        pose proof (dispatch_chunk_timer st h es data O B) as Tm.
        pose proof (dispatch_refsOwn h (SseMessage data) st Own) as Own1.
        unfold coherent, streaming. rewrite R1, E1, L1, T1, N1, R.
        repeat split; try apply Own1; try apply He.
        -- intros k [= <-]. eauto.
        -- unfold streaming in Hc. now rewrite R in Hc.
        -- intros t [= <-]. do 3 eexists.
           split; [exact Tm|]. split; [reflexivity|]. split; [exact O1|].
           split; [reflexivity|]. cbn [deadline]. unfold CHUNK_TIMEOUT. lia.
        -- intros _. now apply Hf.
    + assert (D : dispatch h (SseMessage data) st = st).
      { rewrite (dispatch_open _ _ _ _ O). unfold onmessage. now rewrite T. }
      now rewrite D.
  - specialize (Hf S).
    destruct (Z.le_gt_cases MAX_RETRIES (retryCountRef st + 1)) as [G|L].
    + apply tornDown_coherent.
      * apply (terminating_tornDown {| NEXT_PUBLIC_CHAT_URL := ""; validUrl := fun _ => true |}
                 st (Sse h SseError) Own).
        eapply term_retries; eauto.
      * rewrite (dispatch_error_bound _ _ _ O G).
        match goal with |- context [handleStreamError ?a ?b ?s] =>
          destruct (handleStreamError_frame a b s) as [F _]; rewrite F end.
        cbn. lia.
    + rewrite (dispatch_error_below _ _ _ O L).
      unfold coherent, streaming in *. cbn.
      repeat split; try apply Own; try assumption; try lia.
  - apply tornDown_coherent.
    + rewrite (dispatch_open _ _ _ _ O). now apply cleanupStream_tornDown.
    + rewrite (dispatch_open _ _ _ _ O). unfold ondone.
      destruct (cleanupStream_frame st) as [_ [_ [F _]]]. now rewrite F.
Qed.

Lemma set_now_coherent_none (x : N) (st : State) :
  coherent st -> chunkTimeoutRef st = None -> coherent (set_now x st).
Proof.
  intros [Own [Hb [Hc [Hd [He Hf]]]]] T.
  unfold coherent, streaming in *. cbn. rewrite T.
  repeat split; try apply Own; try assumption; try apply He.
  intros t [=].
Qed.

Lemma elapse_coherent (dt : N) (st : State) :
  coherent st -> coherent (elapse dt st).
Proof.
  intros C. pose proof C as [Own [Hb [Hc [Hd [He Hf]]]]].
  rewrite (elapse_owned _ _ Own).
  destruct (chunkTimeoutRef st) as [t|] eqn:T;
    [|now apply set_now_coherent_none].
  destruct (Hd t eq_refl) as [tm [h [es [Ht [P [O [A [D1 D2]]]]]]]].
  unfold fireTimer. cbn [timers set_now now]. rewrite Ht, P. cbn [andb].
  destruct (N.leb_spec (deadline tm) (now st + dt)) as [G|G].
  - apply tornDown_coherent.
    + apply chunkTimeoutCallback_tornDown.
      apply (unpend_refsOwn _ (set_now (now st + dt) st)).
      revert Own. apply refsOwn_ext; reflexivity.
    + match goal with |- context [chunkTimeoutCallback ?a ?s] =>
        destruct (chunkTimeoutCallback_frame a s) as [F _]; rewrite F end.
      exact He.
  - unfold coherent, streaming in *. cbn. rewrite T.
    repeat split; try apply Own; try assumption; try apply He.
    intros t' [= <-]. exists tm, h, es.
    repeat split; try assumption; try apply O. lia.
Qed.

Lemma step_coherent (env : Env) (ev : Event) (st : State) :
  coherent st -> coherent (step env ev st).
Proof.
  intros C. destruct ev; cbn [step].
  - destruct C as [Own [Hb [Hc [Hd [He Hf]]]]].
    unfold coherent, streaming in *. cbn.
    repeat split; try apply Own; try assumption; try apply He.
  - now apply handleSendMessage_coherent.
  - now apply dispatch_coherent.
  - now apply elapse_coherent.
  - apply tornDown_coherent.
    + apply cleanupStream_tornDown, C.
    + destruct (cleanupStream_frame st) as [_ [_ [F _]]]. rewrite F. apply C.
Qed.

Lemma reachable_coherent (env : Env) (st : State) :
  reachable env st -> coherent st.
Proof.
  induction 1 as [thread t0 | ev st _ IH].
  - apply tornDown_coherent; [|apply retry_range_0].
    repeat split; intros [|k] x H; discriminate H.
  - now apply step_coherent.
Qed.

End ChatInvariants.

(* ================================================================== *)
(** * The chat page: further properties *)
(* ================================================================== *)

Module ChatExtra.
Import Chat ChatView ChatFacts ChatInvariants.

(** X1.  In every reachable state the [isLoading] flag, which disables the
    form, is set exactly while a source is open; and then that source is
    the only open one and is the one held in [eventSourceRef]. *)
Theorem loading_iff_streaming (env : Env) (st : State) :
  reachable env st ->
  (isLoading st = true <-> exists h es, openSource st h es)
  /\ (forall h es, openSource st h es -> eventSourceRef st = Some h)
  /\ (isLoading st = false -> allClosed st /\ eventSourceRef st = None).
Proof.
  intros Rch. destruct (reachable_coherent _ _ Rch) as [Own [Hb [Hc _]]].
  unfold streaming in Hc. split; [|split].
  - rewrite Hc. split.
    + destruct (eventSourceRef st) as [h|] eqn:E; [|discriminate].
      intros _. destruct (Hb h eq_refl) as [es O]. eauto.
    + intros [h [es O]]. now rewrite (openSource_ref _ _ _ Own O).
  - intros h es. now apply openSource_ref.
  - intros L. rewrite L in Hc.
    destruct (eventSourceRef st) as [h|] eqn:E; [discriminate|].
    split; [|reflexivity].
    intros h es H. destruct (closed es) eqn:Cl; [reflexivity|].
    assert (O : openSource st h es) by (split; assumption).
    pose proof (openSource_ref _ _ _ Own O). congruence.
Qed.

(** X2.  In every reachable state a pending timer was armed for the stream
    that is open now (its callback names that stream's assistant message),
    it is the one held in [chunkTimeoutRef], it is not overdue, and it
    fires at most CHUNK_TIMEOUT ms from now. *)
Theorem pending_timer_of_open_stream (env : Env) (st : State) (t : nat) (tm : Timer) :
  reachable env st ->
  nth_error (timers st) t = Some tm ->
  pending tm = true ->
  chunkTimeoutRef st = Some t
  /\ (exists h es, openSource st h es
                   /\ timerMessageId tm = assistantMessageId es)
  /\ (now st < deadline tm <= now st + 30000)%N.
Proof.
  intros Rch H P. destruct (reachable_coherent _ _ Rch) as [Own [_ [_ [Hd _]]]].
  pose proof (proj2 Own _ _ H P) as R.
  destruct (Hd t R) as [tm' [h [es [Ht [_ [O [A D]]]]]]].
  assert (tm' = tm) by congruence. subst tm'.
  split; [exact R|]. split; [eauto|exact D].
Qed.

(** X3.  In every reachable state the retry counter lies between 0 and
    MAX_RETRIES = 3, and it is below 3 while a source is open. *)
Theorem retry_count_in_range (env : Env) (st : State) :
  reachable env st ->
  (0 <= retryCountRef st <= 3)%Z
  /\ (forall h es, openSource st h es -> (retryCountRef st < 3)%Z).
Proof.
  intros Rch. destruct (reachable_coherent _ _ Rch) as [Own [_ [_ [_ [He Hf]]]]].
  split; [exact He|].
  intros h es O. apply Hf. unfold streaming.
  now rewrite (openSource_ref _ _ _ Own O).
Qed.

(** ** Time *)

Lemma cleanupStream_set_now (x : N) (st : State) :
  cleanupStream (set_now x st) = set_now x (cleanupStream st).
Proof.
  unfold cleanupStream. cbn.
  destruct (eventSourceRef st) eqn:E1, (chunkTimeoutRef st) eqn:E2;
    cbn; rewrite ?E2; reflexivity.
Qed.

Lemma chunkTimeoutCallback_set_now (x : N) (messageId : string) (st : State) :
  chunkTimeoutCallback messageId (set_now x st)
  = set_now x (chunkTimeoutCallback messageId st).
Proof.
  unfold chunkTimeoutCallback.
  rewrite <- cleanupStream_set_now. reflexivity.
Qed.

Lemma fireTimer_again (t : nat) (x y : N) (st : State) :
  refsOwn st -> (x <= y)%N ->
  fireTimer t (set_now y (fireTimer t (set_now x st))) = fireTimer t (set_now y st).
Proof.
  intros Own L. unfold fireTimer at 2. cbn [timers set_now now].
  destruct (nth_error (timers st) t) as [tm|] eqn:H;
    [|unfold fireTimer; cbn [timers set_now]; now rewrite H].
  destruct (pending tm) eqn:P; cbn [andb];
    [|unfold fireTimer; cbn [timers set_now]; now rewrite H, P].
  destruct (N.leb_spec (deadline tm) x) as [G|G].
  - assert (T : tornDown
                  (set_now y
                     (chunkTimeoutCallback (timerMessageId tm)
                        (set_timers (updateAt t unpend (timers st)) (set_now x st))))).
    { rewrite <- chunkTimeoutCallback_set_now.
      apply chunkTimeoutCallback_tornDown.
      apply (unpend_refsOwn t (set_now y st)).
      revert Own. apply refsOwn_ext; reflexivity. }
    rewrite fireTimer_skip;
      [| now apply tornDown_refsOwn
       | destruct T as [_ [T _]]; rewrite T; discriminate].
    unfold fireTimer. cbn [timers set_now now]. rewrite H, P. cbn [andb].
    destruct (N.leb_spec (deadline tm) y) as [G'|G']; [|lia].
    rewrite <- chunkTimeoutCallback_set_now. reflexivity.
  - reflexivity.
Qed.

(** X4.  Time composes: letting [a] ms pass and then [b] ms, with no event
    in between, is letting [a + b] ms pass. *)
Theorem elapse_elapse (env : Env) (st : State) (a b : N) :
  reachable env st ->
  elapse b (elapse a st) = elapse (a + b) st.
Proof.
  intros Rch. pose proof (reachable_refsOwn _ _ Rch) as Own.
  pose proof (elapse_refsOwn a st Own) as Own'.
  rewrite (elapse_owned b _ Own'), (elapse_owned a _ Own), (elapse_owned (a + b) _ Own).
  destruct (chunkTimeoutRef st) as [t|] eqn:T.
  - destruct (fireTimer_cases t (set_now (now st + a) st)) as [E|Td].
    { revert Own. apply refsOwn_ext; reflexivity. }
    + rewrite E. cbn [chunkTimeoutRef set_now now]. rewrite T.
      rewrite N.add_assoc. reflexivity.
    + pose proof Td as [_ [T2 _]]. rewrite T2.
      assert (F : fireTimer t (set_now (now st + a + b)
                                 (fireTimer t (set_now (now st + a) st)))
                  = fireTimer t (set_now (now st + a + b) st)).
      { apply fireTimer_again; [exact Own | lia]. }
      rewrite fireTimer_skip in F;
        [| apply tornDown_refsOwn; destruct Td as [A [B [C [D E]]]];
           repeat split; assumption
         | cbn; rewrite T2; discriminate].
      rewrite <- N.add_assoc in F. rewrite <- F.
      assert (Nw : now (fireTimer t (set_now (now st + a) st)) = (now st + a)%N).
      { unfold fireTimer. cbn [timers set_now].
        destruct (nth_error (timers st) t) as [tm|]; [|reflexivity].
        destruct (_ && _); [|reflexivity].
        match goal with |- context [chunkTimeoutCallback ?m ?s] =>
          destruct (chunkTimeoutCallback_frame m s) as [_ [F2 _]]; rewrite F2 end.
        reflexivity. }
      rewrite Nw, N.add_assoc. reflexivity.
  - cbn [chunkTimeoutRef set_now now]. rewrite T, N.add_assoc. reflexivity.
Qed.

(** X5.  The inactivity timer is armed by the first chunk only: after a
    message is sent, however long the server stays silent, nothing happens
    but the passing of time; the form stays disabled and the placeholder
    keeps loading. *)
Theorem silent_server_never_times_out (env : Env) (text : option string)
    (uuid1 uuid2 : string) (st : State) (dt : N) :
  reachable env st ->
  Js.allWhiteSpace (textOf text st) = false ->
  validUrl env (streamUrl env (thread_id st) (textOf text st)) = true ->
  let st0 := handleSendMessage env text uuid1 uuid2 st in
  noneArmed st0
  /\ elapse dt st0 = set_now (now st0 + dt) st0
  /\ isLoading (elapse dt st0) = true
  /\ messages (elapse dt st0) = messages st0.
Proof.
  intros Rch B V. cbn zeta.
  pose proof (reachable_refsOwn _ _ Rch) as Own.
  pose proof (handleSendMessage_refsOwn env text uuid1 uuid2 st Own) as Own0.
  destruct (handleSendMessage_opens env text uuid1 uuid2 st B V)
    as [_ [_ [T [_ [L _]]]]].
  set (st0 := handleSendMessage env text uuid1 uuid2 st) in *.
  assert (E : elapse dt st0 = set_now (now st0 + dt) st0)
    by (rewrite (elapse_owned _ _ Own0), T; reflexivity).
  split; [|split; [exact E | rewrite E; split; [exact L | reflexivity]]].
  intros t tm H. destruct (pending tm) eqn:P; [|reflexivity].
  pose proof (proj2 Own0 _ _ H P). congruence.
Qed.

(** ** The conversation only grows *)

Lemma key_setContent (messageId full : string) (m : Message.t) :
  key (setContent messageId full m) = key m.
Proof. unfold setContent. destruct (_ =? _)%string; reflexivity. Qed.

Lemma key_appendError (messageId text : string) (m : Message.t) :
  key (appendError messageId text m) = key m.
Proof. unfold appendError. destruct (_ =? _)%string; reflexivity. Qed.

Lemma keys_appendError (messageId text : string) (l : list Message.t) :
  map key (map (appendError messageId text) l) = map key l.
Proof. rewrite map_map. apply map_ext. intros m. apply key_appendError. Qed.

Lemma keys_handleStreamError (messageId errorMsg : string) (st : State) :
  map key (messages (handleStreamError messageId errorMsg st)) = map key (messages st).
Proof.
  unfold handleStreamError.
  match goal with |- context [cleanupStream ?s] =>
    destruct (cleanupStream_frame s) as [F _]; rewrite F end.
  apply keys_appendError.
Qed.

Lemma keys_dispatch (h : nat) (ev : SseEvent) (st : State) :
  map key (messages (dispatch h ev st)) = map key (messages st).
Proof.
  unfold dispatch.
  destruct (nth_error (eventSources st) h) as [es|]; [|reflexivity].
  destruct (closed es); [reflexivity|].
  destruct ev as [data| |].
  - unfold onmessage. destruct (Js.truthy data); [|reflexivity].
    destruct (startChunkTimeout_frame (assistantMessageId es) st) as [F _].
    destruct (Js.includes data "[Error:").
    + rewrite keys_handleStreamError. now rewrite F.
    + cbn -[startChunkTimeout]. rewrite F, map_map.
      apply map_ext. intros m. apply key_setContent.
  - unfold onerror. cbn zeta. destruct (_ <=? _)%Z; [|reflexivity].
    now rewrite keys_handleStreamError.
  - unfold ondone. destruct (cleanupStream_frame st) as [F _]. now rewrite F.
Qed.

Lemma keys_fireTimer (t : nat) (st : State) :
  map key (messages (fireTimer t st)) = map key (messages st).
Proof.
  unfold fireTimer.
  destruct (nth_error (timers st) t) as [tm|]; [|reflexivity].
  destruct (_ && _); [|reflexivity].
  unfold chunkTimeoutCallback.
  match goal with |- context [cleanupStream ?s] =>
    destruct (cleanupStream_frame s) as [F _]; rewrite F end.
  apply keys_appendError.
Qed.

Lemma keys_elapse (dt : N) (st : State) :
  map key (messages (elapse dt st)) = map key (messages st).
Proof.
  unfold elapse.
  change (messages st) with (messages (set_now (now st + dt) st)).
  generalize (seq 0 (List.length (timers (set_now (now st + dt) st)))).
  generalize (set_now (now st + dt) st).
  intros s l. revert s. induction l as [|t l IH]; intros s; cbn; [reflexivity|].
  rewrite IH. apply keys_fireTimer.
Qed.

Lemma keys_step (env : Env) (ev : Event) (st : State) :
  exists extra,
    map key (messages (step env ev st)) = map key (messages st) ++ extra
    /\ (extra = []
        \/ exists text uuid1 uuid2,
             ev = Send text uuid1 uuid2
             /\ Js.allWhiteSpace (textOf text st) = false
             /\ extra = [(uuid1, user, now st); (uuid2, assistant, now st)]).
Proof.
  destruct ev as [s|text uuid1 uuid2|h e|dt|]; cbn [step].
  - exists []. rewrite app_nil_r. auto.
  - destruct (Js.allWhiteSpace (textOf text st)) eqn:B.
    + rewrite handleSendMessage_blank_eq by exact B.
      exists []. rewrite app_nil_r. auto.
    + exists [(uuid1, user, now st); (uuid2, assistant, now st)]. split.
      * unfold handleSendMessage. fold (textOf text st).
        rewrite (nonblank_truthy _ B). cbn [negb].
        destruct (cleanupStream_frame st) as [F1 [_ [_ [_ F5]]]].
        match goal with |- context [validUrl env ?u] => destruct (validUrl env u) end.
        -- cbn -[cleanupStream]. rewrite F1, F5, map_app. reflexivity.
        -- rewrite keys_handleStreamError. cbn -[cleanupStream].
           rewrite F1, F5, map_app. reflexivity.
      * right. exists text, uuid1, uuid2. auto.
  - exists []. rewrite app_nil_r, keys_dispatch. auto.
  - exists []. rewrite app_nil_r, keys_elapse. auto.
  - exists []. rewrite app_nil_r.
    destruct (cleanupStream_frame st) as [F _]. rewrite F. auto.
Qed.

(** X6.  The conversation only grows.  Whatever happens, the messages
    already shown keep their place, id, role and time; one event adds
    messages only when it is the sending of a non-blank text, and then
    exactly the user message and the assistant placeholder, in this
    order, at the end. *)
Theorem conversation_only_grows (env : Env) (evs : list Event) (st : State) :
  (exists extra,
     map key (messages (run env evs st)) = map key (messages st) ++ extra)
  /\ (forall ev, exists extra,
        map key (messages (step env ev st)) = map key (messages st) ++ extra
        /\ (extra = []
            \/ exists text uuid1 uuid2,
                 ev = Send text uuid1 uuid2
                 /\ Js.allWhiteSpace (textOf text st) = false
                 /\ extra = [(uuid1, user, now st); (uuid2, assistant, now st)])).
Proof.
  split; [|intros ev; apply keys_step].
  revert st. induction evs as [|ev evs IH]; intros st.
  - exists []. cbn. now rewrite app_nil_r.
  - cbn. destruct (IH (step env ev st)) as [e2 H2].
    destruct (keys_step env ev st) as [e1 [H1 _]].
    exists (e1 ++ e2). unfold run in H2. rewrite H2, H1, app_assoc. reflexivity.
Qed.

(** X7.  A new message supersedes the stream of the previous one: after a
    non-blank text is sent, every source created before is closed, so no
    event delivered to one of them changes anything, and no timer of the
    earlier stream is left pending. *)
Theorem new_send_supersedes (env : Env) (text : option string)
    (uuid1 uuid2 : string) (st : State) :
  reachable env st ->
  Js.allWhiteSpace (textOf text st) = false ->
  let st0 := handleSendMessage env text uuid1 uuid2 st in
  (forall h es, (h < List.length (eventSources st))%nat ->
     nth_error (eventSources st0) h = Some es -> closed es = true)
  /\ (forall h ev, (h < List.length (eventSources st))%nat ->
        dispatch h ev st0 = st0)
  /\ noneArmed st0.
Proof.
  intros Rch B. cbn zeta.
  pose proof (reachable_refsOwn _ _ Rch) as Own.
  pose proof (handleSendMessage_refsOwn env text uuid1 uuid2 st Own) as Own0.
  assert (T : chunkTimeoutRef (handleSendMessage env text uuid1 uuid2 st) = None).
  { destruct (validUrl env (streamUrl env (thread_id st) (textOf text st))) eqn:V.
    - apply (handleSendMessage_opens env text uuid1 uuid2 st B V).
    - apply (terminating_tornDown env st (Send text uuid1 uuid2) Own).
      now apply term_connect. }
  assert (Cl : forall h es, (h < List.length (eventSources st))%nat ->
               nth_error (eventSources (handleSendMessage env text uuid1 uuid2 st)) h
                 = Some es -> closed es = true).
  { intros h es L H. destruct (closed es) eqn:C; [reflexivity|].
    assert (O : openSource (handleSendMessage env text uuid1 uuid2 st) h es)
      by (split; assumption).
    pose proof (openSource_ref _ _ _ Own0 O) as R.
    destruct (validUrl env (streamUrl env (thread_id st) (textOf text st))) eqn:V.
    - destruct (handleSendMessage_opens env text uuid1 uuid2 st B V) as [_ [E _]].
      rewrite E in R. injection R as R. lia.
    - pose proof (terminating_tornDown env st (Send text uuid1 uuid2) Own
                    (term_connect env st text uuid1 uuid2 B V)) as [E _].
      cbn [step] in E. congruence. }
  split; [exact Cl|]. split.
  - intros h ev L. unfold dispatch.
    destruct (nth_error _ h) as [es|] eqn:H; [|reflexivity].
    now rewrite (Cl h es L H).
  - intros t tm H. destruct (pending tm) eqn:P; [|reflexivity].
    pose proof (proj2 Own0 _ _ H P). congruence.
Qed.

(** X8.  The "done" event changes no message.  So a stream that completes
    before any chunk arrived is torn down with its placeholder left as it
    was created: empty, without error flag, and still marked as loading. *)
Theorem done_before_any_chunk (env : Env) (text : option string)
    (uuid1 uuid2 : string) (st : State) :
  reachable env st ->
  Js.allWhiteSpace (textOf text st) = false ->
  validUrl env (streamUrl env (thread_id st) (textOf text st)) = true ->
  let st0 := handleSendMessage env text uuid1 uuid2 st in
  let st' := dispatch (List.length (eventSources st)) SseDone st0 in
  (forall h s, messages (dispatch h SseDone s) = messages s)
  /\ tornDown st'
  /\ messages st' =
       messages st ++
       [ {| Message.id := uuid1; Message.role := user;
            Message.content := textOf text st; Message.timestamp := now st;
            Message.error := None; Message.isLoading := None |};
         {| Message.id := uuid2; Message.role := assistant;
            Message.content := ""; Message.timestamp := now st;
            Message.error := None; Message.isLoading := Some true |} ].
Proof.
  intros Rch B V. cbn zeta.
  assert (D : forall h s, messages (dispatch h SseDone s) = messages s).
  { intros h s. unfold dispatch.
    destruct (nth_error (eventSources s) h) as [es|]; [|reflexivity].
    destruct (closed es); [reflexivity|].
    unfold ondone. apply cleanupStream_frame. }
  pose proof (reachable_refsOwn _ _ Rch) as Own.
  pose proof (handleSendMessage_refsOwn env text uuid1 uuid2 st Own) as Own0.
  destruct (handleSendMessage_opens env text uuid1 uuid2 st B V)
    as [O [_ [_ [_ [_ [_ [M _]]]]]]].
  split; [exact D|]. split.
  - rewrite (dispatch_open _ _ _ _ O). now apply cleanupStream_tornDown.
  - rewrite D. exact M.
Qed.

(** ** The form *)

Lemma canSubmit_inv (st : State) :
  canSubmit st = true ->
  isLoading st = false /\ Js.allWhiteSpace (input st) = false.
Proof.
  unfold canSubmit. intros H. apply negb_true_iff, orb_false_iff in H.
  destruct H as [L T]. apply negb_false_iff in T. split; [exact L|].
  destruct (Js.allWhiteSpace (input st)) eqn:B; [|reflexivity].
  apply JsFacts.trim_empty_iff in B. rewrite B in T. discriminate.
Qed.

(** X9.  Submitting the form always leaves the send button disabled, so a
    text cannot be sent twice by pressing twice.  And in a reachable state
    where the button is enabled no source is open; submitting then appends
    the typed text as a user message followed by the placeholder, empties
    the field and disables field and button. *)
Theorem submit_disables_the_form (env : Env) (uuid1 uuid2 : string) (st : State) :
  canSubmit (handleSendMessage env None uuid1 uuid2 st) = false
  /\ (reachable env st -> canSubmit st = true ->
      validUrl env (streamUrl env (thread_id st) (input st)) = true ->
      let st' := handleSendMessage env None uuid1 uuid2 st in
      allClosed st
      /\ canType st' = false
      /\ input st' = ""
      /\ exists placeholder,
           messages st' =
             messages st ++
             [ {| Message.id := uuid1; Message.role := user;
                  Message.content := input st; Message.timestamp := now st;
                  Message.error := None; Message.isLoading := None |};
               placeholder ]
           /\ Message.id placeholder = uuid2
           /\ Message.isLoading placeholder = Some true).
Proof.
  split.
  - destruct (Js.allWhiteSpace (textOf None st)) eqn:B.
    + rewrite handleSendMessage_blank_eq by exact B.
      unfold canSubmit. cbn [textOf] in B.
      apply JsFacts.trim_empty_iff in B. rewrite B. cbn.
      now rewrite orb_true_r.
    + assert (I : input (handleSendMessage env None uuid1 uuid2 st) = "").
      { unfold handleSendMessage. fold (textOf None st).
        rewrite (nonblank_truthy _ B). cbn [negb].
        match goal with |- context [validUrl env ?u] => destruct (validUrl env u) end.
        - reflexivity.
        - match goal with |- input (handleStreamError ?a ?b ?s) = _ =>
            destruct (handleStreamError_frame a b s) as [_ [_ [F _]]]; rewrite F end.
          reflexivity. }
      unfold canSubmit. rewrite I. cbn. now rewrite orb_true_r.
  - intros Rch Cs V. cbn zeta.
    destruct (canSubmit_inv _ Cs) as [L B].
    destruct (reachable_coherent _ _ Rch) as [Own [_ [Hc _]]].
    destruct (handleSendMessage_opens env None uuid1 uuid2 st B V)
      as [_ [_ [_ [_ [L' [I [M _]]]]]]].
    split; [|split; [|split]].
    + intros h es H. destruct (closed es) eqn:C; [reflexivity|].
      assert (O : openSource st h es) by (split; assumption).
      pose proof (openSource_ref _ _ _ Own O) as R.
      unfold streaming in Hc. rewrite R, L in Hc. discriminate.
    + unfold canType. now rewrite L'.
    + exact I.
    + eexists. split; [exact M|]. split; reflexivity.
Qed.

(** ** What does not postpone the timeout *)

Lemma quiet_frame (env : Env) (ev : Event) (st : State) :
  quiet ev = true ->
  sparesRetries ev st ->
  timers (step env ev st) = timers st
  /\ chunkTimeoutRef (step env ev st) = chunkTimeoutRef st
  /\ now (step env ev st) = now st
  /\ eventSources (step env ev st) = eventSources st
  /\ messages (step env ev st) = messages st.
Proof.
  intros Q L. destruct ev as [s|text uuid1 uuid2|h e|dt|]; try discriminate Q.
  - cbn. auto 6.
  - cbn [step]. unfold dispatch.
    destruct (nth_error (eventSources st) h) as [es|]; [|auto].
    destruct (closed es); [auto|].
    destruct e as [data| |]; try discriminate Q.
    + cbn in Q. apply negb_true_iff in Q. unfold onmessage. rewrite Q. auto.
    + unfold onerror. cbn zeta. cbn [retryCountRef set_retryCountRef].
      cbn in L.
      destruct (Z.leb_spec MAX_RETRIES (retryCountRef st + 1)); [lia|].
      cbn. auto 6.
Qed.

(** X10.  Only a non-empty chunk postpones the timeout.  Typing, an empty
    chunk, and an error event that leaves retries to spare change neither
    the timers nor the clock; so a pending timer still fires at its
    deadline, and the stream is torn down then. *)
Theorem quiet_events_keep_the_deadline (env : Env) (ev : Event) (st : State)
    (t : nat) (tm : Timer) (dt : N) :
  reachable env st ->
  quiet ev = true ->
  sparesRetries ev st ->
  nth_error (timers st) t = Some tm ->
  pending tm = true ->
  let st' := step env ev st in
  nth_error (timers st') t = Some tm
  /\ chunkTimeoutRef st' = chunkTimeoutRef st
  /\ ((now st + dt < deadline tm)%N -> elapse dt st' = set_now (now st + dt) st')
  /\ ((deadline tm <= now st + dt)%N -> tornDown (elapse dt st')).
Proof.
  intros Rch Q L H P. cbn zeta.
  destruct (quiet_frame env ev st Q L) as [F1 [F2 [F3 _]]].
  assert (Rch' : reachable env (step env ev st)) by now apply reachable_step.
  pose proof (reachable_refsOwn _ _ Rch') as Own'.
  pose proof (reachable_refsOwn _ _ Rch) as Own.
  pose proof (proj2 Own _ _ H P) as R.
  split; [now rewrite F1|]. split; [exact F2|]. split.
  - intros G. rewrite (elapse_owned _ _ Own'), F2, R, F3.
    unfold fireTimer. cbn [timers set_now now]. rewrite F1, H, P. cbn [andb].
    destruct (N.leb_spec (deadline tm) (now st + dt)); [lia | reflexivity].
  - intros G.
    apply (terminating_tornDown env (step env ev st) (Elapse dt) Own').
    apply (term_timeout env _ t tm dt); [now rewrite F1 | exact P | now rewrite F3].
Qed.

End ChatExtra.

(* ================================================================== *)
(** * The communities page: further properties *)
(* ================================================================== *)

Module CommunitiesExtra.
Import Communities CommunitiesView CommunitiesFacts.

Lemma isWhiteSpace_toLowerChar (c : ascii) :
  Js.isWhiteSpace (Js.toLowerChar c) = Js.isWhiteSpace c.
Proof. destruct c as [[] [] [] [] [] [] [] []]; reflexivity. Qed.

Lemma allWhiteSpace_toLowerCase (s : string) :
  Js.allWhiteSpace (Js.toLowerCase s) = Js.allWhiteSpace s.
Proof.
  induction s as [|c r IH]; cbn; [reflexivity|].
  now rewrite isWhiteSpace_toLowerChar, IH.
Qed.

Lemma blank_sameIgnoringCase (a b : string) :
  Js.sameIgnoringCase a b ->
  (Js.trim a =? "")%string = (Js.trim b =? "")%string.
Proof.
  intros H. rewrite !JsFacts.blank_eqb.
  rewrite <- (allWhiteSpace_toLowerCase a), <- (allWhiteSpace_toLowerCase b).
  now rewrite H.
Qed.

(** X11.  The local filter of the joined section: with a blank search term
    every joined community is displayed; otherwise exactly those whose
    name contains the term up to letter case, in their order.  The case of
    the typed term does not matter: two terms that differ by case only
    display the same list. *)
Theorem displayed_joined_filter (p : Page) :
  (forall c, In c (displayedJoinedCommunities p)
             <-> In c (joinedCommunities p)
                 /\ (Js.trim (searchTerm p) = ""
                     \/ Js.containsIgnoringCase (communityName c) (searchTerm p)))
  /\ (forall t1 t2, Js.sameIgnoringCase t1 t2 ->
        displayedJoinedCommunities (withSearchTerm p t1)
        = displayedJoinedCommunities (withSearchTerm p t2))
  /\ (Js.trim (searchTerm p) = "" ->
      displayedJoinedCommunities p = joinedCommunities p).
Proof.
  split; [|split].
  - intros c. unfold displayedJoinedCommunities.
    destruct (Js.trim (searchTerm p) =? "")%string eqn:B.
    + apply String.eqb_eq in B. tauto.
    + apply String.eqb_neq in B.
      rewrite filter_In, JsFacts.includes_lower_spec. tauto.
  - intros t1 t2 H. unfold displayedJoinedCommunities, withSearchTerm.
    cbn [searchTerm setSearchTerm joinedCommunities].
    rewrite (blank_sameIgnoringCase _ _ H).
    destruct (Js.trim t2 =? "")%string; [reflexivity|].
    unfold Js.sameIgnoringCase in H. now rewrite H.
  - intros B. unfold displayedJoinedCommunities. now rewrite B.
Qed.

(** X12.  The recomputation effect with a blank search term: the
    not-joined list becomes the communities of the catalogue whose id is
    not joined, so every id of the catalogue is in one of the two lists and
    in one only; running the effect again changes nothing.  With a
    non-blank term the effect leaves the page alone. *)
Theorem emptySearchEffect_partition (p : Page) :
  (Js.trim (searchTerm p) = "" ->
     (forall c, In c (notJoinedCommunities (emptySearchEffect p))
                <-> In c (allCommunities p)
                    /\ ~ In (communityId c) (ids (joinedCommunities p)))
     /\ (forall i, In i (ids (allCommunities p)) ->
                   In i (ids (joinedCommunities p))
                   \/ In i (ids (notJoinedCommunities (emptySearchEffect p)))))
  /\ emptySearchEffect (emptySearchEffect p) = emptySearchEffect p
  /\ (Js.trim (searchTerm p) <> "" -> emptySearchEffect p = p).
Proof.
  assert (K : forall c,
            In c (filter (fun c => negb (Set_has (map communityId (joinedCommunities p))
                                           (communityId c))) (allCommunities p))
            <-> In c (allCommunities p)
                /\ ~ In (communityId c) (ids (joinedCommunities p))).
  { intros c. rewrite filter_In, negb_true_iff. unfold ids.
    destruct (Set_has _ _) eqn:E.
    - apply Set_has_In in E. split; [intros [_ H]; discriminate | tauto].
    - split; [|tauto]. intros [H _]. split; [exact H|].
      intros Hin. apply Set_has_In in Hin. congruence. }
  split; [|split].
  - intros B. unfold emptySearchEffect. rewrite B. cbn. split; [exact K|].
    intros i Hi. unfold ids in Hi. apply in_map_iff in Hi. destruct Hi as [c [<- Hc]].
    destruct (in_dec string_dec (communityId c) (ids (joinedCommunities p))) as [Y|N];
      [now left | right].
    apply in_ids, K. auto.
  - unfold emptySearchEffect.
    destruct (Js.trim (searchTerm p) =? "")%string eqn:B;
      cbn [searchTerm]; rewrite B; reflexivity.
  - intros N. unfold emptySearchEffect. apply String.eqb_neq in N. now rewrite N.
Qed.

Ltac accept Hb :=
  match goal with
  | |- context [backend ?env ?r] =>
      let d := fresh "data" in let Hd := fresh "Hd" in
      destruct (Hb r) as [d Hd]; rewrite Hd; clear Hd
  end.

Lemma filter_other_ids (c : Community) (l : list Community) :
  ~ In (communityId c) (ids l) ->
  filter (fun x => negb (communityId x =? communityId c)%string) l = l.
Proof.
  intros N. induction l as [|x l IH]; cbn; [reflexivity|].
  destruct (communityId x =? communityId c)%string eqn:E; cbn.
  - apply String.eqb_eq in E. elim N. cbn. now left.
  - rewrite IH; [reflexivity|]. intros H. apply N. cbn. now right.
Qed.

Lemma filter_own_id (c : Community) :
  filter (fun x => negb (communityId x =? communityId c)%string) [c] = [].
Proof. cbn. now rewrite String.eqb_refl. Qed.

(** X13.  What the two buttons do when the backend accepts; [r] is the
    render that shows the button and [p] the state on which the handler's
    updates land (the same page when nothing else happened while the
    request was in flight).  The Leave button is shown for the displayed
    joined communities: leaving one of them removes its id from the joined
    list and appends it to the not-joined list, whatever the search term.
    The Join button is shown for the not-joined communities: joining one
    appends it to the joined list and removes its id from the not-joined
    list. *)
Theorem buttons_move_communities (env : Env) (r p : Page) (c : Community) :
  accepting env ->
  (In c (displayedJoinedCommunities r) ->
     let p' := complete env (Leave c) r p in
     notJoinedCommunities p' = notJoinedCommunities p ++ [c]
     /\ ~ In (communityId c) (ids (joinedCommunities p'))
     /\ ~ In c (displayedJoinedCommunities p'))
  /\ (In c (notJoinedCommunities r) ->
        let p' := complete env (Join c) r p in
        joinedCommunities p' = joinedCommunities p ++ [c]
        /\ ~ In (communityId c) (ids (notJoinedCommunities p'))
        /\ ~ In c (notJoinedCommunities p')).
Proof.
  intros [[tok Ht] [[u Hu] Hb]]. split.
  - intros D. cbn zeta.
    assert (M : (Js.trim (searchTerm r) =? "")%string
                || Js.includes (Js.toLowerCase (communityName c))
                               (Js.toLowerCase (searchTerm r)) = true).
    { unfold displayedJoinedCommunities in D.
      destruct (Js.trim (searchTerm r) =? "")%string; [reflexivity|].
      apply filter_In in D. apply D. }
    assert (E : complete env (Leave c) r p =
                {| allCommunities := allCommunities p;
                   joinedCommunities :=
                     filter (fun x => negb (communityId x =? communityId c)%string)
                            (joinedCommunities p);
                   notJoinedCommunities := notJoinedCommunities p ++ [c];
                   searchTerm := searchTerm p; loading := loading p |}).
    { run_handler. rewrite Ht, Hu. cbn. accept Hb. cbn.
      rewrite M. reflexivity. }
    rewrite E. cbn [notJoinedCommunities joinedCommunities].
    assert (N : ~ In (communityId c)
                  (ids (filter (fun x => negb (communityId x =? communityId c)%string)
                               (joinedCommunities p)))).
    { intros H. apply ids_remove in H. now destruct H. }
    split; [reflexivity|]. split; [exact N|].
    intros H. apply N, in_ids.
    unfold displayedJoinedCommunities in H.
    cbn [searchTerm joinedCommunities] in H.
    destruct (Js.trim (searchTerm p) =? "")%string; [exact H|].
    apply filter_In in H. apply H.
  - intros D. cbn zeta.
    assert (E : complete env (Join c) r p =
                {| allCommunities := allCommunities p;
                   joinedCommunities := joinedCommunities p ++ [c];
                   notJoinedCommunities :=
                     filter (fun x => negb (communityId x =? communityId c)%string)
                            (notJoinedCommunities p);
                   searchTerm := searchTerm p; loading := loading p |}).
    { run_handler. rewrite Ht, Hu. cbn. accept Hb. reflexivity. }
    rewrite E. cbn [notJoinedCommunities joinedCommunities].
    assert (N : ~ In (communityId c)
                  (ids (filter (fun x => negb (communityId x =? communityId c)%string)
                               (notJoinedCommunities p)))).
    { intros H. apply ids_remove in H. now destruct H. }
    split; [reflexivity|]. split; [exact N|].
    intros H. apply N, in_ids, H.
Qed.

(** X14.  Joining and then leaving.  If a community whose id is not joined
    is joined and then left, both accepted by the backend, the joined list
    is what it was; the community ends up at the end of the not-joined
    list when the search term is blank or matches its name, and is absent
    from that list otherwise.  The search term that counts is the one of
    the render [r2] whose Leave button is used; the handlers may have been
    created in any renders [r1] and [r2]. *)
Theorem join_then_leave (env : Env) (r1 r2 p : Page) (c : Community) :
  accepting env ->
  ~ In (communityId c) (ids (joinedCommunities p)) ->
  let p2 := complete env (Leave c) r2 (complete env (Join c) r1 p) in
  let others := filter (fun x => negb (communityId x =? communityId c)%string)
                       (notJoinedCommunities p) in
  joinedCommunities p2 = joinedCommunities p
  /\ (Js.trim (searchTerm r2) = ""
      \/ Js.containsIgnoringCase (communityName c) (searchTerm r2) ->
      notJoinedCommunities p2 = others ++ [c])
  /\ (~ (Js.trim (searchTerm r2) = ""
         \/ Js.containsIgnoringCase (communityName c) (searchTerm r2)) ->
      notJoinedCommunities p2 = others).
Proof.
  intros [[tok Ht] [[u Hu] Hb]] N. cbn zeta.
  assert (E1 : complete env (Join c) r1 p =
               {| allCommunities := allCommunities p;
                  joinedCommunities := joinedCommunities p ++ [c];
                  notJoinedCommunities :=
                    filter (fun x => negb (communityId x =? communityId c)%string)
                           (notJoinedCommunities p);
                  searchTerm := searchTerm p; loading := loading p |}).
  { run_handler. rewrite Ht, Hu. cbn. accept Hb. reflexivity. }
  rewrite E1.
  assert (D : ((Js.trim (searchTerm r2) =? "")%string
               || Js.includes (Js.toLowerCase (communityName c))
                              (Js.toLowerCase (searchTerm r2))) = true
              <-> Js.trim (searchTerm r2) = ""
                  \/ Js.containsIgnoringCase (communityName c) (searchTerm r2)).
  { rewrite orb_true_iff, String.eqb_eq, JsFacts.includes_lower_spec. tauto. }
  run_handler. rewrite Ht, Hu. cbn. accept Hb. cbn.
  rewrite filter_app, filter_own_id, app_nil_r, (filter_other_ids c _ N).
  destruct (_ || _); cbn.
  - split; [reflexivity|]. split; [reflexivity|].
    intros X. elim X. now apply D.
  - split; [reflexivity|]. split; [|reflexivity].
    intros X. apply D in X. discriminate.
Qed.

Lemma fetchAllCommunities_facts (env : Env) (r p : Page) :
  let p' := complete env FetchAll r p in
  joinedCommunities p' = joinedCommunities p
  /\ notJoinedCommunities p' = notJoinedCommunities p
  /\ searchTerm p' = searchTerm p
  /\ loading p' = false.
Proof.
  run_handler. destruct (idTokenResult env) as [tok|]; cbn;
    [destruct (backend env _) as [[[] [[l|x [l|]]|]]|]|]; repeat split; reflexivity.
Qed.

Lemma fetchJoinedCommunities_facts (env : Env) (r p : Page) :
  let p' := complete env FetchJoined r p in
  allCommunities p' = allCommunities p
  /\ notJoinedCommunities p' = notJoinedCommunities p
  /\ searchTerm p' = searchTerm p
  /\ loading p' = loading p.
Proof.
  run_handler.
  destruct (currentUserResult env) as [[u|]|]; cbn;
    [destruct (idTokenResult env) as [tok|]; cbn;
     [destruct (backend env _) as [[[] [[l|x [l|]]|]]|]|] | |];
    repeat split; reflexivity.
Qed.

(** X15.  [fetchAllCommunities] issues, once the token is obtained, one GET
    of [/api/community/all].  An ok response with a readable body replaces
    the catalogue by the body's [communities], or by the empty list when
    the body has none; a non-ok response or a thrown error keeps the
    catalogue.  In every case the two lists and the search term are
    untouched and the loading flag ends false. *)
Theorem fetchAllCommunities_spec (env : Env) (p : Page) :
  let out := run fetchAllCommunities env p in
  joinedCommunities (fst out) = joinedCommunities p
  /\ notJoinedCommunities (fst out) = notJoinedCommunities p
  /\ searchTerm (fst out) = searchTerm p
  /\ loading (fst out) = false
  /\ match idTokenResult env with
     | Some tok =>
         exists req,
           snd out = [req]
           /\ method req = GET
           /\ url req = (NEXT_PUBLIC_BACKEND_URL env ++ "/api/community/all")%string
           /\ match backend env req with
              | Some {| ok := true; json := Some (JObject _ (Some l)) |} =>
                  allCommunities (fst out) = l
              | Some {| ok := true; json := Some _ |} =>
                  allCommunities (fst out) = []
              | _ => allCommunities (fst out) = allCommunities p
              end
     | None => snd out = [] /\ allCommunities (fst out) = allCommunities p
     end.
Proof.
  run_handler. destruct (idTokenResult env) as [tok|]; cbn.
  - repeat match goal with |- _ /\ _ => split end;
      try (destruct (backend env _) as [[[] [[l|r [l|]]|]]|]; reflexivity).
    eexists. split;
      [destruct (backend env _) as [[[] [[l|r [l|]]|]]|]; cbn; reflexivity|].
    repeat split; try reflexivity.
    destruct (backend env _) as [[[] [[l|r [l|]]|]]|]; reflexivity.
  - repeat split; reflexivity.
Qed.

(** X16.  [fetchJoinedCommunities] issues no request when nobody is signed
    in, or when the user or the token cannot be obtained, and then changes
    nothing.  Otherwise it issues one GET of
    [/api/community/joined/<uid>].  An ok response with a readable body
    gives the joined cell the body when it is an array, and the body's
    [communities] when it is an object: the list when the object has that
    field, [undefined] when it has not.  A non-ok response or a thrown
    error keeps the joined list.  The catalogue, the not-joined list, the
    search term and the loading flag are never touched, and the handler's
    closure [r] is not read. *)
Theorem fetchJoinedCommunities_spec (env : Env) (r p : Page) :
  let w := runFrom fetchJoinedCommunities env r p in
  allCommunities (page w) = allCommunities p
  /\ notJoinedCommunities (page w) = notJoinedCommunities p
  /\ searchTerm (page w) = searchTerm p
  /\ loading (page w) = loading p
  /\ match currentUserResult env, idTokenResult env with
     | Some (Some u), Some tok =>
         exists req,
           sent w = [req]
           /\ method req = GET
           /\ url req = (NEXT_PUBLIC_BACKEND_URL env ++ "/api/community/joined/"
                           ++ uid u)%string
           /\ match backend env req with
              | Some {| ok := true; json := Some (JArray l) |} =>
                  joinedUndefined w = false /\ joinedCommunities (page w) = l
              | Some {| ok := true; json := Some (JObject _ (Some l)) |} =>
                  joinedUndefined w = false /\ joinedCommunities (page w) = l
              | Some {| ok := true; json := Some (JObject _ None) |} =>
                  joinedUndefined w = true
              | _ =>
                  joinedUndefined w = false
                  /\ joinedCommunities (page w) = joinedCommunities p
              end
     | _, _ => sent w = [] /\ page w = p /\ joinedUndefined w = false
     end.
Proof.
  run_handler. destruct p as [a j n t l0].
  destruct (currentUserResult env) as [[u|]|]; cbn;
    try (destruct (idTokenResult env); repeat split; reflexivity).
  destruct (idTokenResult env) as [tok|]; cbn; [|repeat split; reflexivity].
  repeat match goal with |- _ /\ _ => split end;
    try (destruct (backend env _) as [[[] [[l|x [l|]]|]]|]; reflexivity).
  eexists. split;
    [destruct (backend env _) as [[[] [[l|x [l|]]|]]|]; cbn; reflexivity|].
  repeat split; try reflexivity.
  destruct (backend env _) as [[[] [[l|x [l|]]|]]|]; cbn;
    try (split; reflexivity); try reflexivity.
  split; [reflexivity | now rewrite map_id].
Qed.

(** Only the completion of the joined-list fetch can leave [undefined] in
    the joined list. *)
Lemma storesUndefined_FetchJoined (env : Env) (o : Op) (r p : Page) :
  storesUndefined env o r p = true -> o = FetchJoined.
Proof.
  destruct o as [v| | | |term|c|c]; try reflexivity; run_handler.
  - discriminate.
  - destruct (idTokenResult env) as [tok|]; cbn;
      [destruct (backend env _) as [[[] [j|]]|]|]; discriminate.
  - discriminate.
  - destruct (idTokenResult env) as [tok|]; cbn;
      [destruct (backend env _) as [[[] [j|]]|]|]; discriminate.
  - destruct (idTokenResult env) as [tok|]; cbn;
      [destruct (currentUserResult env) as [[u|]|]; cbn;
       [destruct (backend env _) as [[[] [j|]]|]| |] |];
      discriminate.
  - destruct (idTokenResult env) as [tok|]; cbn;
      [destruct (currentUserResult env) as [[u|]|]; cbn;
       [destruct (backend env _) as [[[] [j|]]|]; cbn; try destruct (_ || _)| |] |];
      discriminate.
Qed.

(** X17.  What the operations leave alone, whatever the render [r] their
    handler was created in.  Only typing changes the search term and only
    [fetchAllCommunities] changes the catalogue; the search and the
    recomputation never change the joined list; a join or a leave never
    changes the loading flag, which is false after [fetchAllCommunities]
    and after a search, whatever their outcome. *)
Theorem operations_frame (env : Env) (o : Op) (r p : Page) :
  let p' := complete env o r p in
  (searchTerm p' = match o with SetSearchTerm v => v | _ => searchTerm p end)
  /\ (match o with FetchAll => True | _ => allCommunities p' = allCommunities p end)
  /\ (match o with
      | FetchJoined | Join _ | Leave _ => True
      | _ => joinedCommunities p' = joinedCommunities p
      end)
  /\ (match o with
      | SetSearchTerm _ | FetchAll | FetchJoined =>
          notJoinedCommunities p' = notJoinedCommunities p
      | _ => True
      end)
  /\ (loading p' = match o with FetchAll | Search _ => false | _ => loading p end).
Proof.
  destruct o as [v| | | |term|c|c]; cbn zeta.
  - repeat split; reflexivity.
  - destruct (fetchAllCommunities_facts env r p) as [A [B [C D]]]. auto.
  - destruct (fetchJoinedCommunities_facts env r p) as [A [B [C D]]]. auto.
  - unfold complete, landing. cbn [page]. unfold emptySearchEffect.
    destruct (_ =? _)%string; repeat split; reflexivity.
  - run_handler. destruct (idTokenResult env) as [tok|]; cbn;
      [destruct (backend env _) as [[[] [j|]]|]|]; repeat split; reflexivity.
  - run_handler. destruct (idTokenResult env) as [tok|]; cbn;
      [destruct (currentUserResult env) as [[u|]|]; cbn;
       [destruct (backend env _) as [[[] [j|]]|]| |] |];
      repeat split; reflexivity.
  - run_handler. destruct (idTokenResult env) as [tok|]; cbn;
      [destruct (currentUserResult env) as [[u|]|]; cbn;
       [destruct (backend env _) as [[[] [j|]]|]; cbn; try destruct (_ || _)| |] |];
      repeat split; reflexivity.
Qed.

Ltac only_request H :=
  cbn in H; destruct H as [<- | []].

(** X18.  No operation of the page talks to the backend without a token.
    Every request issued is the only one of its operation, goes to a path
    under [/api/community/] of the configured backend, and carries the
    header [Authorization: Bearer <token>]; it is a POST exactly for a
    join or a leave. *)
Theorem requests_carry_the_token (env : Env) (o : Op) (p : Page) (req : Request) :
  In req (requestsOf env o p) ->
  requestsOf env o p = [req]
  /\ (exists tok,
        idTokenResult env = Some tok
        /\ In ("Authorization", ("Bearer " ++ tok)%string) (headers req))
  /\ (exists rest,
        url req = (NEXT_PUBLIC_BACKEND_URL env ++ "/api/community/" ++ rest)%string)
  /\ (method req = POST <-> exists c, o = Join c \/ o = Leave c).
Proof.
  unfold requestsOf, handlerOf.
  destruct o as [v| | | |term|c|c]; try (intros []).
  - run_handler. destruct (idTokenResult env) as [tok|]; cbn; [|intros []].
    intros H.
    assert (E : exists r, req = r /\ r =
              {| url := (NEXT_PUBLIC_BACKEND_URL env ++ "/api/community/all")%string;
                 method := GET;
                 headers := [("Authorization", ("Bearer " ++ tok)%string);
                             ("Content-Type", "application/json")];
                 body := NoBody |}).
    { eexists. split; [|reflexivity].
      destruct (backend env _) as [[[] [[l|r [l|]]|]]|]; only_request H; reflexivity. }
    destruct E as [r [-> ->]]. split.
    + destruct (backend env _) as [[[] [[l|r [l|]]|]]|]; reflexivity.
    + split; [exists tok; split; [reflexivity | now left]|].
      split; [exists "all"; reflexivity|].
      split; [discriminate | intros [c [X|X]]; discriminate].
  - run_handler. destruct (currentUserResult env) as [[u|]|]; cbn; try (intros []).
    destruct (idTokenResult env) as [tok|]; cbn; [|intros []].
    intros H.
    assert (E : exists r, req = r /\ r =
              {| url := (NEXT_PUBLIC_BACKEND_URL env ++ "/api/community/joined/"
                           ++ uid u)%string;
                 method := GET;
                 headers := [("Authorization", ("Bearer " ++ tok)%string);
                             ("Content-Type", "application/json")];
                 body := NoBody |}).
    { eexists. split; [|reflexivity].
      destruct (backend env _) as [[[] [[l|r [l|]]|]]|]; only_request H; reflexivity. }
    destruct E as [r [-> ->]]. split.
    + destruct (backend env _) as [[[] [[l|r [l|]]|]]|]; reflexivity.
    + split; [exists tok; split; [reflexivity | now left]|].
      split; [exists ("joined/" ++ uid u)%string; reflexivity|].
      split; [discriminate | intros [c [X|X]]; discriminate].
  - run_handler. destruct (idTokenResult env) as [tok|]; cbn; [|intros []].
    intros H.
    assert (E : exists r, req = r /\ r =
              {| url := (NEXT_PUBLIC_BACKEND_URL env ++ "/api/community/search?name="
                           ++ Js.encodeURIComponent term ++ "&limit=5")%string;
                 method := GET;
                 headers := [("Content-Type", "application/json");
                             ("Authorization", ("Bearer " ++ tok)%string)];
                 body := NoBody |}).
    { eexists. split; [|reflexivity].
      destruct (backend env _) as [[[] [j|]]|]; only_request H; reflexivity. }
    destruct E as [r [-> ->]]. split.
    + destruct (backend env _) as [[[] [j|]]|]; reflexivity.
    + split; [exists tok; split; [reflexivity | right; now left]|].
      split; [exists ("search?name=" ++ Js.encodeURIComponent term ++ "&limit=5")%string;
              reflexivity|].
      split; [discriminate | intros [c [X|X]]; discriminate].
  - run_handler. destruct (idTokenResult env) as [tok|]; cbn; [|intros []].
    destruct (currentUserResult env) as [[u|]|]; cbn; try (intros []).
    intros H.
    assert (E : exists r, req = r /\ r =
              {| url := (NEXT_PUBLIC_BACKEND_URL env ++ "/api/community/join")%string;
                 method := POST;
                 headers := [("Authorization", ("Bearer " ++ tok)%string)];
                 body := FormData [("userId", uid u);
                                   ("communityId", communityId c);
                                   ("communityName", communityName c)] |}).
    { eexists. split; [|reflexivity].
      destruct (backend env _) as [[[] [j|]]|]; only_request H; reflexivity. }
    destruct E as [r [-> ->]]. split.
    + destruct (backend env _) as [[[] [j|]]|]; reflexivity.
    + split; [exists tok; split; [reflexivity | now left]|].
      split; [exists "join"; reflexivity|].
      split; [intros _; exists c; now left | reflexivity].
  - run_handler. destruct (idTokenResult env) as [tok|]; cbn; [|intros []].
    destruct (currentUserResult env) as [[u|]|]; cbn; try (intros []).
    intros H.
    assert (E : exists r, req = r /\ r =
              {| url := (NEXT_PUBLIC_BACKEND_URL env ++ "/api/community/leave")%string;
                 method := POST;
                 headers := [("Authorization", ("Bearer " ++ tok)%string)];
                 body := FormData [("userId", uid u);
                                   ("communityId", communityId c);
                                   ("communityName", communityName c)] |}).
    { eexists. split; [|reflexivity].
      destruct (backend env _) as [[[] [j|]]|]; cbn in H;
        try destruct (_ || _); only_request H; reflexivity. }
    destruct E as [r [-> ->]]. split.
    + destruct (backend env _) as [[[] [j|]]|]; cbn; try destruct (_ || _); reflexivity.
    + split; [exists tok; split; [reflexivity | now left]|].
      split; [exists "leave"; reflexivity|].
      split; [intros _; exists c; now right | reflexivity].
Qed.

End CommunitiesExtra.

(* ================================================================== *)
(** * The encoded search term and prompt *)
(* ================================================================== *)

Module UrlSafeFacts.
Import Js UrlSafe.

Lemma chars_app (a b : string) : chars (a ++ b) = chars a ++ chars b.
Proof. unfold chars. induction a as [|x a IH]; cbn; [reflexivity | now rewrite IH]. Qed.

Lemma encode_cons (c : ascii) (r : string) :
  encodeURIComponent (String c r)
  = (encodeURIComponent (String c EmptyString) ++ encodeURIComponent r)%string.
Proof. cbn [encodeURIComponent]. now rewrite JsFacts.append_nil_r. Qed.

Lemma encode_char_safe (c : ascii) :
  forallb safeChar (chars (encodeURIComponent (String c EmptyString))) = true.
Proof. destruct c as [[] [] [] [] [] [] [] []]; reflexivity. Qed.

Lemma encode_safe (s : string) :
  forallb safeChar (chars (encodeURIComponent s)) = true.
Proof.
  induction s as [|c r IH]; [reflexivity|].
  rewrite encode_cons, chars_app, forallb_app, encode_char_safe, IH. reflexivity.
Qed.

Lemma startsWith_char (s : string) (c : ascii) :
  startsWith s (String c EmptyString) = true ->
  exists r, s = String c r.
Proof.
  intros H. apply JsFacts.startsWith_spec in H. destruct H as [post ->].
  exists post. reflexivity.
Qed.

Lemma includes_char (s : string) (c : ascii) :
  includes s (String c EmptyString) = true -> In c (chars s).
Proof.
  induction s as [|x r IH]; cbn [includes].
  - rewrite orb_false_r. intros H. apply startsWith_char in H.
    destruct H as [r H]. discriminate.
  - intros H. apply orb_true_iff in H. destruct H as [H|H].
    + apply startsWith_char in H. destruct H as [r' [= -> _]]. now left.
    + right. now apply IH.
Qed.

Lemma unsafe_absent (s : string) (c : ascii) :
  safeChar c = false -> includes (encodeURIComponent s) (String c EmptyString) = false.
Proof.
  intros U. destruct (includes _ _) eqn:I; [|reflexivity].
  apply includes_char in I.
  pose proof (encode_safe s) as F. rewrite forallb_forall in F.
  rewrite (F _ I) in U. discriminate.
Qed.

(** X19.  The search term and the chat prompt are put into their URLs
    through [encodeURIComponent]: every character of the result is
    unreserved or the percent sign of an escape, so the value holds no
    "&", "=", "?", "#", "/", "+" or space that could end the parameter or
    start another one; and a text made of unreserved characters only is
    sent as typed. *)
Theorem encoded_component_is_safe (s : string) :
  forallb safeChar (chars (encodeURIComponent s)) = true
  /\ (forall c, In c (chars "&=?#/+ ") ->
        includes (encodeURIComponent s) (String c EmptyString) = false)
  /\ (plain s = true -> encodeURIComponent s = s).
Proof.
  split; [apply encode_safe|]. split.
  - intros c H. apply unsafe_absent.
    cbn in H. repeat (destruct H as [<-|H]; [reflexivity|]). destruct H.
  - unfold plain, chars. induction s as [|c r IH]; [reflexivity|].
    cbn [list_ascii_of_string forallb encodeURIComponent].
    intros H. apply andb_prop in H. destruct H as [H1 H2].
    rewrite H1, (IH H2). reflexivity.
Qed.

End UrlSafeFacts.

(* ================================================================== *)
(** * The communities page: debouncing *)
(* ================================================================== *)

Module SearchBoxFacts.
Import Communities SearchBox CommunitiesFacts.

Lemma emptySearchEffect_searchTerm (p : Page) :
  searchTerm (emptySearchEffect p) = searchTerm p.
Proof. unfold emptySearchEffect. destruct (_ =? _)%string; reflexivity. Qed.

Lemma typeSearch_changed (v : string) (b : Box) :
  (v =? searchTerm (shown b))%string = false ->
  searchTerm (shown (typeSearch v b)) = v
  /\ issued (typeSearch v b) = issued b
  /\ clock (typeSearch v b) = clock b
  /\ pendingSearch (typeSearch v b) =
       if (Js.trim v =? "")%string then None
       else Some ((clock b + DEBOUNCE)%N, setSearchTerm v (shown b)).
Proof.
  intros N. unfold typeSearch. rewrite N. cbn.
  rewrite emptySearchEffect_searchTerm. auto.
Qed.

Lemma elapse_early (env : Env) (dt : N) (b : Box) :
  (forall d r, pendingSearch b = Some (d, r) -> (clock b + dt < d)%N) ->
  issued (elapse env dt b) = issued b
  /\ shown (elapse env dt b) = shown b
  /\ pendingSearch (elapse env dt b) = pendingSearch b.
Proof.
  intros H. unfold elapse.
  destruct (pendingSearch b) as [[d r]|] eqn:P; [|auto].
  specialize (H d r eq_refl).
  destruct (N.leb_spec d (clock b + dt)); [lia | auto].
Qed.

Lemma keystroke_quiet (env : Env) (v : string) (gap : N) (b : Box) :
  (v =? searchTerm (shown b))%string = false ->
  (gap < DEBOUNCE)%N ->
  issued (elapse env gap (typeSearch v b)) = issued b
  /\ searchTerm (shown (elapse env gap (typeSearch v b))) = v.
Proof.
  intros N G. destruct (typeSearch_changed v b N) as [T [I [C P]]].
  destruct (elapse_early env gap (typeSearch v b)) as [E1 [E2 _]].
  { intros d r H. rewrite P in H.
    destruct (Js.trim v =? "")%string; [discriminate|].
    injection H as <- _. rewrite C. lia. }
  rewrite E1, E2. auto.
Qed.

Lemma keystrokes_quiet (env : Env) (ks : list (string * N)) :
  forall (b : Box) (v : string),
  changing (searchTerm (shown b)) (map fst ks ++ [v]) = true ->
  forallb (fun k => (snd k <? DEBOUNCE)%N) ks = true ->
  issued (keystrokes env ks b) = issued b
  /\ (v =? searchTerm (shown (keystrokes env ks b)))%string = false.
Proof.
  induction ks as [|[x gap] ks IH]; intros b v Ch G; cbn in *.
  - rewrite andb_true_r in Ch. apply negb_true_iff in Ch. auto.
  - apply andb_prop in Ch. destruct Ch as [Nx Ch]. apply negb_true_iff in Nx.
    apply andb_prop in G. destruct G as [Gx G]. apply N.ltb_lt in Gx.
    destruct (keystroke_quiet env x gap b Nx Gx) as [I T].
    unfold keystrokes in IH.
    destruct (IH (elapse env gap (typeSearch x b)) v) as [I2 N2].
    + now rewrite T.
    + exact G.
    + rewrite I2, I. auto.
Qed.

(** X20.  Debouncing.  While the user types, each keystroke changing the
    text and following the previous one by less than 500 ms, no request is
    issued.  After the last keystroke nothing is issued for 500 ms; then,
    if the text is not blank, exactly one search is issued, for the text
    as it is then (provided the token is obtained), and if the text is
    blank none is. *)
Theorem search_is_debounced (env : Env) (ks : list (string * N)) (v : string) (b : Box) :
  changing (searchTerm (shown b)) (map fst ks ++ [v]) = true ->
  forallb (fun k => (snd k <? 500)%N) ks = true ->
  let b' := typeSearch v (keystrokes env ks b) in
  issued b' = issued b
  /\ searchTerm (shown b') = v
  /\ (forall dt, (dt < 500)%N -> issued (elapse env dt b') = issued b)
  /\ (forall dt, (500 <= dt)%N ->
        issued (elapse env dt b') =
          issued b ++
          (if Js.allWhiteSpace v then []
           else match idTokenResult env with
                | Some tok => [searchRequest env tok v]
                | None => []
                end)).
Proof.
  intros Ch G. cbn zeta.
  destruct (keystrokes_quiet env ks b v Ch G) as [I N].
  set (b1 := keystrokes env ks b) in *.
  destruct (typeSearch_changed v b1 N) as [T [I1 [C P]]].
  rewrite I1, I. split; [reflexivity|]. split; [exact T|]. split.
  - intros dt L. destruct (elapse_early env dt (typeSearch v b1)) as [E _].
    + intros d r H. rewrite P in H.
      destruct (Js.trim v =? "")%string; [discriminate|].
      injection H as <- _. rewrite C. unfold DEBOUNCE. lia.
    + now rewrite E, I1.
  - intros dt L. unfold elapse. rewrite P, I1, I, C.
    rewrite JsFacts.blank_eqb. destruct (Js.allWhiteSpace v).
    + cbn. now rewrite app_nil_r.
    + destruct (N.leb_spec (clock b1 + DEBOUNCE) (clock b1 + dt)) as [_|X];
        [|unfold DEBOUNCE in X; lia].
      cbn [issued]. f_equal.
      run_handler. cbn [searchTerm setSearchTerm].
      destruct (idTokenResult env) as [tok|]; cbn; [|reflexivity].
      destruct (backend env _) as [[[] [j|]]|]; reflexivity.
Qed.

End SearchBoxFacts.

(* ================================================================== *)
(** * The community page: membership and loading *)
(* ================================================================== *)

Module DetailFacts.
Import Detail.

Ltac run_detail :=
  unfold run, handleJoinLeave, fetchCommunityDetails, fetchJoinedCommunities,
    try_catch, bind, getIdTokenNoParam, getCurrentUser, backendUrl, await,
    fetch, res_json, throw, ret, setIsMember, setJoinedCommunityIds,
    setCommunity, setLoading, setError, modify;
  cbn [fst snd page sent].

Lemma includes_In (l : list string) (x : string) :
  Array_includes l x = true <-> In x l.
Proof.
  unfold Array_includes. rewrite existsb_exists. split.
  - intros [y [Hy E]]. apply String.eqb_eq in E. now subst.
  - intros H. exists x. split; [exact H | apply String.eqb_refl].
Qed.

Lemma includes_after_join (l : list string) (x : string) :
  Array_includes (l ++ [x]) x = true.
Proof. apply includes_In, in_or_app. right. now left. Qed.

Lemma includes_after_leave (l : list string) (x : string) :
  Array_includes (filter (fun i => negb (i =? x)%string) l) x = false.
Proof.
  destruct (Array_includes _ _) eqn:E; [|reflexivity].
  apply includes_In, filter_In in E. destruct E as [_ E].
  now rewrite String.eqb_refl in E.
Qed.

Lemma filter_absent (l : list string) (x : string) :
  ~ In x l -> filter (fun i => negb (i =? x)%string) l = l.
Proof.
  intros N. induction l as [|y l IH]; cbn; [reflexivity|].
  destruct (y =? x)%string eqn:E; cbn.
  - apply String.eqb_eq in E. elim N. now left.
  - rewrite IH; [reflexivity|]. intros H. apply N. now right.
Qed.

(** X21.  The outcomes of the join/leave button for a loaded community and
    a signed-in user.  One POST is issued, to the leave endpoint when the
    flag [isMember] is set and to the join endpoint otherwise, and the flag
    is toggled before the answer is known.  An ok answer (for a leave: with
    a readable body) keeps the toggle and updates the ids; a non-ok answer
    (for a leave: with a readable body) restores the flag; a rejected
    request, and for a leave an unreadable body even of an ok answer,
    leave the flag toggled and the ids as they were. *)
Theorem handleJoinLeave_outcomes (env : Env) (s : State) (c : Community)
    (u : Communities.User) (tok : string) :
  community s = Some c ->
  currentUserResult env = Some (Some u) ->
  Js.truthy (Communities.uid u) = true ->
  idTokenResult env = Some tok ->
  let out := run handleJoinLeave env s in
  let s' := fst out in
  exists req,
    snd out = [req]
    /\ Communities.method req = Communities.POST
    /\ Communities.url req =
         (NEXT_PUBLIC_BACKEND_URL env
          ++ (if isMember s then "/api/community/leave" else "/api/community/join"))%string
    /\ Communities.body req =
         Communities.FormData [("userId", Communities.uid u);
                               ("communityId", communityId c);
                               ("communityName", communityName c)]
    /\ community s' = community s /\ error s' = error s /\ loading s' = loading s
    /\ match backend env req with
       | Some {| ok := true; json := body |} =>
           if isMember s then
             isMember s' = false
             /\ joinedCommunityIds s' =
                  match body with
                  | Some _ => filter (fun i => negb (i =? communityId c)%string)
                                     (joinedCommunityIds s)
                  | None => joinedCommunityIds s
                  end
           else
             isMember s' = true
             /\ joinedCommunityIds s' = joinedCommunityIds s ++ [communityId c]
       | Some {| ok := false; json := body |} =>
           joinedCommunityIds s' = joinedCommunityIds s
           /\ isMember s' =
                (if isMember s
                 then match body with Some _ => true | None => false end
                 else false)
       | None =>
           joinedCommunityIds s' = joinedCommunityIds s
           /\ isMember s' = negb (isMember s)
       end.
Proof.
  intros Hc Hu Ht Hk. cbn zeta. run_detail. rewrite Hc, Hu. cbn -[Js.truthy]. rewrite Ht. cbn. rewrite Hk. cbn.
  destruct (isMember s) eqn:M; cbn.
  - eexists. split.
    + destruct (backend env _) as [[[] [j|]]|]; cbn; reflexivity.
    + repeat match goal with |- _ /\ _ => split end; try reflexivity;
        destruct (backend env _) as [[[] [j|]]|]; cbn; auto.
  - eexists. split.
    + destruct (backend env _) as [[[] j]|]; cbn; reflexivity.
    + repeat match goal with |- _ /\ _ => split end; try reflexivity;
        destruct (backend env _) as [[[] j]|]; cbn; auto.
Qed.

(** X22.  Nothing is sent and nothing changes when the community is not
    loaded, when nobody is signed in or the user has an empty uid, and when
    the user or the token cannot be obtained. *)
Theorem handleJoinLeave_needs_user_and_community (env : Env) (s : State) :
  community s = None
  \/ currentUserResult env = None
  \/ currentUserResult env = Some None
  \/ (exists u, currentUserResult env = Some (Some u)
                /\ Js.truthy (Communities.uid u) = false)
  \/ idTokenResult env = None ->
  run handleJoinLeave env s = (s, []).
Proof.
  intros H. run_detail. destruct s as [co po lo er im ids np rid]. cbn in *.
  destruct co as [c|]; [|reflexivity].
  destruct (currentUserResult env) as [[u|]|]; cbn; try reflexivity.
  destruct (Js.truthy (Communities.uid u)) eqn:T; cbn; [|reflexivity].
  destruct (idTokenResult env) as [tok|]; cbn; [|reflexivity].
  exfalso. destruct H as [H | [H | [H | [[u' [E T']] | H]]]]; try discriminate.
  injection E as <-. congruence.
Qed.

Lemma accepted (env : Env) (s : State) (c : Community) :
  accepting env -> community s = Some c ->
  fst (run handleJoinLeave env s) =
    if isMember s then
      {| community := community s; posts := posts s; loading := loading s;
         error := error s; isMember := false;
         joinedCommunityIds :=
           filter (fun i => negb (i =? communityId c)%string) (joinedCommunityIds s);
         newPost := newPost s; id := id s |}
    else
      {| community := community s; posts := posts s; loading := loading s;
         error := error s; isMember := true;
         joinedCommunityIds := joinedCommunityIds s ++ [communityId c];
         newPost := newPost s; id := id s |}.
Proof.
  intros [[tok Hk] [[u [Hu Ht]] Hb]] Hc.
  destruct s as [co po lo er im ids np rid]. cbn in Hc. subst co.
  run_detail. cbn [community isMember]. rewrite Hu. cbn -[Js.truthy].
  rewrite Ht. cbn. rewrite Hk. cbn.
  destruct im; cbn;
    match goal with
    | |- context [backend env ?r] => destruct (Hb r) as [d Hd]; rewrite Hd
    end; reflexivity.
Qed.

(** X23.  When the backend accepts, the toggled flag is what the
    membership effect computes from the updated ids, so the effect that
    follows the update leaves the state as the handler made it; pressing
    the button twice brings the flag back, and also the ids when the
    community was not among them. *)
Theorem toggle_agrees_with_the_ids (env : Env) (s : State) (c : Community) :
  accepting env ->
  community s = Some c ->
  let s1 := fst (run handleJoinLeave env s) in
  let s2 := fst (run handleJoinLeave env s1) in
  isMember s1 = negb (isMember s)
  /\ membershipEffect s1 = s1
  /\ memberConsistent s1
  /\ isMember s2 = isMember s
  /\ (isMember s = false -> ~ In (communityId c) (joinedCommunityIds s) ->
      joinedCommunityIds s2 = joinedCommunityIds s).
Proof.
  intros A Hc. cbn zeta.
  pose proof (accepted env s c A Hc) as E1.
  set (s1 := fst (run handleJoinLeave env s)) in *.
  assert (Hc1 : community s1 = Some c).
  { rewrite E1. destruct (isMember s); exact Hc. }
  pose proof (accepted env s1 c A Hc1) as E2.
  assert (M1 : isMember s1 = negb (isMember s)).
  { rewrite E1. destruct (isMember s); reflexivity. }
  assert (I1 : isMember s1 = Array_includes (joinedCommunityIds s1) (communityId c)).
  { rewrite E1. destruct (isMember s); cbn [isMember joinedCommunityIds].
    - now rewrite includes_after_leave.
    - now rewrite includes_after_join. }
  split; [exact M1|]. split; [|split; [|split]].
  - unfold membershipEffect. rewrite Hc1, <- I1.
    rewrite E1. destruct (isMember s); reflexivity.
  - intros c' Hc'. rewrite Hc1 in Hc'. injection Hc' as <-. exact I1.
  - rewrite E2, M1. destruct (isMember s); reflexivity.
  - intros M N. rewrite E2, M1, M. cbn [negb joinedCommunityIds].
    rewrite E1, M. cbn [joinedCommunityIds].
    rewrite filter_app, (filter_absent _ _ N). cbn [filter].
    rewrite String.eqb_refl. cbn [negb]. apply app_nil_r.
Qed.

(** X24.  When the request is rejected, or the body of the answer to a
    leave cannot be read, a state whose flag agreed with the ids ends with
    a flag that disagrees with them: the button then shows the opposite of
    the recorded membership, and the membership effect, were it to run,
    would bring the state before the click back. *)
Theorem failed_toggle_disagrees (env : Env) (s : State) (c : Community)
    (u : Communities.User) (tok : string) :
  community s = Some c ->
  currentUserResult env = Some (Some u) ->
  Js.truthy (Communities.uid u) = true ->
  idTokenResult env = Some tok ->
  memberConsistent s ->
  (forall req, backend env req = None
               \/ (isMember s = true
                   /\ exists o, backend env req = Some {| ok := o; json := None |})) ->
  let s' := fst (run handleJoinLeave env s) in
  isMember s' = negb (isMember s)
  /\ joinedCommunityIds s' = joinedCommunityIds s
  /\ ~ memberConsistent s'
  /\ membershipEffect s' = s.
Proof.
  intros Hc Hu Ht Hk Cons Hb. cbn zeta.
  assert (E : fst (run handleJoinLeave env s) = withIsMember (negb (isMember s)) s).
  { run_detail. rewrite Hc, Hu. cbn -[Js.truthy]. rewrite Ht. cbn. rewrite Hk. cbn.
    destruct (isMember s) eqn:M; cbn;
      match goal with
      | |- context [backend env ?r] =>
          destruct (Hb r) as [Hn | [Hm [o Ho]]];
            [rewrite Hn | try discriminate Hm; rewrite Ho]
      end; cbn; reflexivity. }
  rewrite E. specialize (Cons c Hc).
  split; [reflexivity|]. split; [reflexivity|]. split.
  - intros X. specialize (X c Hc).
    cbn [isMember joinedCommunityIds withIsMember] in X. rewrite <- Cons in X.
    destruct (isMember s); discriminate.
  - unfold membershipEffect. cbn [community joinedCommunityIds withIsMember].
    rewrite Hc, <- Cons. destruct s; reflexivity.
Qed.

(** X25.  [fetchCommunityDetails] always ends with the loading flag
    cleared.  On an ok answer with a readable body the community becomes
    the body's [community] (none when the body has no such field) and the
    error text is kept; otherwise the error text becomes "Failed to load
    community" and the community is kept.  The error text is never
    cleared: once it is set the page renders the failure, also after a
    later fetch that succeeds. *)
Theorem fetchCommunityDetails_view (env : Env) (s : State) :
  let out := run fetchCommunityDetails env s in
  let s' := fst out in
  loading s' = false
  /\ isMember s' = isMember s
  /\ joinedCommunityIds s' = joinedCommunityIds s
  /\ (Js.truthy (error s) = true -> exists text, view s' = Failure text)
  /\ match idTokenResult env with
     | Some tok =>
         exists req,
           snd out = [req]
           /\ Communities.url req =
                (NEXT_PUBLIC_BACKEND_URL env ++ "/api/community/" ++ id s)%string
           /\ match backend env req with
              | Some {| ok := true; json := Some data |} =>
                  community s' =
                    match data with JObject c _ => c | JArray _ => None end
                  /\ error s' = error s
                  /\ (error s = "" ->
                      view s' =
                        match community s' with
                        | Some c => Shown c (if isMember s then "Leave Community"
                                             else "Join Community") (isMember s)
                        | None => Failure "Community not found"
                        end)
              | _ =>
                  community s' = community s
                  /\ view s' = Failure "Failed to load community"
              end
     | None =>
         snd out = []
         /\ community s' = community s
         /\ view s' = Failure "Failed to load community"
     end.
Proof.
  cbn zeta. run_detail.
  destruct (idTokenResult env) as [tok|]; cbn.
  - repeat match goal with |- _ /\ _ => split end;
      try (destruct (backend env _) as [[[] [j|]]|]; reflexivity).
    + intros T. unfold view.
      destruct (backend env _) as [[[] [[l|[c|] l]|]]|]; cbn -[Js.truthy];
        rewrite ?T; destruct (community s); eexists; reflexivity.
    + eexists. split;
        [destruct (backend env _) as [[[] [j|]]|]; cbn; reflexivity|].
      split; [reflexivity|].
      destruct (backend env _) as [[[] [j|]]|]; cbn;
        try (split; [reflexivity | unfold view; cbn; destruct (community s); reflexivity]).
      split; [reflexivity|]. split; [reflexivity|].
      intros E. unfold view. cbn. rewrite E. cbn.
      destruct j as [l|[c|] l]; reflexivity.
  - repeat split; try reflexivity;
      try (unfold view; cbn; destruct (community s); reflexivity).
    intros T. unfold view. cbn. destruct (community s); eexists; reflexivity.
Qed.

(** X27.  The ids of the joined communities, fetched at mount.  Without a
    signed-in user nothing is requested.  An ok answer that is an array, or
    an object with [communities], replaces the ids by the communityIds of
    its elements, in order; a non-ok answer, a rejected request, an
    unreadable body or an object without [communities] keep the ids.  The
    membership effect that follows then sets the flag to whether the loaded
    community is among the ids. *)
Theorem fetchJoinedCommunities_then_effect (env : Env) (s : State) :
  let out := run fetchJoinedCommunities env s in
  let s' := fst out in
  community s' = community s /\ error s' = error s /\ loading s' = loading s
  /\ isMember s' = isMember s
  /\ memberConsistent (membershipEffect s')
  /\ joinedCommunityIds (membershipEffect s') = joinedCommunityIds s'
  /\ match currentUserResult env, idTokenResult env with
     | Some (Some u), Some tok =>
         exists req,
           snd out = [req]
           /\ Communities.url req =
                (NEXT_PUBLIC_BACKEND_URL env ++ "/api/community/joined/"
                   ++ Communities.uid u)%string
           /\ joinedCommunityIds s' =
                match backend env req with
                | Some {| ok := true; json := Some (JArray l) |} => map communityId l
                | Some {| ok := true; json := Some (JObject _ (Some l)) |} =>
                    map communityId l
                | _ => joinedCommunityIds s
                end
     | _, _ => snd out = [] /\ s' = s
     end.
Proof.
  cbn zeta.
  assert (M : forall x, memberConsistent (membershipEffect x)
                        /\ joinedCommunityIds (membershipEffect x) = joinedCommunityIds x).
  { intros x. unfold membershipEffect, memberConsistent.
    destruct (community x) as [c|] eqn:E.
    - split; [|reflexivity]. intros c' H.
      cbn [community withIsMember] in H. rewrite E in H. injection H as <-.
      reflexivity.
    - split; [|reflexivity]. intros c' H. congruence. }
  destruct (M (fst (run fetchJoinedCommunities env s))) as [M1 M2].
  repeat match goal with |- _ /\ _ => split end; try exact M1; try exact M2;
    try (run_detail;
         destruct (currentUserResult env) as [[u|]|]; cbn; try reflexivity;
         destruct (idTokenResult env) as [tok|]; cbn; try reflexivity;
         destruct (backend env _) as [[[] [[l|c [l|]]|]]|]; reflexivity).
  run_detail. destruct s as [co po lo er im ids np rid].
  destruct (currentUserResult env) as [[u|]|]; cbn;
    try (destruct (idTokenResult env); split; reflexivity).
  destruct (idTokenResult env) as [tok|]; cbn; [|split; reflexivity].
  eexists. split;
    [destruct (backend env _) as [[[] [[l|c [l|]]|]]|]; cbn; reflexivity|].
  split; [reflexivity|].
  destruct (backend env _) as [[[] [[l|c [l|]]|]]|]; reflexivity.
Qed.

End DetailFacts.

(* ================================================================== *)
(** * The navigation bar: tabs and logout *)
(* ================================================================== *)

Module NavFacts.
Import Nav.

Lemma tab_paths (userType : UserType) (tab : Tab) :
  In tab (tabs userType) -> (path tab =? "/auth")%string = false.
Proof.
  destruct userType; cbn; intros H;
    repeat (destruct H as [<-|H]; [reflexivity|]); destruct H.
Qed.

(** X26.  The bar is left only by logging out.  While the bar is rendered,
    a click on any of its tabs keeps it rendered: the notification tab
    opens its sheet without leaving the route, every other tab goes to its
    own path and leaves both sheets as they are; the profile entry goes to
    "/profile" and closes the sheet.  A logout whose [signOut] fails
    changes nothing; one that succeeds goes to "/auth", where the bar is
    not rendered, closes the sheet and forgets the user. *)
Theorem bar_stays_until_logout (userType : UserType) (s : State) :
  render userType s = Some (tabs userType) ->
  (forall tab, In tab (tabs userType) ->
     let s' := handleTabClick tab s in
     render userType s' = Some (tabs userType)
     /\ user s' = user s /\ profileOpen s' = profileOpen s
     /\ (if isNotification tab
         then notificationOpen s' = true /\ pathname s' = pathname s
         else notificationOpen s' = notificationOpen s /\ pathname s' = path tab))
  /\ (render userType (handleProfileClick s) = Some (tabs userType)
      /\ profileOpen (handleProfileClick s) = false)
  /\ handleLogout false s = s
  /\ (render userType (handleLogout true s) = None
      /\ user (handleLogout true s) = None
      /\ profileOpen (handleLogout true s) = false
      /\ avatar (handleLogout true s) = "/placeholder.svg?height=32&width=32").
Proof.
  intros R. split; [|repeat split].
  - intros tab H. cbn zeta. unfold handleTabClick.
    destruct (isNotification tab) eqn:N.
    + repeat split. exact R.
    + repeat split. unfold render. cbn. now rewrite (tab_paths _ _ H).
Qed.

End NavFacts.

(* ================================================================== *)
(** * The further properties on concrete data *)
(* ================================================================== *)

Module Witnesses.

Lemma chatChunk_reachable : Chat.reachable Samples.chatEnv MoreSamples.chatChunk.
Proof. apply Chat.reachable_step, ChatFacts.chatSent_reachable. Qed.

Lemma chatTyped_reachable : Chat.reachable Samples.chatEnv MoreSamples.chatTyped.
Proof. apply Chat.reachable_step, Chat.reachable_init. Qed.

Lemma env_accepting : CommunitiesView.accepting Samples.env.
Proof.
  split; [exists "token"; reflexivity|].
  split; [exists Samples.alice; reflexivity|].
  intros req. eexists. reflexivity.
Qed.

Lemma detailEnv_accepting : Detail.accepting MoreSamples.detailEnv.
Proof.
  split; [exists "token"; reflexivity|].
  split; [exists Samples.alice; split; reflexivity|].
  intros req. eexists. reflexivity.
Qed.

Lemma loading_iff_streaming_witness :
  Chat.reachable Samples.chatEnv Samples.chatSent
  /\ (Chat.isLoading Samples.chatSent = true
      <-> exists h es, Chat.openSource Samples.chatSent h es).
Proof.
  split; [exact ChatFacts.chatSent_reachable|].
  exact (proj1 (ChatExtra.loading_iff_streaming Samples.chatEnv Samples.chatSent
                  ChatFacts.chatSent_reachable)).
Defined.

Lemma pending_timer_of_open_stream_witness :
  Chat.reachable Samples.chatEnv MoreSamples.chatChunk
  /\ nth_error (Chat.timers MoreSamples.chatChunk) 0 = Some MoreSamples.chunkTimer
  /\ Chat.pending MoreSamples.chunkTimer = true
  /\ Chat.chunkTimeoutRef MoreSamples.chatChunk = Some 0%nat.
Proof.
  split; [exact chatChunk_reachable|]. split; [reflexivity|]. split; [reflexivity|].
  exact (proj1 (ChatExtra.pending_timer_of_open_stream Samples.chatEnv
                  MoreSamples.chatChunk 0 MoreSamples.chunkTimer
                  chatChunk_reachable eq_refl eq_refl)).
Defined.

Lemma retry_count_in_range_witness :
  Chat.reachable Samples.chatEnv MoreSamples.chatChunk
  /\ (0 <= Chat.retryCountRef MoreSamples.chatChunk <= 3)%Z.
Proof.
  split; [exact chatChunk_reachable|].
  exact (proj1 (ChatExtra.retry_count_in_range Samples.chatEnv MoreSamples.chatChunk
                  chatChunk_reachable)).
Defined.

Lemma elapse_elapse_witness :
  Chat.reachable Samples.chatEnv MoreSamples.chatChunk
  /\ Chat.elapse 20000 (Chat.elapse 10000 MoreSamples.chatChunk)
     = Chat.elapse 30000 MoreSamples.chatChunk.
Proof.
  split; [exact chatChunk_reachable|].
  exact (ChatExtra.elapse_elapse Samples.chatEnv MoreSamples.chatChunk 10000 20000
           chatChunk_reachable).
Defined.

Lemma silent_server_never_times_out_witness :
  Chat.reachable Samples.chatEnv Samples.chat0
  /\ Js.allWhiteSpace (Chat.textOf (Some "hello") Samples.chat0) = false
  /\ Chat.isLoading (Chat.elapse 3600000 Samples.chatSent) = true.
Proof.
  split; [apply Chat.reachable_init|]. split; [reflexivity|].
  exact (proj1 (proj2 (proj2
    (ChatExtra.silent_server_never_times_out Samples.chatEnv (Some "hello")
       "u-1" "a-1" Samples.chat0 3600000 (Chat.reachable_init _ _ _)
       eq_refl eq_refl)))).
Defined.

Lemma new_send_supersedes_witness :
  Chat.reachable Samples.chatEnv MoreSamples.chatChunk
  /\ Js.allWhiteSpace (Chat.textOf (Some "again") MoreSamples.chatChunk) = false
  /\ Chat.noneArmed
       (Chat.handleSendMessage Samples.chatEnv (Some "again") "u-2" "a-2"
          MoreSamples.chatChunk).
Proof.
  split; [exact chatChunk_reachable|]. split; [reflexivity|].
  exact (proj2 (proj2
    (ChatExtra.new_send_supersedes Samples.chatEnv (Some "again") "u-2" "a-2"
       MoreSamples.chatChunk chatChunk_reachable eq_refl))).
Defined.

Lemma done_before_any_chunk_witness :
  Chat.reachable Samples.chatEnv Samples.chat0
  /\ Js.allWhiteSpace (Chat.textOf (Some "hello") Samples.chat0) = false
  /\ Chat.tornDown (Chat.dispatch 0 Chat.SseDone Samples.chatSent).
Proof.
  split; [apply Chat.reachable_init|]. split; [reflexivity|].
  exact (proj1 (proj2
    (ChatExtra.done_before_any_chunk Samples.chatEnv (Some "hello") "u-1" "a-1"
       Samples.chat0 (Chat.reachable_init _ _ _) eq_refl eq_refl))).
Defined.

Lemma submit_disables_the_form_witness :
  Chat.reachable Samples.chatEnv MoreSamples.chatTyped
  /\ ChatView.canSubmit MoreSamples.chatTyped = true
  /\ Chat.allClosed MoreSamples.chatTyped
  /\ ChatView.canSubmit
       (Chat.handleSendMessage Samples.chatEnv None "u-1" "a-1" MoreSamples.chatTyped)
     = false.
Proof.
  split; [exact chatTyped_reachable|]. split; [reflexivity|].
  destruct (ChatExtra.submit_disables_the_form Samples.chatEnv "u-1" "a-1"
              MoreSamples.chatTyped) as [H1 H2].
  split; [|exact H1].
  exact (proj1 (H2 chatTyped_reachable eq_refl eq_refl)).
Defined.

Lemma quiet_events_keep_the_deadline_witness :
  Chat.reachable Samples.chatEnv MoreSamples.chatChunk
  /\ ChatView.quiet (Chat.Sse 0 Chat.SseError) = true
  /\ ChatView.sparesRetries (Chat.Sse 0 Chat.SseError) MoreSamples.chatChunk
  /\ Chat.tornDown
       (Chat.elapse 30000
          (Chat.step Samples.chatEnv (Chat.Sse 0 Chat.SseError) MoreSamples.chatChunk)).
Proof.
  assert (S : ChatView.sparesRetries (Chat.Sse 0 Chat.SseError) MoreSamples.chatChunk)
    by (cbn; reflexivity).
  split; [exact chatChunk_reachable|]. split; [reflexivity|]. split; [exact S|].
  refine (proj2 (proj2 (proj2
    (ChatExtra.quiet_events_keep_the_deadline Samples.chatEnv
       (Chat.Sse 0 Chat.SseError) MoreSamples.chatChunk 0 MoreSamples.chunkTimer
       30000 chatChunk_reachable eq_refl S eq_refl eq_refl))) _).
  vm_compute. discriminate.
Defined.

Lemma displayed_joined_filter_witness :
  Js.sameIgnoringCase "WELD" "weld"
  /\ Communities.displayedJoinedCommunities
       (CommunitiesView.withSearchTerm MoreSamples.pageHome "WELD")
     = Communities.displayedJoinedCommunities
         (CommunitiesView.withSearchTerm MoreSamples.pageHome "weld").
Proof.
  split; [reflexivity|].
  exact (proj1 (proj2 (CommunitiesExtra.displayed_joined_filter MoreSamples.pageHome))
           "WELD" "weld" eq_refl).
Defined.

Lemma emptySearchEffect_partition_witness :
  Js.trim (Communities.searchTerm MoreSamples.pageHome) = ""
  /\ forall i, In i (Communities.ids (Communities.allCommunities MoreSamples.pageHome)) ->
       In i (Communities.ids (Communities.joinedCommunities MoreSamples.pageHome))
       \/ In i (Communities.ids (Communities.notJoinedCommunities
                                   (Communities.emptySearchEffect MoreSamples.pageHome))).
Proof.
  split; [reflexivity|].
  exact (proj2 (proj1 (CommunitiesExtra.emptySearchEffect_partition MoreSamples.pageHome)
                  eq_refl)).
Defined.

Lemma buttons_move_communities_witness :
  CommunitiesView.accepting Samples.env
  /\ In Samples.welders (Communities.displayedJoinedCommunities MoreSamples.pageHome)
  /\ Communities.notJoinedCommunities
       (Communities.complete Samples.env (Communities.Leave Samples.welders)
          MoreSamples.pageHome MoreSamples.pageHome)
     = [Samples.plumbers; Samples.drivers; Samples.welders].
Proof.
  split; [exact env_accepting|].
  assert (D : In Samples.welders
                (Communities.displayedJoinedCommunities MoreSamples.pageHome))
    by (left; reflexivity).
  split; [exact D|].
  exact (proj1 (proj1 (CommunitiesExtra.buttons_move_communities Samples.env
                         MoreSamples.pageHome MoreSamples.pageHome Samples.welders
                         env_accepting) D)).
Defined.

Lemma join_then_leave_witness :
  CommunitiesView.accepting Samples.env
  /\ ~ In (Communities.communityId Samples.plumbers)
          (Communities.ids (Communities.joinedCommunities MoreSamples.pageHome))
  /\ Communities.joinedCommunities
       (Communities.complete Samples.env (Communities.Leave Samples.plumbers)
          Samples.page
          (Communities.complete Samples.env (Communities.Join Samples.plumbers)
             MoreSamples.pageHome MoreSamples.pageHome))
     = [Samples.welders].
Proof.
  assert (N : ~ In (Communities.communityId Samples.plumbers)
                (Communities.ids (Communities.joinedCommunities MoreSamples.pageHome))).
  { intros [H|[]]. discriminate H. }
  split; [exact env_accepting|]. split; [exact N|].
  exact (proj1 (CommunitiesExtra.join_then_leave Samples.env MoreSamples.pageHome
                  Samples.page MoreSamples.pageHome Samples.plumbers env_accepting N)).
Defined.

Lemma fetchJoinedCommunities_spec_witness :
  let w := Communities.runFrom Communities.fetchJoinedCommunities Samples.env
             Communities.initialPage MoreSamples.pageHome in
  let w' := Communities.runFrom Communities.fetchJoinedCommunities
              (Samples.envWith MoreSamples.backendBare)
              Communities.initialPage MoreSamples.pageHome in
  (Communities.joinedUndefined w = false
   /\ Communities.joinedCommunities (Communities.page w) = [Samples.welders])
  /\ Communities.joinedUndefined w' = true
  /\ map Communities.url (Communities.sent w')
     = ["https://api.example/api/community/joined/alice"].
Proof.
  split; [|split; [|reflexivity]].
  - destruct (CommunitiesExtra.fetchJoinedCommunities_spec Samples.env
                Communities.initialPage MoreSamples.pageHome)
      as [_ [_ [_ [_ [req [S [_ [_ N]]]]]]]].
    vm_compute in S. injection S as E. subst req. exact N.
  - destruct (CommunitiesExtra.fetchJoinedCommunities_spec
                (Samples.envWith MoreSamples.backendBare)
                Communities.initialPage MoreSamples.pageHome)
      as [_ [_ [_ [_ [req [S [_ [_ N]]]]]]]].
    vm_compute in S. injection S as E. subst req. exact N.
Defined.

Lemma requests_carry_the_token_witness :
  exists req,
    In req (CommunitiesView.requestsOf Samples.env (Communities.Join Samples.plumbers)
              MoreSamples.pageHome)
    /\ CommunitiesView.requestsOf Samples.env (Communities.Join Samples.plumbers)
         MoreSamples.pageHome = [req].
Proof.
  eexists. split; [left; reflexivity|].
  refine (proj1 (CommunitiesExtra.requests_carry_the_token Samples.env
                   (Communities.Join Samples.plumbers) MoreSamples.pageHome _ _)).
  left. reflexivity.
Defined.

Lemma encoded_component_is_safe_witness :
  UrlSafe.plain "plumb-2" = true /\ Js.encodeURIComponent "plumb-2" = "plumb-2".
Proof.
  split; [reflexivity|].
  exact (proj2 (proj2 (UrlSafeFacts.encoded_component_is_safe "plumb-2")) eq_refl).
Defined.

Lemma search_is_debounced_witness :
  SearchBox.changing (Communities.searchTerm (SearchBox.shown MoreSamples.box0))
    (map fst [("p", 100%N); ("pl", 250%N)] ++ ["plu"]) = true
  /\ forallb (fun k => (snd k <? 500)%N) [("p", 100%N); ("pl", 250%N)] = true
  /\ SearchBox.issued
       (SearchBox.elapse Samples.env 500
          (SearchBox.typeSearch "plu"
             (SearchBox.keystrokes Samples.env [("p", 100%N); ("pl", 250%N)]
                MoreSamples.box0)))
     = [SearchBox.searchRequest Samples.env "token" "plu"].
Proof.
  split; [reflexivity|]. split; [reflexivity|].
  exact (proj2 (proj2 (proj2
    (SearchBoxFacts.search_is_debounced Samples.env [("p", 100%N); ("pl", 250%N)]
       "plu" MoreSamples.box0 eq_refl eq_refl))) 500%N (N.le_refl 500)).
Defined.

Lemma handleJoinLeave_outcomes_witness :
  Detail.community MoreSamples.detailState = Some MoreSamples.masons
  /\ Detail.currentUserResult MoreSamples.detailEnv = Some (Some Samples.alice)
  /\ Js.truthy (Communities.uid Samples.alice) = true
  /\ Detail.idTokenResult MoreSamples.detailEnv = Some "token"
  /\ exists req,
       snd (Detail.run Detail.handleJoinLeave MoreSamples.detailEnv
              MoreSamples.detailState) = [req]
       /\ Communities.method req = Communities.POST.
Proof.
  repeat (split; [reflexivity|]).
  destruct (DetailFacts.handleJoinLeave_outcomes MoreSamples.detailEnv
              MoreSamples.detailState MoreSamples.masons Samples.alice "token"
              eq_refl eq_refl eq_refl eq_refl) as [req [H1 [H2 _]]].
  exists req. split; assumption.
Defined.

Lemma handleJoinLeave_needs_user_and_community_witness :
  Detail.community (Detail.initialState "c7") = None
  /\ Detail.run Detail.handleJoinLeave MoreSamples.detailEnv (Detail.initialState "c7")
     = (Detail.initialState "c7", []).
Proof.
  split; [reflexivity|].
  exact (DetailFacts.handleJoinLeave_needs_user_and_community MoreSamples.detailEnv
           (Detail.initialState "c7") (or_introl eq_refl)).
Defined.

Lemma toggle_agrees_with_the_ids_witness :
  Detail.accepting MoreSamples.detailEnv
  /\ Detail.community MoreSamples.detailState = Some MoreSamples.masons
  /\ Detail.isMember
       (fst (Detail.run Detail.handleJoinLeave MoreSamples.detailEnv
               MoreSamples.detailState))
     = negb (Detail.isMember MoreSamples.detailState).
Proof.
  split; [exact detailEnv_accepting|]. split; [reflexivity|].
  exact (proj1 (DetailFacts.toggle_agrees_with_the_ids MoreSamples.detailEnv
                  MoreSamples.detailState MoreSamples.masons
                  detailEnv_accepting eq_refl)).
Defined.

Lemma failed_toggle_disagrees_witness :
  Detail.memberConsistent MoreSamples.detailState
  /\ (forall req, Detail.backend MoreSamples.detailOffline req = None)
  /\ ~ Detail.memberConsistent
         (fst (Detail.run Detail.handleJoinLeave MoreSamples.detailOffline
                 MoreSamples.detailState)).
Proof.
  assert (C : Detail.memberConsistent MoreSamples.detailState).
  { intros c H. injection H as <-. reflexivity. }
  split; [exact C|]. split; [intros req; reflexivity|].
  exact (proj1 (proj2 (proj2
    (DetailFacts.failed_toggle_disagrees MoreSamples.detailOffline
       MoreSamples.detailState MoreSamples.masons Samples.alice "token"
       eq_refl eq_refl eq_refl eq_refl C (fun _ => or_introl eq_refl))))).
Defined.

Lemma fetchCommunityDetails_view_witness :
  Detail.loading
    (fst (Detail.run Detail.fetchCommunityDetails MoreSamples.detailOffline
            (Detail.initialState "c7"))) = false.
Proof.
  exact (proj1 (DetailFacts.fetchCommunityDetails_view MoreSamples.detailOffline
                  (Detail.initialState "c7"))).
Defined.

Lemma bar_stays_until_logout_witness :
  Nav.render Nav.worker MoreSamples.navState = Some (Nav.tabs Nav.worker)
  /\ Nav.render Nav.worker (Nav.handleLogout true MoreSamples.navState) = None.
Proof.
  split; [reflexivity|].
  exact (proj1 (proj2 (proj2 (proj2
    (NavFacts.bar_stays_until_logout Nav.worker MoreSamples.navState eq_refl))))).
Defined.

End Witnesses.
